(** * The Parakeet sidecar control plane: a shallow embedding

    A model of [parakeet_sidecar/messages.py], [model_manager.py] and
    [main.py]: the request and response schemas, the model lifecycle
    manager (load / reuse / unload / status / transcribe), the
    capability-aware argument builder, the result normaliser, the
    response writer and the command dispatcher with its read loop.

    Python objects whose behaviour lives outside the repository (the
    filesystem, [snapshot_download], [from_pretrained], the model handle,
    [orjson], pydantic's primitive coercions, the builtin [str]) are
    collected in an explicit environment [Env]; every statement below
    quantifies over it.  Mutable state (the manager's slot and the trace
    of external calls and of writes to standard output) is threaded
    through a small state-and-exception monad in which state changes
    survive a raised exception, as they do in Python.

    Three limits of the model.  Collaborators raise subclasses of
    [Exception] only; [SystemExit] is raised by the program itself and is
    a separate result [Exit] of a computation.  An interrupt or
    termination signal is delivered while the read loop waits for input,
    not in the middle of a command.  Writing to standard output and
    flushing it succeed: a response that was serialised is on the
    output. *)

From Stdlib Require Import ZArith String Ascii List Bool Lia.
From Stdlib Require Import Floats.PrimFloat Floats.SpecFloat Floats.FloatOps.
From Stdlib Require Import DecimalString.
From stdpp Require Import base option strings gmap.
Import ListNotations.

Local Open Scope Z_scope.
Local Open Scope string_scope.

#[local] Set Warnings "-register-all".

(** ** Python values *)

(** The dynamically typed values that cross the boundaries of the
    program: decoded JSON payloads, keyword arguments, raw inference
    results.  [PTuple] stands for a sequence that is not a [list];
    [PObj has_dict attrs] is an attribute-bearing object, [has_dict]
    telling whether it carries a [__dict__] (a slotted object does not).
    Mappings are keyed by strings.  Objects are taken with the default
    truth value and are not iterable. *)
Inductive PyVal : Type :=
| PNone
| PBool (b : bool)
| PInt (z : Z)
| PFloat (f : float)
| PStr (s : string)
| PList (xs : list PyVal)
| PTuple (xs : list PyVal)
| PDict (kvs : list (string * PyVal))
| PObj (has_dict : bool) (attrs : list (string * PyVal)).

(** [bool(f)] for a float: zero (of either sign) is false, NaN is true. *)
Definition float_truthy (f : float) : bool := negb (PrimFloat.eqb f 0%float).

Definition is_nil {A : Type} (l : list A) : bool :=
  match l with [] => true | _ :: _ => false end.

(** Python truth value. *)
Definition truthy (v : PyVal) : bool :=
  match v with
  | PNone => false
  | PBool b => b
  | PInt z => negb (Z.eqb z 0)
  | PFloat f => float_truthy f
  | PStr s => negb (String.eqb s "")
  | PList xs => negb (is_nil xs)
  | PTuple xs => negb (is_nil xs)
  | PDict kvs => negb (is_nil kvs)
  | PObj _ _ => true
  end.

(** [a or b] *)
Definition py_or (a b : PyVal) : PyVal := if truthy a then a else b.

(** Lookup in an association list keyed by strings (first binding). *)
Fixpoint assoc {A : Type} (k : string) (kvs : list (string * A)) : option A :=
  match kvs with
  | [] => None
  | (k', v) :: rest => if String.eqb k k' then Some v else assoc k rest
  end.

(** [d.get(k, default)] on a mapping. *)
Definition dict_get (kvs : list (string * PyVal)) (k : string) (default : PyVal) : PyVal :=
  match assoc k kvs with Some v => v | None => default end.

(** [getattr(v, name, default)].  The builtin scalars and containers
    carry none of the attribute names the program asks for. *)
Definition py_getattr (v : PyVal) (name : string) (default : PyVal) : PyVal :=
  match v with
  | PObj _ attrs => match assoc name attrs with Some x => x | None => default end
  | _ => default
  end.

(** [hasattr(v, "__dict__")] *)
Definition has___dict__ (v : PyVal) : bool :=
  match v with PObj has_dict _ => has_dict | _ => false end.

(** ** Exceptions *)

(** The subclasses of [Exception] the handlers tell apart.  A tag stands
    for the class and its subclasses not listed. *)
Inductive ExnClass : Type :=
| FileNotFoundError
| ValidationError
| ValueError
| RuntimeError
| TypeError
| OtherException.

(** [exn_msg] is [str(exc)]; [exn_errors] is what [exc.errors()] returns
    for a pydantic [ValidationError] (empty for the other classes). *)
Record Exn : Type := mkExn {
  exn_class : ExnClass;
  exn_msg : string;
  exn_errors : list PyVal
}.

Definition exn (c : ExnClass) (msg : string) : Exn := mkExn c msg [].

(** What a call into a collaborator or into pure code yields: a value or
    a raised exception. *)
Inductive Outcome (A : Type) : Type :=
| Ok (a : A)
| Raise (e : Exn).
Arguments Ok {A} a.
Arguments Raise {A} e.

Definition is_Ok {A : Type} (o : Outcome A) : bool :=
  match o with Ok _ => true | Raise _ => false end.

(** ** Filesystem paths *)

(** [pathlib.Path] on a POSIX host: a root ([""], ["/"] or ["//"]) and the
    components left after dropping empty and ["."] ones.  Two paths are
    equal exactly when root and components agree. *)
Module Path.

Record t : Type := mk { root : string; parts : list string }.

(** [s.split("/")] *)
Fixpoint split_slash (s : string) : list string :=
  match s with
  | EmptyString => [EmptyString]
  | String c rest =>
      if Ascii.eqb c "/" then EmptyString :: split_slash rest
      else match split_slash rest with
           | [] => [String c EmptyString]
           | hd :: tl => String c hd :: tl
           end
  end.

(** [posixpath.splitroot]: exactly two leading slashes are kept. *)
Definition root_of (s : string) : string :=
  match s with
  | String "/" (String "/" (String "/" _)) => "/"
  | String "/" (String "/" _) => "//"
  | String "/" _ => "/"
  | _ => ""
  end.

Definition keep_part (p : string) : bool :=
  negb (String.eqb p "") && negb (String.eqb p ".").

(** [Path(s)] *)
Definition of_string (s : string) : t :=
  {| root := root_of s; parts := List.filter keep_part (split_slash s) |}.

Fixpoint join (ps : list string) : string :=
  match ps with
  | [] => ""
  | [p] => p
  | p :: rest => p ++ "/" ++ join rest
  end.

(** [str(p)] *)
Definition to_string (p : t) : string :=
  let s := root p ++ join (parts p) in
  if String.eqb s "" then "." else s.

Definition eqb (p q : t) : bool :=
  String.eqb (root p) (root q)
  && bool_decide (parts p = parts q).

End Path.


(** ** Schemas ([messages.py]) *)

Inductive Precision : Type := bf16 | fp32.
Inductive Attention : Type := full | local.

Definition Precision_str (p : Precision) : string :=
  match p with bf16 => "bf16" | fp32 => "fp32" end.
Definition Attention_str (a : Attention) : string :=
  match a with full => "full" | local => "local" end.

Module LoadModelRequest.
Record t : Type := mk {
  model_id : string;
  local_path : option string;
  cache_dir : option string;
  precision : Precision;
  attention : Attention;
  local_attention_context : Z;
  chunk_duration : option float;
  overlap_duration : option float;
  eager_unload : bool
}.
End LoadModelRequest.

Module TranscribeRequest.
Record t : Type := mk {
  audio_path : string;
  language : option string;
  translate_to_english : bool;
  prompt : option string;
  use_word_timestamps : bool;
  chunk_duration : option float;
  overlap_duration : option float;
  attention : option Attention;
  local_attention_context : option Z
}.
End TranscribeRequest.

(** [CommandRequest]: the union of the five request classes. *)
Inductive CommandRequest : Type :=
| LoadModel (request : LoadModelRequest.t)
| UnloadModel
| Transcribe (request : TranscribeRequest.t)
| Status
| Shutdown.

Module SegmentPayload.
Record t : Type := mk {
  text : string;
  start : option float;
  end_ : option float;
  tokens : option (list (list (string * PyVal)))
}.
End SegmentPayload.

(** [Response]: the union of the four response classes. *)
Inductive Response : Type :=
| OkResponse (command : string) (payload : list (string * PyVal))
| ErrorResponse (code : string) (message : string) (details : option (list (string * PyVal)))
| StatusResponse (loaded_model model_path precision attention : option string)
| TranscriptionResponse (text : string) (segments : list SegmentPayload.t)
    (language : option string) (duration : option float).

Definition opt_val {A : Type} (f : A -> PyVal) (o : option A) : PyVal :=
  match o with Some a => f a | None => PNone end.

(** [model_dump()]: the plain mapping pydantic builds from a model, fields
    in declaration order ([type] first, inherited from [BaseResponse]). *)
Definition SegmentPayload_model_dump (seg : SegmentPayload.t) : PyVal :=
  PDict [ ("text", PStr (SegmentPayload.text seg));
          ("start", opt_val PFloat (SegmentPayload.start seg));
          ("end", opt_val PFloat (SegmentPayload.end_ seg));
          ("tokens", opt_val (fun ts => PList (List.map PDict ts)) (SegmentPayload.tokens seg)) ].

Definition model_dump (r : Response) : PyVal :=
  match r with
  | OkResponse command payload =>
      PDict [ ("type", PStr "ok"); ("command", PStr command); ("payload", PDict payload) ]
  | ErrorResponse code message details =>
      PDict [ ("type", PStr "error"); ("code", PStr code); ("message", PStr message);
              ("details", opt_val PDict details) ]
  | StatusResponse loaded_model model_path precision attention =>
      PDict [ ("type", PStr "status");
              ("loaded_model", opt_val PStr loaded_model);
              ("model_path", opt_val PStr model_path);
              ("precision", opt_val PStr precision);
              ("attention", opt_val PStr attention) ]
  | TranscriptionResponse text segments language duration =>
      PDict [ ("type", PStr "transcription"); ("text", PStr text);
              ("segments", PList (List.map SegmentPayload_model_dump segments));
              ("language", opt_val PStr language);
              ("duration", opt_val PFloat duration) ]
  end.

(** ** The external collaborators *)

(** The instantiated model as the manager sees it.
    [model_method name] is [getattr(model, name, None)] when that is
    callable, with the outcome of calling it without arguments;
    [set_attention_model] is [model.encoder.set_attention_model] when the
    encoder exists and the attribute is callable;
    [transcribe_signature] is how
    [set(inspect.signature(model.transcribe).parameters.keys())] ends:
    with the key set, or with the exception of reading [model.transcribe]
    or of inspecting it. *)
Record Model : Type := {
  model_method : string -> option (Outcome unit);
  set_attention_model : option (string -> option (Z * Z) -> Outcome unit);
  transcribe_signature : Outcome (gset string);
  model_transcribe : string -> gmap string PyVal -> Outcome PyVal
}.

(** Everything the program calls but does not define. *)
Record Env : Type := {
  (** [Path.exists] *)
  path_exists : Path.t -> bool;
  (** [huggingface_hub.snapshot_download(repo_id, local_dir)] *)
  snapshot_download : string -> option Path.t -> Outcome string;
  (** [parakeet_mlx.from_pretrained] *)
  from_pretrained : Path.t -> Outcome Model;
  (** [orjson.loads] and [orjson.dumps] on plain values *)
  orjson_loads : string -> Outcome PyVal;
  orjson_dumps : PyVal -> Outcome string;
  (** the builtin [str] *)
  py_str : PyVal -> string;
  (** pydantic's validation of one value against [str], [int], [float]
      and [bool]; [None] when the value is rejected *)
  as_str : PyVal -> option string;
  as_int : PyVal -> option Z;
  as_float : PyVal -> option float;
  as_bool : PyVal -> option bool;
  (** the [ValidationError] pydantic raises for a model class and the
      rejected input *)
  pydantic_error : string -> PyVal -> Exn
}.

(** ** State *)

Module LoadedModel.
Record t : Type := mk {
  model_id : string;
  model_path : Path.t;
  precision : Precision;
  attention : Attention;
  chunk_duration : float;
  overlap_duration : float;
  instance : Model;
  transcribe_params : gset string
}.
End LoadedModel.

(** What the process does to the outside, in order. *)
Inductive Event : Type :=
| EvDownload (repo_id : string) (local_dir : option Path.t)
| EvFromPretrained (model_path : Path.t)
| EvMethod (name : string)
| EvSetAttention (kind : string) (context : option (Z * Z))
| EvTranscribe (audio_path : string) (kwargs : gmap string PyVal)
| EvStdout (bytes : string).

(** [current] is [ModelManager._current]; [trace] the events so far. *)
Record State : Type := mkState {
  current : option LoadedModel.t;
  trace : list Event
}.

Definition initial : State := {| current := None; trace := [] |}.

(** ** A monad for state and exceptions *)

(** How a computation ends: with a value, with an exception, or with
    [SystemExit(status)] on its way up the stack. *)
Inductive Result (A : Type) : Type :=
| Val (a : A)
| Exc (e : Exn)
| Exit (status : Z).
Arguments Val {A} a.
Arguments Exc {A} e.
Arguments Exit {A} status.

Definition M (A : Type) : Type := State -> Result A * State.

Definition ret {A : Type} (a : A) : M A := fun s => (Val a, s).

Definition bind {A B : Type} (m : M A) (k : A -> M B) : M B :=
  fun s => match m s with
           | (Val a, s') => k a s'
           | (Exc e, s') => (Exc e, s')
           | (Exit n, s') => (Exit n, s')
           end.

Definition raise {A : Type} (e : Exn) : M A := fun s => (Exc e, s).

(** [raise SystemExit(status)] *)
Definition sys_exit {A : Type} (status : Z) : M A := fun s => (Exit status, s).

Definition lift {A : Type} (o : Outcome A) : M A :=
  fun s => match o with
           | Ok a => (Val a, s)
           | Raise e => (Exc e, s)
           end.

Declare Scope py_scope.
Delimit Scope py_scope with py.
Notation "x <- c1 ;; c2" := (bind c1 (fun x => c2))
  (at level 100, c1 at next level, c2 at level 200, right associativity) : py_scope.
Notation "c1 ;; c2" := (bind c1 (fun _ => c2))
  (at level 100, c2 at level 200, right associativity) : py_scope.
Local Open Scope py_scope.

Definition get_current : M (option LoadedModel.t) := fun s => (Val (current s), s).

Definition set_current (c : option LoadedModel.t) : M unit :=
  fun s => (Val tt, {| current := c; trace := trace s |}).

Definition emit (ev : Event) : M unit :=
  fun s => (Val tt, {| current := current s; trace := trace s ++ [ev] |}).

(** A call into a collaborator: recorded, then its outcome. *)
Definition call {A : Type} (ev : Event) (o : Outcome A) : M A := emit ev ;; lift o.

(** [try: body except ...]: [handler e] is the clause that matches [e],
    if any.  An exception raised by the clause itself propagates, and so
    does [SystemExit], which no clause of the program names. *)
Definition try_except {A : Type} (body : M A) (handler : Exn -> option (M A)) : M A :=
  fun s => match body s with
           | (Exc e, s') =>
               match handler e with
               | Some h => h s'
               | None => (Exc e, s')
               end
           | other => other
           end.

(** [try: body finally: final]: [final] always runs; if it returns, the
    result of [body] stands. *)
Definition try_finally {A : Type} (body : M A) (final : M unit) : M A :=
  fun s => match body s with
           | (r, s') =>
               match final s' with
               | (Val _, s'') => (r, s'')
               | (Exc e, s'') => (Exc e, s'')
               | (Exit n, s'') => (Exit n, s'')
               end
           end.

(** ** The model lifecycle manager ([model_manager.py]) *)

(** Truth value of an [Optional[str]]: [None] and [""] are false. *)
Definition opt_str_truthy (o : option string) : bool :=
  match o with
  | Some s => negb (String.eqb s "")
  | None => false
  end.

(** [value or default] for an [Optional[float]]. *)
Definition float_or (o : option float) (default : float) : float :=
  match o with
  | Some f => if float_truthy f then f else default
  | None => default
  end.

(** The guard of [ModelManager.load]: the four conjuncts of the [if]. *)
Definition can_reuse (cur : option LoadedModel.t) (request : LoadModelRequest.t) : bool :=
  match cur with
  | None => false
  | Some c =>
      negb (LoadModelRequest.eager_unload request)
      && String.eqb (LoadedModel.model_id c) (LoadModelRequest.model_id request)
      && (negb (opt_str_truthy (LoadModelRequest.local_path request))
          || match LoadModelRequest.local_path request with
             | Some p => Path.eqb (LoadedModel.model_path c) (Path.of_string p)
             | None => false
             end)
  end.

Definition _resolve_model_path (E : Env) (request : LoadModelRequest.t) : M Path.t :=
  if opt_str_truthy (LoadModelRequest.local_path request) then
    let path := Path.of_string (default "" (LoadModelRequest.local_path request)) in
    if negb (path_exists E path) then
      raise (exn FileNotFoundError ("local_path does not exist: " ++ Path.to_string path))
    else ret path
  else
    let cache_dir :=
      if opt_str_truthy (LoadModelRequest.cache_dir request)
      then Some (Path.of_string (default "" (LoadModelRequest.cache_dir request)))
      else None in
    path_str <- call (EvDownload (LoadModelRequest.model_id request) cache_dir)
                     (snapshot_download E (LoadModelRequest.model_id request) cache_dir) ;;
    ret (Path.of_string path_str).

Definition method_map (precision : Precision) : list string :=
  match precision with
  | bf16 => ["to_bf16"; "to_bfloat16"]
  | fp32 => ["to_float32"; "to_fp32"]
  end.

(** The [for name in ...] loop of [_configure_precision]: the first
    callable method is called and the loop left. *)
Fixpoint apply_first_method (model : Model) (names : list string) : M unit :=
  match names with
  | [] => ret tt
  | name :: rest =>
      match model_method model name with
      | Some outcome => call (EvMethod name) outcome
      | None => apply_first_method model rest
      end
  end.

Definition _configure_precision (model : Model) (precision : Precision) : M unit :=
  apply_first_method model (method_map precision).

Definition _configure_attention (model : Model) (mode : Attention) (context : Z) : M unit :=
  try_except
    (match mode, set_attention_model model with
     | local, Some setter =>
         call (EvSetAttention "rel_pos_local_attn" (Some (context, context)))
              (setter "rel_pos_local_attn" (Some (context, context)))
     | _, Some setter =>
         call (EvSetAttention "rel_pos" None) (setter "rel_pos" None)
     | _, None => ret tt
     end)
    (fun _ => Some (ret tt)).

(** [LoadedModel(...)] as [load] fills it in. *)
Definition new_state (request : LoadModelRequest.t) (model_path : Path.t) (model : Model)
    (params : gset string) : LoadedModel.t :=
  {| LoadedModel.model_id := LoadModelRequest.model_id request;
     LoadedModel.model_path := model_path;
     LoadedModel.precision := LoadModelRequest.precision request;
     LoadedModel.attention := LoadModelRequest.attention request;
     LoadedModel.chunk_duration := float_or (LoadModelRequest.chunk_duration request) 120%float;
     LoadedModel.overlap_duration := float_or (LoadModelRequest.overlap_duration request) 15%float;
     LoadedModel.instance := model;
     LoadedModel.transcribe_params := params |}.

Definition load (E : Env) (request : LoadModelRequest.t) : M LoadedModel.t :=
  cur <- get_current ;;
  match (if can_reuse cur request then cur else None) with
  | Some c => ret c
  | None =>
      model_path <- _resolve_model_path E request ;;
      model <- call (EvFromPretrained model_path) (from_pretrained E model_path) ;;
      _configure_precision model (LoadModelRequest.precision request) ;;
      _configure_attention model (LoadModelRequest.attention request)
                           (LoadModelRequest.local_attention_context request) ;;
      params <- lift (transcribe_signature model) ;;
      let loaded := new_state request model_path model params in
      set_current (Some loaded) ;;
      ret loaded
  end.

Definition unload : M unit :=
  cur <- get_current ;;
  match cur with
  | None => ret tt
  | Some c =>
      try_finally
        (match model_method (LoadedModel.instance c) "close" with
         | Some outcome => call (EvMethod "close") outcome
         | None => ret tt
         end)
        (set_current None)
  end.

(** The mapping [status] returns, by key. *)
Module StatusDict.
Record t : Type := mk {
  loaded_model : option string;
  model_path : option string;
  precision : option string;
  attention : option string
}.
End StatusDict.

Definition status : M StatusDict.t :=
  cur <- get_current ;;
  match cur with
  | None =>
      ret {| StatusDict.loaded_model := None; StatusDict.model_path := None;
             StatusDict.precision := None; StatusDict.attention := None |}
  | Some c =>
      ret {| StatusDict.loaded_model := Some (LoadedModel.model_id c);
             StatusDict.model_path := Some (Path.to_string (LoadedModel.model_path c));
             StatusDict.precision := Some (Precision_str (LoadedModel.precision c));
             StatusDict.attention := Some (Attention_str (LoadedModel.attention c)) |}
  end.

(** *** The argument builder *)

(** [if key in params and value is not None: merged[key] = value] *)
Definition put_declared (params : gset string) (merged : gmap string PyVal)
    (entry : string * option PyVal) : gmap string PyVal :=
  match entry with
  | (key, Some value) => if bool_decide (key ∈ params) then <[key := value]> merged else merged
  | (_, None) => merged
  end.

(** The [defaults] mapping, in insertion order. *)
Definition defaults (cur : LoadedModel.t) : list (string * option PyVal) :=
  [ ("chunk_duration", Some (PFloat (LoadedModel.chunk_duration cur)));
    ("overlap_duration", Some (PFloat (LoadedModel.overlap_duration cur))) ].

(** The [overrides] mapping, in insertion order; [None] is Python's. *)
Definition overrides (request : TranscribeRequest.t) : list (string * option PyVal) :=
  [ ("language", PStr <$> TranscribeRequest.language request);
    ("translate_to_english", Some (PBool (TranscribeRequest.translate_to_english request)));
    ("prompt", PStr <$> TranscribeRequest.prompt request);
    ("use_word_timestamps", Some (PBool (TranscribeRequest.use_word_timestamps request)));
    ("chunk_duration", PFloat <$> TranscribeRequest.chunk_duration request);
    ("overlap_duration", PFloat <$> TranscribeRequest.overlap_duration request) ].

(** [request.attention or self._current.attention] *)
Definition attention_mode (cur : LoadedModel.t) (request : TranscribeRequest.t) : Attention :=
  match TranscribeRequest.attention request with
  | Some a => a
  | None => LoadedModel.attention cur
  end.

(** [request.local_attention_context or None] *)
Definition context_of (request : TranscribeRequest.t) : option Z :=
  match TranscribeRequest.local_attention_context request with
  | Some z => if Z.eqb z 0 then None else Some z
  | None => None
  end.

Definition _build_kwargs (cur : LoadedModel.t) (request : TranscribeRequest.t)
    : gmap string PyVal :=
  let params := LoadedModel.transcribe_params cur in
  let merged : gmap string PyVal := ∅ in
  let merged := fold_left (put_declared params) (defaults cur) merged in
  (* if "attention" in params: merged["attention"] = attention_mode *)
  let merged :=
    put_declared params merged
      ("attention", Some (PStr (Attention_str (attention_mode cur request)))) in
  (* if context and "local_attention_context" in params: ... = context *)
  let merged :=
    put_declared params merged ("local_attention_context", PInt <$> context_of request) in
  fold_left (put_declared params) (overrides request) merged.

(** *** pydantic models built from dynamic values *)

(** [Optional[T]]: [None] passes, anything else goes through [T]. *)
Definition validate_optional {A : Type} (f : PyVal -> option A) (v : PyVal)
    : option (option A) :=
  match v with
  | PNone => Some None
  | _ => Some <$> f v
  end.

(** [Dict[str, Any]] *)
Definition as_dict (v : PyVal) : option (list (string * PyVal)) :=
  match v with
  | PDict d => Some d
  | _ => None
  end.

(** [List[T]]: a list, or a tuple taken as one. *)
Definition as_list_of {A : Type} (f : PyVal -> option A) (v : PyVal) : option (list A) :=
  match v with
  | PList xs | PTuple xs => mapM f xs
  | _ => None
  end.

(** A field of the input mapping, [PNone] standing for its default. *)
Definition field (fields : list (string * PyVal)) (name : string) : PyVal :=
  dict_get fields name PNone.

(** [SegmentPayload] built from keyword arguments: [text] is required,
    the others default to [None]. *)
Definition SegmentPayload_validate (E : Env) (fields : list (string * PyVal))
    : Outcome SegmentPayload.t :=
  match assoc "text" fields ≫= as_str E,
        validate_optional (as_float E) (field fields "start"),
        validate_optional (as_float E) (field fields "end"),
        validate_optional (as_list_of as_dict) (field fields "tokens") with
  | Some text, Some start, Some end_, Some tokens =>
      Ok {| SegmentPayload.text := text; SegmentPayload.start := start;
            SegmentPayload.end_ := end_; SegmentPayload.tokens := tokens |}
  | _, _, _, _ => Raise (pydantic_error E "SegmentPayload" (PDict fields))
  end.

(** [List[SegmentPayload]] given as a list of mappings. *)
Fixpoint validate_segments (E : Env) (segments : list PyVal)
    : option (list SegmentPayload.t) :=
  match segments with
  | [] => Some []
  | seg :: rest =>
      match as_dict seg with
      | Some fields =>
          match SegmentPayload_validate E fields, validate_segments E rest with
          | Ok s, Some ss => Some (s :: ss)
          | _, _ => None
          end
      | None => None
      end
  end.

(** The mapping [_normalise_result] returns, by key. *)
Module Normalised.
Record t : Type := mk {
  text : PyVal;
  segments : list PyVal;
  language : PyVal;
  duration : PyVal
}.
Definition to_dict (p : t) : PyVal :=
  PDict [ ("text", text p); ("segments", PList (segments p));
          ("language", language p); ("duration", duration p) ].
End Normalised.

(** [TranscriptionResponse] built from the normalised mapping. *)
Definition TranscriptionResponse_validate (E : Env) (payload : Normalised.t)
    : Outcome Response :=
  match as_str E (Normalised.text payload),
        validate_segments E (Normalised.segments payload),
        validate_optional (as_str E) (Normalised.language payload),
        validate_optional (as_float E) (Normalised.duration payload) with
  | Some text, Some segments, Some language, Some duration =>
      Ok (TranscriptionResponse text segments language duration)
  | _, _, _, _ =>
      Raise (pydantic_error E "TranscriptionResponse" (Normalised.to_dict payload))
  end.

(** *** The result normaliser *)

(** The class name in the message of a [TypeError]. The class of a
    [PObj] is not part of the model. *)
Definition type_name (v : PyVal) : string :=
  match v with
  | PNone => "NoneType"
  | PBool _ => "bool"
  | PInt _ => "int"
  | PFloat _ => "float"
  | PStr _ => "str"
  | PList _ => "list"
  | PTuple _ => "tuple"
  | PDict _ => "dict"
  | PObj _ _ => "object"
  end.

(** The items a [for] loop draws from a value. *)
Definition py_iter (v : PyVal) : Outcome (list PyVal) :=
  match v with
  | PList xs | PTuple xs => Ok xs
  | PStr s => Ok (List.map (fun c => PStr (String c "")) (list_ascii_of_string s))
  | PDict kvs => Ok (List.map (fun kv => PStr (fst kv)) kvs)
  | _ => Raise (exn TypeError ("'" ++ type_name v ++ "' object is not iterable"))
  end.

(** One iteration of the inner loop over [tokens]. *)
Definition process_token (E : Env) (token : PyVal) : PyVal :=
  match token with
  | PDict _ => token
  | _ =>
      if has___dict__ token then
        PDict [ ("text", py_getattr token "text" (PStr ""));
                ("start", py_getattr token "start" PNone);
                ("end", py_getattr token "end" PNone);
                ("duration", py_getattr token "duration" PNone) ]
      else PDict [ ("text", PStr (py_str E token)) ]
  end.

(** [seg_text], [start], [end] and [tokens] of a raw segment. *)
Definition segment_fields (segment : PyVal) : PyVal * PyVal * PyVal * PyVal :=
  match segment with
  | PDict d =>
      (dict_get d "text" (PStr ""), dict_get d "start" PNone,
       dict_get d "end" PNone, dict_get d "tokens" PNone)
  | _ =>
      (py_getattr segment "text" (PStr ""), py_getattr segment "start" PNone,
       py_getattr segment "end" PNone, py_getattr segment "tokens" PNone)
  end.

(** [processed_tokens] *)
Definition process_tokens (E : Env) (tokens : PyVal) : PyVal :=
  if truthy tokens then
    match tokens with
    | PList ts => PList (List.map (process_token E) ts)
    | _ => PNone
    end
  else PNone.

(** One iteration of the loop over [raw_segments]: the mapping appended
    to [segments]. *)
Definition normalise_segment (E : Env) (segment : PyVal) : Outcome PyVal :=
  let '(seg_text, start, end_, tokens) := segment_fields segment in
  let processed_tokens := process_tokens E tokens in
  match SegmentPayload_validate E
          [ ("text", seg_text); ("start", start); ("end", end_);
            ("tokens", processed_tokens) ] with
  | Ok payload => Ok (SegmentPayload_model_dump payload)
  | Raise e => Raise e
  end.

(** The loop over the segments, left at the first exception. *)
Fixpoint normalise_segments (E : Env) (raw : list PyVal) : Outcome (list PyVal) :=
  match raw with
  | [] => Ok []
  | segment :: rest =>
      match normalise_segment E segment with
      | Raise e => Raise e
      | Ok s =>
          match normalise_segments E rest with
          | Raise e => Raise e
          | Ok ss => Ok (s :: ss)
          end
      end
  end.

(** The four values read off the raw result before the loop. *)
Definition extract (result : PyVal) : PyVal * PyVal * PyVal * PyVal :=
  match result with
  | PDict d =>
      (py_or (py_or (dict_get d "text" PNone) (dict_get d "transcription" PNone)) (PStr ""),
       dict_get d "language" PNone,
       dict_get d "duration" PNone,
       py_or (py_or (dict_get d "segments" PNone) (dict_get d "sentences" PNone)) (PList []))
  | _ =>
      (py_getattr result "text" (PStr ""),
       py_getattr result "language" PNone,
       py_getattr result "duration" PNone,
       py_or (py_getattr result "segments" PNone) (py_getattr result "sentences" (PList [])))
  end.

Definition _normalise_result (E : Env) (result : PyVal) : Outcome Normalised.t :=
  let '(text, language, duration, raw_segments) := extract result in
  match py_iter (py_or raw_segments (PList [])) with
  | Raise e => Raise e
  | Ok items =>
      match normalise_segments E items with
      | Raise e => Raise e
      | Ok segments =>
          Ok {| Normalised.text := text; Normalised.segments := segments;
                Normalised.language := language; Normalised.duration := duration |}
      end
  end.

Definition transcribe (E : Env) (request : TranscribeRequest.t) : M Response :=
  cur <- get_current ;;
  match cur with
  | None => raise (exn RuntimeError "No Parakeet model loaded")
  | Some c =>
      let audio_path := Path.of_string (TranscribeRequest.audio_path request) in
      if negb (path_exists E audio_path) then
        raise (exn FileNotFoundError ("Audio path not found: " ++ Path.to_string audio_path))
      else
        let args := _build_kwargs c request in
        result <- call (EvTranscribe (Path.to_string audio_path) args)
                       (model_transcribe (LoadedModel.instance c)
                                         (Path.to_string audio_path) args) ;;
        payload <- lift (_normalise_result E result) ;;
        lift (TranscriptionResponse_validate E payload)
  end.

(** ** Decoding commands ([messages.parse_command]) *)

Fixpoint contains_sub (sub s : string) : bool :=
  String.prefix sub s
  || match s with
     | EmptyString => false
     | String _ rest => contains_sub sub rest
     end.

Definition is_str (v : PyVal) (s : string) : bool :=
  match v with
  | PStr s' => String.eqb s' s
  | _ => false
  end.

(** ["type" in payload] *)
Definition contains_type (payload : PyVal) : Outcome bool :=
  match payload with
  | PDict kvs => Ok (bool_decide (is_Some (assoc "type" kvs)))
  | PList xs | PTuple xs => Ok (existsb (fun x => is_str x "type") xs)
  | PStr s => Ok (contains_sub "type" s)
  | _ => Raise (exn TypeError ("argument of type '" ++ type_name payload ++ "' is not iterable"))
  end.

(** [payload["type"]] *)
Definition getitem_type (payload : PyVal) : Outcome PyVal :=
  match payload with
  | PDict kvs =>
      match assoc "type" kvs with
      | Some v => Ok v
      | None => Raise (exn OtherException "'type'")
      end
  | PList _ => Raise (exn TypeError "list indices must be integers or slices, not str")
  | PTuple _ => Raise (exn TypeError "tuple indices must be integers or slices, not str")
  | PStr _ => Raise (exn TypeError "string indices must be integers, not 'str'")
  | _ => Raise (exn TypeError ("'" ++ type_name payload ++ "' object is not subscriptable"))
  end.

(** A field with a default: the default stands when the key is absent. *)
Definition field_or {A : Type} (fields : list (string * PyVal)) (name : string)
    (validate : PyVal -> option A) (dflt : A) : option A :=
  match assoc name fields with
  | None => Some dflt
  | Some v => validate v
  end.

Definition as_precision (v : PyVal) : option Precision :=
  if is_str v "bf16" then Some bf16
  else if is_str v "fp32" then Some fp32
  else None.

Definition as_attention (v : PyVal) : option Attention :=
  if is_str v "full" then Some full
  else if is_str v "local" then Some local
  else None.

(** [_validate_context]: the value must be positive. *)
Definition _validate_context (value : Z) : option Z :=
  if Z.leb value 0 then None else Some value.

(** [_check_audio_path]: the value must not be empty. *)
Definition _check_audio_path (value : string) : option string :=
  if String.eqb value "" then None else Some value.

Definition LoadModelRequest_fields (E : Env) (fields : list (string * PyVal))
    : option LoadModelRequest.t :=
  model_id ← assoc "model_id" fields ≫= as_str E;
  local_path ← field_or fields "local_path" (validate_optional (as_str E)) None;
  cache_dir ← field_or fields "cache_dir" (validate_optional (as_str E)) None;
  precision ← field_or fields "precision" as_precision bf16;
  attention ← field_or fields "attention" as_attention full;
  local_attention_context ←
    field_or fields "local_attention_context"
             (fun v => as_int E v ≫= _validate_context) 256%Z;
  chunk_duration ←
    field_or fields "chunk_duration" (validate_optional (as_float E)) (Some 120%float);
  overlap_duration ←
    field_or fields "overlap_duration" (validate_optional (as_float E)) (Some 15%float);
  eager_unload ← field_or fields "eager_unload" (as_bool E) false;
  Some {| LoadModelRequest.model_id := model_id;
          LoadModelRequest.local_path := local_path;
          LoadModelRequest.cache_dir := cache_dir;
          LoadModelRequest.precision := precision;
          LoadModelRequest.attention := attention;
          LoadModelRequest.local_attention_context := local_attention_context;
          LoadModelRequest.chunk_duration := chunk_duration;
          LoadModelRequest.overlap_duration := overlap_duration;
          LoadModelRequest.eager_unload := eager_unload |}.

Definition TranscribeRequest_fields (E : Env) (fields : list (string * PyVal))
    : option TranscribeRequest.t :=
  audio_path ← assoc "audio_path" fields ≫= (fun v => as_str E v ≫= _check_audio_path);
  language ← field_or fields "language" (validate_optional (as_str E)) None;
  translate_to_english ← field_or fields "translate_to_english" (as_bool E) false;
  prompt ← field_or fields "prompt" (validate_optional (as_str E)) None;
  use_word_timestamps ← field_or fields "use_word_timestamps" (as_bool E) true;
  chunk_duration ← field_or fields "chunk_duration" (validate_optional (as_float E)) None;
  overlap_duration ← field_or fields "overlap_duration" (validate_optional (as_float E)) None;
  attention ← field_or fields "attention" (validate_optional as_attention) None;
  local_attention_context ←
    field_or fields "local_attention_context" (validate_optional (as_int E)) None;
  Some {| TranscribeRequest.audio_path := audio_path;
          TranscribeRequest.language := language;
          TranscribeRequest.translate_to_english := translate_to_english;
          TranscribeRequest.prompt := prompt;
          TranscribeRequest.use_word_timestamps := use_word_timestamps;
          TranscribeRequest.chunk_duration := chunk_duration;
          TranscribeRequest.overlap_duration := overlap_duration;
          TranscribeRequest.attention := attention;
          TranscribeRequest.local_attention_context := local_attention_context |}.

(** [cls.model_validate(payload)] for a mapping: the request, or the
    [ValidationError] of that class. *)
Definition model_validate {A : Type} (E : Env) (cls : string)
    (validate : list (string * PyVal) -> option A) (payload : PyVal) : Outcome A :=
  match as_dict payload ≫= validate with
  | Some request => Ok request
  | None => Raise (pydantic_error E cls payload)
  end.

Definition parse_command (E : Env) (payload : PyVal) : Outcome CommandRequest :=
  match contains_type payload with
  | Raise e => Raise e
  | Ok false => Raise (exn ValueError "Missing 'type' in message payload")
  | Ok true =>
      match getitem_type payload with
      | Raise e => Raise e
      | Ok msg_type =>
          if is_str msg_type "load_model" then
            match model_validate E "LoadModelRequest" (LoadModelRequest_fields E) payload with
            | Ok request => Ok (LoadModel request)
            | Raise e => Raise e
            end
          else if is_str msg_type "unload_model" then
            model_validate E "UnloadModelRequest" (fun _ => Some UnloadModel) payload
          else if is_str msg_type "transcribe" then
            match model_validate E "TranscribeRequest" (TranscribeRequest_fields E) payload with
            | Ok request => Ok (Transcribe request)
            | Raise e => Raise e
            end
          else if is_str msg_type "status" then
            model_validate E "StatusRequest" (fun _ => Some Status) payload
          else if is_str msg_type "shutdown" then
            model_validate E "ShutdownRequest" (fun _ => Some Shutdown) payload
          else Raise (exn ValueError ("Unknown message type: " ++ py_str E msg_type))
      end
  end.

(** ** The dispatcher ([main.py]) *)

Definition newline : string := String (ascii_of_nat 10) EmptyString.

(** The fixed response written when a response cannot be serialised. *)
Definition serialisation_error : Response :=
  ErrorResponse "serialisation_error" "Internal serialisation error" None.

(** [orjson.dumps(response, default=_pydantic_default)]: a response has
    [model_dump], so [_pydantic_default] hands orjson its mapping. *)
Definition dumps (E : Env) (response : Response) : M string :=
  lift (orjson_dumps E (model_dump response)).

Definition write_response (E : Env) (response : Response) : M unit :=
  payload <- try_except (dumps E response)
               (fun _ => Some (dumps E serialisation_error)) ;;
  emit (EvStdout (payload ++ newline)).

(** The [except] clauses of [handle_command], first match first. *)
Definition command_handler (E : Env) (exc : Exn) : option (M unit) :=
  match exn_class exc with
  | FileNotFoundError =>
      Some (write_response E (ErrorResponse "file_not_found" (exn_msg exc) None))
  | ValidationError =>
      Some (write_response E
              (ErrorResponse "validation_error" "Invalid command payload"
                             (Some [("errors", PList (exn_errors exc))])))
  | RuntimeError =>
      Some (write_response E (ErrorResponse "runtime_error" (exn_msg exc) None))
  | _ =>
      Some (write_response E (ErrorResponse "internal_error" (exn_msg exc) None))
  end.

Definition handle_command (E : Env) (command : CommandRequest) : M unit :=
  try_except
    (match command with
     | LoadModel request =>
         load E request ;;
         write_response E
           (OkResponse "load_model"
              [ ("model_id", PStr (LoadModelRequest.model_id request));
                ("precision", PStr (Precision_str (LoadModelRequest.precision request)));
                ("attention", PStr (Attention_str (LoadModelRequest.attention request))) ])
     | UnloadModel =>
         unload ;;
         write_response E (OkResponse "unload_model" [])
     | Transcribe request =>
         result <- transcribe E request ;;
         write_response E result
     | Status =>
         st <- status ;;
         write_response E
           (StatusResponse (StatusDict.loaded_model st) (StatusDict.model_path st)
                           (StatusDict.precision st) (StatusDict.attention st))
     | Shutdown =>
         unload ;;
         write_response E (OkResponse "shutdown" []) ;;
         sys_exit 0
     end)
    (command_handler E).

(** [str.isspace] on the code points below 256. *)
Definition is_space (c : ascii) : bool :=
  let n := nat_of_ascii c in
  ((9 <=? n) && (n <=? 13) || (28 <=? n) && (n <=? 32) || (n =? 133) || (n =? 160))%nat.

Fixpoint lstrip (cs : list ascii) : list ascii :=
  match cs with
  | c :: rest => if is_space c then lstrip rest else cs
  | [] => []
  end.

(** [s.strip()] *)
Definition strip (s : string) : string :=
  string_of_list_ascii (rev (lstrip (rev (lstrip (list_ascii_of_string s))))).

(** What the read loop meets while it waits for input: a line, or an
    interrupt or termination signal. *)
Inductive Input : Type :=
| Line (raw_line : string)
| Signal (signum : Z).

Definition _graceful_shutdown (signum : Z) : M unit := sys_exit 0.

(** The [try] of the loop body: the decoded command, or [None] after an
    error response was written ([continue]). *)
Definition decode (E : Env) (line : string) : M (option CommandRequest) :=
  try_except
    (payload <- lift (orjson_loads E line) ;;
     command <- lift (parse_command E payload) ;;
     ret (Some command))
    (fun exc =>
       match exn_class exc with
       | ValidationError =>
           Some (write_response E
                   (ErrorResponse "validation_error" "Invalid payload"
                                  (Some [("errors", PList (exn_errors exc))])) ;;
                 ret None)
       | _ =>
           Some (write_response E (ErrorResponse "parse_error" (exn_msg exc) None) ;;
                 ret None)
       end).

(** The body of the [for] loop for one line; [continue] is its return. *)
Definition process_line (E : Env) (raw_line : string) : M unit :=
  let line := strip raw_line in
  if String.eqb line "" then ret tt
  else
    decoded <- decode E line ;;
    match decoded with
    | None => ret tt
    | Some command => handle_command E command
    end.

Fixpoint event_loop (E : Env) (inputs : list Input) : M unit :=
  match inputs with
  | [] => ret tt
  | Signal signum :: _ => _graceful_shutdown signum
  | Line raw_line :: rest => process_line E raw_line ;; event_loop E rest
  end.

(** [run]: a fresh manager, the loop, and the final [except] clauses:
    [SystemExit] is passed over and the process ends normally, any other
    exception is raised again. *)
Definition run (E : Env) (inputs : list Input) : Result unit * State :=
  match event_loop E inputs initial with
  | (Exit _, s) => (Val tt, s)
  | other => other
  end.

(** ** A concrete environment

    One world to run the program in: a compact JSON printer standing for
    [orjson.dumps], a decoder that knows the lines used below, strict
    pydantic coercions, a small filesystem and two models, a sound one
    and one whose methods all raise. *)
Module Demo.

Definition dq : string := String (ascii_of_nat 34) EmptyString.

(** An integer in decimal. *)
Definition decimal (z : Z) : string := NilZero.string_of_int (Z.to_int z).

Definition hex_digit (n : nat) : ascii :=
  nth n (list_ascii_of_string "0123456789abcdef") "0"%char.

(** One character of a JSON string: quotes, backslashes and control
    characters escaped. *)
Definition escape_char (c : ascii) : string :=
  let n := nat_of_ascii c in
  if (n =? 10)%nat then "\n"
  else if (n =? 13)%nat then "\r"
  else if (n =? 9)%nat then "\t"
  else if (n <? 32)%nat then
    "\u00" ++ String (hex_digit (n / 16)) (String (hex_digit (n mod 16)) EmptyString)
  else if ((n =? 34) || (n =? 92))%nat then String (ascii_of_nat 92) (String c EmptyString)
  else String c EmptyString.

Fixpoint escape (s : string) : string :=
  match s with
  | EmptyString => EmptyString
  | String c rest => escape_char c ++ escape rest
  end.

Definition json_string (s : string) : string := dq ++ escape s ++ dq.

Fixpoint zeros (k : nat) : string :=
  match k with
  | O => EmptyString
  | S k' => String "0" (zeros k')
  end.

(** The [k] decimals of [frac / 2^k]. *)
Definition decimals (frac : Z) (k : nat) : string :=
  let digits := decimal (frac * 5 ^ Z.of_nat k)%Z in
  zeros (k - String.length digits) ++ digits.

(** A float in decimal, exactly; NaN and the infinities become [null]. *)
Definition json_float (f : float) : string :=
  match Prim2SF f with
  | S754_zero false => "0.0"
  | S754_zero true => "-0.0"
  | S754_infinity _ | S754_nan => "null"
  | S754_finite sign m e =>
      let sgn := if sign then "-" else "" in
      if (0 <=? e)%Z then sgn ++ decimal (Z.pos m * 2 ^ e)%Z ++ ".0"
      else
        sgn ++ decimal (Z.pos m / 2 ^ (- e))%Z ++ "."
            ++ decimals (Z.pos m mod 2 ^ (- e))%Z (Z.to_nat (- e))
  end.

Fixpoint join_comma (parts : list (option string)) : option string :=
  match parts with
  | [] => Some EmptyString
  | [part] => part
  | part :: rest =>
      match part, join_comma rest with
      | Some a, Some b => Some (a ++ "," ++ b)
      | _, _ => None
      end
  end.

Definition wrap (opening closing : string) (body : option string) : option string :=
  match body with
  | Some text => Some (opening ++ text ++ closing)
  | None => None
  end.

Definition member (key : string) (value : option string) : option string :=
  match value with
  | Some text => Some (json_string key ++ ":" ++ text)
  | None => None
  end.

(** Compact JSON; an object is not serialisable. *)
Fixpoint json (v : PyVal) : option string :=
  match v with
  | PNone => Some "null"
  | PBool true => Some "true"
  | PBool false => Some "false"
  | PInt z => Some (decimal z)
  | PFloat f => Some (json_float f)
  | PStr s => Some (json_string s)
  | PList xs | PTuple xs => wrap "[" "]" (join_comma (List.map json xs))
  | PDict kvs =>
      wrap "{" "}" (join_comma (List.map (fun kv => member (fst kv) (json (snd kv))) kvs))
  | PObj _ _ => None
  end.

Definition dumps_json (v : PyVal) : Outcome string :=
  match json v with
  | Some text => Ok text
  | None => Raise (exn TypeError "Type is not JSON serializable")
  end.

(** The payloads of the lines the decoder knows. *)
Definition load_payload : PyVal :=
  PDict [("type", PStr "load_model"); ("model_id", PStr "parakeet")].
Definition status_payload : PyVal := PDict [("type", PStr "status")].
Definition unload_payload : PyVal := PDict [("type", PStr "unload_model")].
Definition shutdown_payload : PyVal := PDict [("type", PStr "shutdown")].

Definition known_payloads : list PyVal :=
  [load_payload; status_payload; unload_payload; shutdown_payload].

Definition line_of (v : PyVal) : string := default "" (json v).

Fixpoint lookup_line (line : string) (vs : list PyVal) : option PyVal :=
  match vs with
  | [] => None
  | v :: rest => if String.eqb (line_of v) line then Some v else lookup_line line rest
  end.

Definition loads_known (line : string) : Outcome PyVal :=
  match lookup_line line known_payloads with
  | Some v => Ok v
  | None => Raise (exn ValueError "unexpected character: line 1 column 1 (char 0)")
  end.

Definition str_of (v : PyVal) : string :=
  match v with
  | PNone => "None"
  | PBool true => "True"
  | PBool false => "False"
  | PInt z => decimal z
  | PStr s => s
  | _ => "<" ++ type_name v ++ ">"
  end.

Definition strict_str (v : PyVal) : option string :=
  match v with PStr s => Some s | _ => None end.
Definition strict_int (v : PyVal) : option Z :=
  match v with PInt z => Some z | _ => None end.
Definition lax_float (v : PyVal) : option float :=
  match v with
  | PFloat f => Some f
  | PInt z => Some (SF2Prim (binary_normalize prec emax z 0 false))
  | _ => None
  end.
Definition strict_bool (v : PyVal) : option bool :=
  match v with PBool b => Some b | _ => None end.

Definition validation_error (cls : string) (input : PyVal) : Exn :=
  mkExn ValidationError ("validation error for " ++ cls)
        [PDict [("type", PStr "invalid"); ("input", input)]].

Definition signature : gset string :=
  {[ "path"; "chunk_duration"; "overlap_duration"; "attention";
     "local_attention_context" ]}.

Definition raw_result : PyVal :=
  PObj true
    [ ("text", PStr "hello world");
      ("sentences",
       PList [ PObj true
                 [ ("text", PStr "hello world");
                   ("start", PFloat 0%float);
                   ("end", PFloat 1.5%float);
                   ("tokens", PList [ PObj true [ ("text", PStr "hello");
                                                  ("start", PFloat 0%float);
                                                  ("end", PFloat 0.5%float);
                                                  ("duration", PFloat 0.5%float) ] ]) ] ]) ].

(** A model with [to_bf16], [close] and an attention setter. *)
Definition sound : Model :=
  {| model_method := fun name =>
       if String.eqb name "to_bf16" || String.eqb name "close" then Some (Ok tt) else None;
     set_attention_model := Some (fun _ _ => Ok tt);
     transcribe_signature := Ok signature;
     model_transcribe := fun _ _ => Ok raw_result |}.

(** A model whose attention setter raises. *)
Definition deaf : Model :=
  {| model_method := model_method sound;
     set_attention_model :=
       Some (fun _ _ => Raise (exn ValueError "unknown attention model"));
     transcribe_signature := Ok signature;
     model_transcribe := fun _ _ => Ok raw_result |}.

(** A model whose precision method raises. *)
Definition fragile : Model :=
  {| model_method := fun name =>
       if String.eqb name "to_bf16"
       then Some (Raise (exn RuntimeError "bfloat16 is not supported"))
       else None;
     set_attention_model := Some (fun _ _ => Ok tt);
     transcribe_signature := Ok signature;
     model_transcribe := fun _ _ => Ok raw_result |}.

(** A model whose [close] raises. *)
Definition sticky : Model :=
  {| model_method := fun name =>
       if String.eqb name "close" then Some (Raise (exn RuntimeError "device busy"))
       else None;
     set_attention_model := Some (fun _ _ => Ok tt);
     transcribe_signature := Ok signature;
     model_transcribe := fun _ _ => Ok raw_result |}.

(** A handle without a [transcribe] attribute: reading it raises
    [AttributeError]. *)
Definition mute : Model :=
  {| model_method := model_method sound;
     set_attention_model := Some (fun _ _ => Ok tt);
     transcribe_signature :=
       Raise (exn OtherException "'Model' object has no attribute 'transcribe'");
     model_transcribe := fun _ _ =>
       Raise (exn OtherException "'Model' object has no attribute 'transcribe'") |}.

Definition files : list string :=
  ["/models/parakeet"; "/models/deaf"; "/models/fragile"; "/models/sticky";
   "/models/mute"; "/cache/parakeet"; "/audio/hello.wav"].

Definition env : Env :=
  {| path_exists := fun p => existsb (fun f => Path.eqb p (Path.of_string f)) files;
     snapshot_download := fun repo_id _ => Ok ("/cache/" ++ repo_id);
     from_pretrained := fun p =>
       if Path.eqb p (Path.of_string "/models/deaf") then Ok deaf
       else if Path.eqb p (Path.of_string "/models/fragile") then Ok fragile
       else if Path.eqb p (Path.of_string "/models/sticky") then Ok sticky
       else if Path.eqb p (Path.of_string "/models/mute") then Ok mute
       else Ok sound;
     orjson_loads := loads_known;
     orjson_dumps := dumps_json;
     py_str := str_of;
     as_str := strict_str;
     as_int := strict_int;
     as_float := lax_float;
     as_bool := strict_bool;
     pydantic_error := validation_error |}.

(** The request the decoder builds from [load_payload]. *)
Definition request : LoadModelRequest.t :=
  {| LoadModelRequest.model_id := "parakeet";
     LoadModelRequest.local_path := None;
     LoadModelRequest.cache_dir := None;
     LoadModelRequest.precision := bf16;
     LoadModelRequest.attention := full;
     LoadModelRequest.local_attention_context := 256;
     LoadModelRequest.chunk_duration := Some 120%float;
     LoadModelRequest.overlap_duration := Some 15%float;
     LoadModelRequest.eager_unload := false |}.

(** The same request with another precision, attention and local path. *)
Definition request_with (precision : Precision) (attention : Attention)
    (local_path : option string) : LoadModelRequest.t :=
  {| LoadModelRequest.model_id := "parakeet";
     LoadModelRequest.local_path := local_path;
     LoadModelRequest.cache_dir := None;
     LoadModelRequest.precision := precision;
     LoadModelRequest.attention := attention;
     LoadModelRequest.local_attention_context := 256;
     LoadModelRequest.chunk_duration := Some 120%float;
     LoadModelRequest.overlap_duration := Some 15%float;
     LoadModelRequest.eager_unload := false |}.

(** The state [request] leaves in the slot, and the manager holding it. *)
Definition loaded_model : LoadedModel.t :=
  new_state request (Path.of_string "/cache/parakeet") sound signature.

Definition loaded : State := {| current := Some loaded_model; trace := [] |}.

(** The manager right after [request] was served on an empty slot. *)
Definition after_load : State :=
  {| current := Some loaded_model;
     trace := [ EvDownload "parakeet" None;
                EvFromPretrained (Path.of_string "/cache/parakeet");
                EvMethod "to_bf16";
                EvSetAttention "rel_pos" None ] |}.


(** The same with a language, a chunk duration and a local attention
    context. *)
Definition transcribe_request_with (language : option string)
    (chunk_duration : option float) (context : option Z) : TranscribeRequest.t :=
  {| TranscribeRequest.audio_path := "/audio/hello.wav";
     TranscribeRequest.language := language;
     TranscribeRequest.translate_to_english := false;
     TranscribeRequest.prompt := None;
     TranscribeRequest.use_word_timestamps := true;
     TranscribeRequest.chunk_duration := chunk_duration;
     TranscribeRequest.overlap_duration := None;
     TranscribeRequest.attention := None;
     TranscribeRequest.local_attention_context := context |}.

(** The manager holding a model from [path]. *)
Definition holding (path : string) (model : Model) : State :=
  {| current := Some (new_state (request_with bf16 full (Some path))
                                (Path.of_string path) model signature);
     trace := [] |}.

(** A short session: a load, a blank line, a line that is not JSON and a
    status query. *)
Definition session : list Input :=
  [ Line (line_of load_payload); Line "   "; Line "not json";
    Line (line_of status_payload) ].

End Demo.

(** ** Vocabulary for the statements *)

(** [R] relates the state before to the state after, however the
    computation ends. *)
Definition preserves (R : State -> State -> Prop) {A : Type} (m : M A) : Prop :=
  forall s r s', m s = (r, s') -> R s s'.

(** The trace only grows, by events that satisfy [P]. *)
Definition grows (P : Event -> Prop) (s s' : State) : Prop :=
  exists evs, trace s' = (trace s ++ evs)%list /\ Forall P evs.

(** The slot is left alone. *)
Definition same_slot (s s' : State) : Prop := current s' = current s.

(** A computation that never ends in [SystemExit]. *)
Definition no_exit {A : Type} (m : M A) : Prop :=
  forall s r s', m s = (r, s') -> forall n, r <> Exit n.

(** The value a key is last given in a list of entries, [None] entries
    left out. *)
Fixpoint last_value (l : list (string * option PyVal)) (k : string) : option PyVal :=
  match l with
  | [] => None
  | (key, v) :: rest =>
      match last_value rest k with
      | Some x => Some x
      | None => if String.eqb key k then v else None
      end
  end.

(** Kinds of events. *)
Definition is_stdout (ev : Event) : Prop :=
  match ev with EvStdout _ => True | _ => False end.

Definition silent (ev : Event) : Prop := ~ is_stdout ev.

Definition is_invocation (ev : Event) : Prop :=
  match ev with EvTranscribe _ _ => True | _ => False end.

(** The number of line ends in a text, and in what a trace wrote to
    standard output. *)
Fixpoint count_newlines (s : string) : nat :=
  match s with
  | EmptyString => 0%nat
  | String c rest =>
      ((if Ascii.eqb c (ascii_of_nat 10) then 1 else 0) + count_newlines rest)%nat
  end.

Fixpoint lines_written (t : list Event) : nat :=
  match t with
  | [] => 0%nat
  | EvStdout bytes :: rest => (count_newlines bytes + lines_written rest)%nat
  | _ :: rest => lines_written rest
  end.

(** What [write_response] puts on standard output for a response: its
    serialisation, or the one of the fixed error when that raises. *)
Definition payload_of (E : Env) (response : Response) : Outcome string :=
  match orjson_dumps E (model_dump response) with
  | Ok payload => Ok payload
  | Raise _ => orjson_dumps E (model_dump serialisation_error)
  end.

(** The two facts about [orjson.dumps] the line discipline rests on: the
    fixed error response serialises, and a serialisation holds no line
    end (orjson writes compact JSON and escapes control characters). *)
Record codec_ok (E : Env) : Prop := {
  fallback_serialises :
    exists payload, orjson_dumps E (model_dump serialisation_error) = Ok payload;
  single_line :
    forall v payload, orjson_dumps E v = Ok payload -> count_newlines payload = 0%nat
}.

(** Running [m] from [s] answers with [response] and does nothing
    else: it returns, the slot is left alone and the one new event is the
    line written to standard output.  The line holds [payload_of]: the
    serialisation of [response], or of the fixed error response when
    [response] cannot be serialised. *)
Definition answers (E : Env) (response : Response) (m : M unit) (s : State) : Prop :=
  exists payload,
    payload_of E response = Ok payload
    /\ m s = (Val tt,
              {| current := current s;
                 trace := (trace s ++ [EvStdout (payload ++ newline)])%list |}).

Definition is_some {A : Type} (o : option A) : bool :=
  match o with Some _ => true | None => false end.

(** Whether a raw value carries a field (a key of a mapping, an
    attribute of an object). *)
Definition has_field (v : PyVal) (name : string) : bool :=
  match v with
  | PDict d => is_some (assoc name d)
  | PObj _ attrs => is_some (assoc name attrs)
  | _ => false
  end.

(** The collection the normaliser loops over. *)
Definition raw_segments (result : PyVal) : PyVal :=
  py_or (snd (extract result)) (PList []).

(** The schema of [SegmentPayload] accepts what a raw segment offers for
    [text], [start] and [end]. *)
Definition segment_accepted (E : Env) (segment : PyVal) : bool :=
  match segment_fields segment with
  | (seg_text, start, end_, _) =>
      is_some (as_str E seg_text)
      && is_some (validate_optional (as_float E) start)
      && is_some (validate_optional (as_float E) end_)
  end.

(** The segment payload made of defaults only. *)
Definition empty_segment : SegmentPayload.t :=
  {| SegmentPayload.text := ""; SegmentPayload.start := None;
     SegmentPayload.end_ := None; SegmentPayload.tokens := None |}.

(** How configuring the precision ends: the outcome of the first
    method of the list that the model has, if it has one. *)
Fixpoint first_method_outcome (model : Model) (names : list string) : Outcome unit :=
  match names with
  | [] => Ok tt
  | name :: rest =>
      match model_method model name with
      | Some outcome => outcome
      | None => first_method_outcome model rest
      end
  end.

Definition precision_outcome (model : Model) (precision : Precision) : Outcome unit :=
  first_method_outcome model (method_map precision).

(** The error response [handle_command] writes for an exception, clause
    by clause of its [except] chain. *)
Definition error_response_for (exc : Exn) : Response :=
  match exn_class exc with
  | FileNotFoundError => ErrorResponse "file_not_found" (exn_msg exc) None
  | ValidationError =>
      ErrorResponse "validation_error" "Invalid command payload"
                    (Some [("errors", PList (exn_errors exc))])
  | RuntimeError => ErrorResponse "runtime_error" (exn_msg exc) None
  | _ => ErrorResponse "internal_error" (exn_msg exc) None
  end.

Definition is_error (response : Response) : Prop :=
  match response with
  | ErrorResponse _ _ _ => True
  | _ => False
  end.

(** A computation that writes exactly one line to standard output and
    ends without an exception. *)
Definition one_line (m : M unit) : Prop :=
  forall s r s',
    m s = (r, s') ->
    (r = Val tt \/ exists n, r = Exit n)
    /\ lines_written (trace s') = S (lines_written (trace s)).

(** A line that [strip] empties. *)
Definition is_blank (raw_line : string) : bool := String.eqb (strip raw_line) "".

(** The lines of the input that are not blank. *)
Fixpoint nonblank_lines (inputs : list Input) : nat :=
  match inputs with
  | [] => 0%nat
  | Line raw_line :: rest =>
      ((if is_blank raw_line then 0 else 1) + nonblank_lines rest)%nat
  | Signal _ :: rest => nonblank_lines rest
  end.

(** The reuse policy as the specification words it, an empty
    [local_path] counting as none. *)
Definition reuse_condition (cur : option LoadedModel.t) (request : LoadModelRequest.t)
    : Prop :=
  exists c,
    cur = Some c
    /\ LoadModelRequest.eager_unload request = false
    /\ LoadedModel.model_id c = LoadModelRequest.model_id request
    /\ (LoadModelRequest.local_path request = None
        \/ LoadModelRequest.local_path request = Some ""
        \/ exists p, LoadModelRequest.local_path request = Some p
                     /\ Path.of_string p = LoadedModel.model_path c).

(** The discriminant of a command: the value of its [type] field. *)
Definition command_name (command : CommandRequest) : string :=
  match command with
  | LoadModel _ => "load_model"
  | UnloadModel => "unload_model"
  | Transcribe _ => "transcribe"
  | Status => "status"
  | Shutdown => "shutdown"
  end.

(** One of the five discriminants. *)
Definition known_type (msg_type : PyVal) : bool :=
  is_str msg_type "load_model" || is_str msg_type "unload_model"
  || is_str msg_type "transcribe" || is_str msg_type "status"
  || is_str msg_type "shutdown".

(** ** A second concrete environment

    The environment of [Demo] with a decoder that knows more lines:
    payloads without a [type], with an unknown one, with a context that
    is not positive, a transcribe command, and an array. *)
Module Lab.

Definition typeless_payload : PyVal := PDict [("model_id", PStr "parakeet")].

Definition unknown_payload : PyVal := PDict [("type", PStr "reload")].

Definition bad_context_payload : PyVal :=
  PDict [ ("type", PStr "load_model"); ("model_id", PStr "parakeet");
          ("local_attention_context", PInt 0) ].

Definition missing_path_payload : PyVal :=
  PDict [ ("type", PStr "load_model"); ("model_id", PStr "parakeet");
          ("local_path", PStr "/models/missing") ].

Definition transcribe_payload : PyVal :=
  PDict [ ("type", PStr "transcribe"); ("audio_path", PStr "/audio/hello.wav") ].

Definition empty_audio_payload : PyVal :=
  PDict [ ("type", PStr "transcribe"); ("audio_path", PStr "") ].

Definition array_payload : PyVal := PList [PStr "type"; PStr "status"].

Definition known_payloads : list PyVal :=
  (Demo.known_payloads
   ++ [ typeless_payload; unknown_payload; bad_context_payload; missing_path_payload;
        transcribe_payload; empty_audio_payload; array_payload ])%list.

Definition loads_known (line : string) : Outcome PyVal :=
  match Demo.lookup_line line known_payloads with
  | Some v => Ok v
  | None => Raise (exn ValueError "unexpected character: line 1 column 1 (char 0)")
  end.

(** Whether the input fails one of the two validators of the class:
    a context that is not positive, an empty audio path. *)
Definition fails_validator (cls : string) (input : PyVal) : bool :=
  match input with
  | PDict fields =>
      if String.eqb cls "LoadModelRequest" then
        match assoc "local_attention_context" fields with
        | Some (PInt z) => Z.leb z 0
        | _ => false
        end
      else if String.eqb cls "TranscribeRequest" then
        match assoc "audio_path" fields with
        | Some (PStr text) => String.eqb text ""
        | _ => false
        end
      else false
  | _ => false
  end.

(** pydantic's error for a rejected input.  When a validator of the
    class raised, the entry of [errors()] carries the [ValueError]
    itself under [ctx], an object and not plain data. *)
Definition validation_error (cls : string) (input : PyVal) : Exn :=
  if fails_validator cls input then
    mkExn ValidationError ("validation error for " ++ cls)
          [PDict [ ("type", PStr "value_error"); ("input", input);
                   ("ctx", PDict [("error", PObj true [])]) ]]
  else Demo.validation_error cls input.

Definition env : Env :=
  {| path_exists := path_exists Demo.env;
     snapshot_download := snapshot_download Demo.env;
     from_pretrained := from_pretrained Demo.env;
     orjson_loads := loads_known;
     orjson_dumps := Demo.dumps_json;
     py_str := Demo.str_of;
     as_str := Demo.strict_str;
     as_int := Demo.strict_int;
     as_float := Demo.lax_float;
     as_bool := Demo.strict_bool;
     pydantic_error := validation_error |}.

End Lab.

(** The request a [load_model] payload yields when it gives nothing but
    the identifier. *)
Definition default_load_request (model_id : string) : LoadModelRequest.t :=
  {| LoadModelRequest.model_id := model_id;
     LoadModelRequest.local_path := None;
     LoadModelRequest.cache_dir := None;
     LoadModelRequest.precision := bf16;
     LoadModelRequest.attention := full;
     LoadModelRequest.local_attention_context := 256;
     LoadModelRequest.chunk_duration := Some 120%float;
     LoadModelRequest.overlap_duration := Some 15%float;
     LoadModelRequest.eager_unload := false |}.

(** The request a [transcribe] payload yields when it gives nothing but
    the audio path. *)
Definition default_transcribe_request (audio_path : string) : TranscribeRequest.t :=
  {| TranscribeRequest.audio_path := audio_path;
     TranscribeRequest.language := None;
     TranscribeRequest.translate_to_english := false;
     TranscribeRequest.prompt := None;
     TranscribeRequest.use_word_timestamps := true;
     TranscribeRequest.chunk_duration := None;
     TranscribeRequest.overlap_duration := None;
     TranscribeRequest.attention := None;
     TranscribeRequest.local_attention_context := None |}.

(** No key of [names] is bound in [fields]. *)
Definition all_absent (fields : list (string * PyVal)) (names : list string) : Prop :=
  Forall (fun name => assoc name fields = None) names.

(** The directory a download of [request] is told to use. *)
Definition download_dir (request : LoadModelRequest.t) : option Path.t :=
  if opt_str_truthy (LoadModelRequest.cache_dir request)
  then Some (Path.of_string (default "" (LoadModelRequest.cache_dir request)))
  else None.

(** What a load of [request] may do to the outside: download the
    requested repository when no local path is given, instantiate the
    model (from the local path when one is given), call a precision
    method of the requested precision, set the requested attention. *)
Definition load_event (request : LoadModelRequest.t) (ev : Event) : Prop :=
  match ev with
  | EvDownload repo_id local_dir =>
      opt_str_truthy (LoadModelRequest.local_path request) = false
      /\ repo_id = LoadModelRequest.model_id request
      /\ local_dir = download_dir request
  | EvFromPretrained model_path =>
      opt_str_truthy (LoadModelRequest.local_path request) = true ->
      model_path = Path.of_string (default "" (LoadModelRequest.local_path request))
  | EvMethod name => In name (method_map (LoadModelRequest.precision request))
  | EvSetAttention kind context =>
      match LoadModelRequest.attention request with
      | local =>
          kind = "rel_pos_local_attn"
          /\ context = Some (LoadModelRequest.local_attention_context request,
                             LoadModelRequest.local_attention_context request)
      | full => kind = "rel_pos" /\ context = None
      end
  | EvTranscribe _ _ | EvStdout _ => False
  end.

Definition is_download (ev : Event) : Prop :=
  match ev with EvDownload _ _ => True | _ => False end.

(** The state after [evs] happened. *)
Definition after (s : State) (evs : list Event) : State :=
  {| current := current s; trace := (trace s ++ evs)%list |}.

(** The precision method [_configure_precision] calls: the first of the
    list that the model has. *)
Fixpoint first_available (model : Model) (names : list string) : option string :=
  match names with
  | [] => None
  | name :: rest =>
      match model_method model name with
      | Some _ => Some name
      | None => first_available model rest
      end
  end.




(** What the loop makes of a line: the command, or the exception of the
    JSON decoder or of [parse_command]. *)
Definition decoded (E : Env) (line : string) : Outcome CommandRequest :=
  match orjson_loads E line with
  | Raise e => Raise e
  | Ok payload => parse_command E payload
  end.

(** The error response the loop writes for an exception of the decoding,
    clause by clause of its [except] chain. *)
Definition decode_error_response (exc : Exn) : Response :=
  match exn_class exc with
  | ValidationError =>
      ErrorResponse "validation_error" "Invalid payload"
                    (Some [("errors", PList (exn_errors exc))])
  | _ => ErrorResponse "parse_error" (exn_msg exc) None
  end.

(** pydantic hands back unchanged a value that already has the type of
    the field. *)
Record typed_values_pass (E : Env) : Prop := {
  str_passes : forall s, as_str E (PStr s) = Some s;
  float_passes : forall f, as_float E (PFloat f) = Some f
}.

(** What the normaliser makes of [Demo.raw_result]. *)
Definition demo_normalised : Normalised.t :=
  {| Normalised.text := PStr "hello world";
     Normalised.segments :=
       [ PDict [ ("text", PStr "hello world"); ("start", PFloat 0%float);
                 ("end", PFloat 1.5%float);
                 ("tokens",
                  PList [ PDict [ ("text", PStr "hello"); ("start", PFloat 0%float);
                                  ("end", PFloat 0.5%float);
                                  ("duration", PFloat 0.5%float) ] ]) ] ];
     Normalised.language := PNone;
     Normalised.duration := PNone |}.

(** What holds of the slot in every state the loop can reach: the
    signature of the instance's [transcribe] can be inspected and the
    capability set holds its parameter names, and the default chunk and
    overlap durations are not zero. *)
Definition slot_consistent (s : State) : Prop :=
  match current s with
  | None => True
  | Some c =>
      transcribe_signature (LoadedModel.instance c) = Ok (LoadedModel.transcribe_params c)
      /\ float_truthy (LoadedModel.chunk_duration c) = true
      /\ float_truthy (LoadedModel.overlap_duration c) = true
  end.

(** A text without a slash. *)
Fixpoint no_slash (s : string) : bool :=
  match s with
  | EmptyString => true
  | String c rest => negb (Ascii.eqb c "/") && no_slash rest
  end.

(** A component as [Path] keeps them: not empty, not ["."], no slash. *)
Definition is_part (p : string) : bool := Path.keep_part p && no_slash p.

(** [Demo.request] with [eager_unload] set. *)
Definition eager_request : LoadModelRequest.t :=
  {| LoadModelRequest.model_id := "parakeet";
     LoadModelRequest.local_path := None;
     LoadModelRequest.cache_dir := None;
     LoadModelRequest.precision := bf16;
     LoadModelRequest.attention := full;
     LoadModelRequest.local_attention_context := 256;
     LoadModelRequest.chunk_duration := Some 120%float;
     LoadModelRequest.overlap_duration := Some 15%float;
     LoadModelRequest.eager_unload := true |}.

(** The state after one line was written to standard output. *)
Definition written (s : State) (payload : string) : State :=
  {| current := current s;
     trace := (trace s ++ [EvStdout (payload ++ newline)])%list |}.

(** The loop answers the line with [response] and goes on: processing
    the line returns after writing one line to standard output, the
    serialisation [payload_of] gives for [response] (its own, or the one
    of the fixed error response when it cannot be serialised); the slot
    is left alone, nothing else happens, and the loop reads on from
    there. *)
Definition line_answered (E : Env) (response : Response) (raw_line : string) (s : State)
    : Prop :=
  exists payload,
    payload_of E response = Ok payload
    /\ process_line E raw_line s = (Val tt, written s payload)
    /\ forall rest,
         event_loop E (Line raw_line :: rest) s = event_loop E rest (written s payload).

(** * Properties *)

(** ** Paths and small facts about values *)

Lemma Path_eqb_eq (p q : Path.t) : Path.eqb p q = true <-> p = q.
Proof.
  destruct p as [r1 ps1], q as [r2 ps2]. unfold Path.eqb. simpl.
  rewrite andb_true_iff, String.eqb_eq, bool_decide_eq_true.
  split.
  - intros [-> ->]. reflexivity.
  - intros H. inversion H. split; reflexivity.
Qed.

Lemma Path_eqb_refl (p : Path.t) : Path.eqb p p = true.
Proof. apply Path_eqb_eq. reflexivity. Qed.

Lemma opt_str_truthy_false (o : option string) :
  opt_str_truthy o = false <-> o = None \/ o = Some "".
Proof.
  destruct o as [s|]; simpl.
  - rewrite negb_false_iff, String.eqb_eq. split.
    + intros ->. right. reflexivity.
    + intros [H|H]; [discriminate | congruence].
  - split; [intros _; left; reflexivity | reflexivity].
Qed.

(** ** Reasoning about computations *)

Lemma bind_Val {A B : Type} (m : M A) (k : A -> M B) s a s1 :
  m s = (Val a, s1) -> bind m k s = k a s1.
Proof. intros H. unfold bind. rewrite H. reflexivity. Qed.

Lemma bind_Exc {A B : Type} (m : M A) (k : A -> M B) s e s1 :
  m s = (Exc e, s1) -> bind m k s = (Exc e, s1).
Proof. intros H. unfold bind. rewrite H. reflexivity. Qed.

Lemma bind_Exit {A B : Type} (m : M A) (k : A -> M B) s n s1 :
  m s = (Exit n, s1) -> bind m k s = (Exit n, s1).
Proof. intros H. unfold bind. rewrite H. reflexivity. Qed.

(** The combinators respect any reflexive and transitive relation that
    their parts respect. *)
Section Preserves.

Variable R : State -> State -> Prop.
Hypothesis R_refl : forall s, R s s.
Hypothesis R_trans : forall s1 s2 s3, R s1 s2 -> R s2 s3 -> R s1 s3.

Lemma preserves_ret {A : Type} (a : A) : preserves R (ret a).
Proof. intros s r s' H. inversion H. apply R_refl. Qed.

Lemma preserves_raise {A : Type} (e : Exn) : preserves R (@raise A e).
Proof. intros s r s' H. inversion H. apply R_refl. Qed.

Lemma preserves_sys_exit {A : Type} (n : Z) : preserves R (@sys_exit A n).
Proof. intros s r s' H. inversion H. apply R_refl. Qed.

Lemma preserves_lift {A : Type} (o : Outcome A) : preserves R (lift o).
Proof. intros s r s' H. destruct o; inversion H; apply R_refl. Qed.

Lemma preserves_get_current : preserves R get_current.
Proof. intros s r s' H. inversion H. apply R_refl. Qed.

Lemma preserves_bind {A B : Type} (m : M A) (k : A -> M B) :
  preserves R m -> (forall a, preserves R (k a)) -> preserves R (bind m k).
Proof.
  intros Hm Hk s r s' H. unfold bind in H.
  destruct (m s) as [[a|e|n] s1] eqn:Em.
  - eapply R_trans; [eapply Hm, Em | eapply Hk, H].
  - inversion H; subst. eapply Hm, Em.
  - inversion H; subst. eapply Hm, Em.
Qed.

Lemma preserves_try_except {A : Type} (body : M A) (handler : Exn -> option (M A)) :
  preserves R body ->
  (forall e h, handler e = Some h -> preserves R h) ->
  preserves R (try_except body handler).
Proof.
  intros Hb Hh s r s' H. unfold try_except in H.
  destruct (body s) as [[a|e|n] s1] eqn:Eb.
  - inversion H; subst. eapply Hb, Eb.
  - destruct (handler e) as [h|] eqn:Eh.
    + eapply R_trans; [eapply Hb, Eb | eapply Hh; [exact Eh | exact H]].
    + inversion H; subst. eapply Hb, Eb.
  - inversion H; subst. eapply Hb, Eb.
Qed.

Lemma preserves_try_finally {A : Type} (body : M A) (final : M unit) :
  preserves R body -> preserves R final -> preserves R (try_finally body final).
Proof.
  intros Hb Hf s r s' H. unfold try_finally in H.
  destruct (body s) as [rb s1] eqn:Eb.
  destruct (final s1) as [[[]|e|n] s2] eqn:Ef; inversion H; subst;
    (eapply R_trans; [eapply Hb, Eb | eapply Hf, Ef]).
Qed.

End Preserves.

Lemma grows_refl (P : Event -> Prop) s : grows P s s.
Proof. exists []. rewrite app_nil_r. split; [reflexivity | constructor]. Qed.

Lemma grows_trans (P : Event -> Prop) s1 s2 s3 :
  grows P s1 s2 -> grows P s2 s3 -> grows P s1 s3.
Proof.
  intros [e1 [H1 F1]] [e2 [H2 F2]]. exists (e1 ++ e2)%list. split.
  - rewrite H2, H1, app_assoc. reflexivity.
  - apply Forall_app. split; assumption.
Qed.

Lemma same_slot_refl s : same_slot s s.
Proof. reflexivity. Qed.

Lemma same_slot_trans s1 s2 s3 : same_slot s1 s2 -> same_slot s2 s3 -> same_slot s1 s3.
Proof. unfold same_slot. congruence. Qed.

Lemma grows_emit (P : Event -> Prop) (ev : Event) :
  P ev -> preserves (grows P) (emit ev).
Proof.
  intros HP s r s' H. inversion H; subst. exists [ev]. simpl.
  split; [reflexivity | repeat constructor; exact HP].
Qed.

Lemma grows_set_current (P : Event -> Prop) c : preserves (grows P) (set_current c).
Proof.
  intros s r s' H. inversion H; subst. exists []. simpl.
  rewrite app_nil_r. split; [reflexivity | constructor].
Qed.

Lemma grows_call {A : Type} (P : Event -> Prop) (ev : Event) (o : Outcome A) :
  P ev -> preserves (grows P) (call ev o).
Proof.
  intros HP. unfold call. apply preserves_bind.
  - apply grows_trans.
  - apply grows_emit, HP.
  - intros _. apply preserves_lift, grows_refl.
Qed.

Lemma same_slot_emit (ev : Event) : preserves same_slot (emit ev).
Proof. intros s r s' H. inversion H; subst. reflexivity. Qed.

Lemma same_slot_call {A : Type} (ev : Event) (o : Outcome A) :
  preserves same_slot (call ev o).
Proof.
  unfold call. apply preserves_bind.
  - apply same_slot_trans.
  - apply same_slot_emit.
  - intros _. apply preserves_lift, same_slot_refl.
Qed.

Lemma no_exit_ret {A : Type} (a : A) : no_exit (ret a).
Proof. intros s r s' H n. inversion H. discriminate. Qed.

Lemma no_exit_raise {A : Type} (e : Exn) : no_exit (@raise A e).
Proof. intros s r s' H n. inversion H. discriminate. Qed.

Lemma no_exit_lift {A : Type} (o : Outcome A) : no_exit (lift o).
Proof. intros s r s' H n. destruct o; inversion H; discriminate. Qed.

Lemma no_exit_get_current : no_exit get_current.
Proof. intros s r s' H n. inversion H. discriminate. Qed.

Lemma no_exit_set_current c : no_exit (set_current c).
Proof. intros s r s' H n. inversion H. discriminate. Qed.

Lemma no_exit_emit ev : no_exit (emit ev).
Proof. intros s r s' H n. inversion H. discriminate. Qed.

Lemma no_exit_bind {A B : Type} (m : M A) (k : A -> M B) :
  no_exit m -> (forall a, no_exit (k a)) -> no_exit (bind m k).
Proof.
  intros Hm Hk s r s' H n. unfold bind in H.
  destruct (m s) as [[a|e|n'] s1] eqn:Em.
  - eapply Hk, H.
  - inversion H. discriminate.
  - exfalso. eapply Hm; [exact Em | reflexivity].
Qed.

Lemma no_exit_call {A : Type} (ev : Event) (o : Outcome A) : no_exit (call ev o).
Proof.
  unfold call. apply no_exit_bind; [apply no_exit_emit | intros _; apply no_exit_lift].
Qed.

Lemma no_exit_try_except {A : Type} (body : M A) (handler : Exn -> option (M A)) :
  no_exit body ->
  (forall e h, handler e = Some h -> no_exit h) ->
  no_exit (try_except body handler).
Proof.
  intros Hb Hh s r s' H n. unfold try_except in H.
  destruct (body s) as [[a|e|n'] s1] eqn:Eb.
  - inversion H. discriminate.
  - destruct (handler e) as [h|] eqn:Eh.
    + eapply Hh; [exact Eh | exact H].
    + inversion H. discriminate.
  - exfalso. eapply Hb; [exact Eb | reflexivity].
Qed.

Lemma no_exit_try_finally {A : Type} (body : M A) (final : M unit) :
  no_exit body -> no_exit final -> no_exit (try_finally body final).
Proof.
  intros Hb Hf s r s' H n. unfold try_finally in H.
  destruct (body s) as [rb s1] eqn:Eb.
  destruct (final s1) as [[[]|e|n'] s2] eqn:Ef.
  - inversion H; subst. eapply Hb, Eb.
  - inversion H. discriminate.
  - exfalso. eapply Hf; [exact Ef | reflexivity].
Qed.

Ltac invert_handler :=
  match goal with
  | H : Some _ = Some _ |- _ => inversion H; subst; clear H
  | H : None = Some _ |- _ => discriminate H
  | H : match ?x with _ => _ end = Some _ |- _ => destruct x
  end.

(** One step of a proof that a computation respects a relation. *)
Ltac respects_step :=
  first
    [ assumption
    | match goal with |- silent _ => solve [auto] end
    | apply grows_refl | apply grows_trans
    | apply same_slot_refl | apply same_slot_trans
    | apply preserves_ret | apply preserves_raise | apply preserves_sys_exit
    | apply preserves_lift | apply preserves_get_current
    | apply grows_set_current | apply grows_call | apply grows_emit
    | apply same_slot_call | apply same_slot_emit
    | apply preserves_bind; [ | | intros ? ]
    | apply preserves_try_except; [ | | intros ? ? ? ]
    | apply preserves_try_finally
    | invert_handler
    | match goal with
      | |- preserves _ (match ?x with _ => _ end) => destruct x
      | |- preserves _ (if ?x then _ else _) => destruct x
      end ].

Ltac no_exit_step :=
  first
    [ assumption
    | apply no_exit_ret | apply no_exit_raise | apply no_exit_lift
    | apply no_exit_get_current | apply no_exit_set_current
    | apply no_exit_emit | apply no_exit_call
    | apply no_exit_bind; [ | intros ? ]
    | apply no_exit_try_except; [ | intros ? ? ? ]
    | apply no_exit_try_finally
    | invert_handler
    | match goal with
      | |- no_exit (match ?x with _ => _ end) => destruct x
      | |- no_exit (if ?x then _ else _) => destruct x
      end ].

(** ** The manager's operations, one by one *)

Lemma silent_EvDownload a b : silent (EvDownload a b).
Proof. intros H. exact H. Qed.
Lemma silent_EvFromPretrained p : silent (EvFromPretrained p).
Proof. intros H. exact H. Qed.
Lemma silent_EvMethod n : silent (EvMethod n).
Proof. intros H. exact H. Qed.
Lemma silent_EvSetAttention k c : silent (EvSetAttention k c).
Proof. intros H. exact H. Qed.
Lemma silent_EvTranscribe a k : silent (EvTranscribe a k).
Proof. intros H. exact H. Qed.

#[local] Hint Resolve silent_EvDownload silent_EvFromPretrained silent_EvMethod
  silent_EvSetAttention silent_EvTranscribe : core.

Lemma resolve_silent E request : preserves (grows silent) (_resolve_model_path E request).
Proof. unfold _resolve_model_path. repeat respects_step. Qed.

Lemma resolve_same_slot E request : preserves same_slot (_resolve_model_path E request).
Proof. unfold _resolve_model_path. repeat respects_step. Qed.

Lemma resolve_no_exit E request : no_exit (_resolve_model_path E request).
Proof. unfold _resolve_model_path. repeat no_exit_step. Qed.

Lemma apply_first_method_silent model names :
  preserves (grows silent) (apply_first_method model names).
Proof. induction names as [|name rest IH]; simpl; repeat respects_step. Qed.

Lemma apply_first_method_same_slot model names :
  preserves same_slot (apply_first_method model names).
Proof. induction names as [|name rest IH]; simpl; repeat respects_step. Qed.

Lemma apply_first_method_no_exit model names : no_exit (apply_first_method model names).
Proof. induction names as [|name rest IH]; simpl; repeat no_exit_step. Qed.

Lemma attention_silent model mode context :
  preserves (grows silent) (_configure_attention model mode context).
Proof. unfold _configure_attention. repeat respects_step. Qed.

Lemma attention_same_slot model mode context :
  preserves same_slot (_configure_attention model mode context).
Proof. unfold _configure_attention. repeat respects_step. Qed.

Lemma apply_first_method_result model names s :
  exists s',
    apply_first_method model names s
    = (match first_method_outcome model names with
       | Ok _ => Val tt
       | Raise e => Exc e
       end, s')
    /\ current s' = current s.
Proof.
  induction names as [|name rest IH]; simpl.
  - eexists. split; reflexivity.
  - destruct (model_method model name) as [[[]|e]|]; [| |exact IH];
      unfold call, bind, emit, lift; eexists; split; reflexivity.
Qed.

(** Configuring attention returns, whatever the setter does. *)
Lemma attention_returns model mode context s :
  exists s', _configure_attention model mode context s = (Val tt, s').
Proof.
  unfold _configure_attention, try_except, call, bind, emit, lift, ret.
  destruct mode, (set_attention_model model) as [setter|]; simpl;
    try (eexists; reflexivity);
    match goal with |- context [setter ?a ?b] => destruct (setter a b) as [[]|e] end;
    eexists; reflexivity.
Qed.

Lemma load_silent E request : preserves (grows silent) (load E request).
Proof.
  unfold load, _configure_precision.
  repeat first [ apply resolve_silent | apply apply_first_method_silent
               | apply attention_silent | respects_step ].
Qed.

Lemma load_no_exit E request : no_exit (load E request).
Proof.
  intros s r s' H n ->.
  unfold load in H. unfold bind at 1 in H. simpl in H.
  destruct (if can_reuse (current s) request then current s else None).
  - inversion H.
  - unfold bind at 1 in H.
    destruct (_resolve_model_path E request s) as [[p|e|k] s1] eqn:E1;
      [ | inversion H | exfalso; eapply resolve_no_exit; [exact E1|reflexivity] ].
    unfold bind at 1 in H. unfold call, bind, emit, lift in H.
    destruct (from_pretrained E p) as [model|e]; [ | inversion H ].
    unfold _configure_precision in H.
    match type of H with
    | context [apply_first_method ?m ?ns ?st] =>
        destruct (apply_first_method m ns st) as [[[]|e|k] s2] eqn:E2
    end; [ | inversion H | exfalso; eapply apply_first_method_no_exit; [exact E2|reflexivity] ].
    match type of H with
    | context [_configure_attention ?m ?a ?c ?st] =>
        destruct (attention_returns m a c st) as [s3 E3]; rewrite E3 in H
    end.
    destruct (transcribe_signature model); inversion H.
Qed.

Lemma unload_silent : preserves (grows silent) unload.
Proof. unfold unload. repeat respects_step. Qed.

Lemma unload_no_exit : no_exit unload.
Proof. unfold unload. repeat no_exit_step. Qed.

Lemma status_pure s : exists st, status s = (Val st, s).
Proof. unfold status, bind, get_current, ret. destruct (current s); eexists; reflexivity. Qed.

Lemma transcribe_silent E request : preserves (grows silent) (transcribe E request).
Proof. unfold transcribe. repeat respects_step. Qed.

Lemma transcribe_same_slot E request : preserves same_slot (transcribe E request).
Proof. unfold transcribe. repeat respects_step. Qed.

Lemma transcribe_no_exit E request : no_exit (transcribe E request).
Proof. unfold transcribe. repeat no_exit_step. Qed.

(** ** Loading: reuse or a fresh state *)

Lemma can_reuse_spec cur request :
  can_reuse cur request = true <-> reuse_condition cur request.
Proof.
  unfold can_reuse, reuse_condition. destruct cur as [c|].
  - rewrite !andb_true_iff, orb_true_iff, negb_true_iff, String.eqb_eq.
    split.
    + intros [[He Hid] Hp]. exists c. repeat split; try assumption.
      destruct Hp as [Hp|Hp].
      * apply negb_true_iff, opt_str_truthy_false in Hp. tauto.
      * destruct (LoadModelRequest.local_path request) as [p|]; [|discriminate].
        right. right. exists p. split; [reflexivity|].
        symmetry. apply Path_eqb_eq. exact Hp.
    + intros [c' [Hc [He [Hid Hp]]]]. inversion Hc; subst c'. clear Hc.
      repeat split; try assumption.
      destruct Hp as [Hp|[Hp|[p [Hp Heq]]]].
      * left. rewrite Hp. reflexivity.
      * left. rewrite Hp. reflexivity.
      * right. rewrite Hp, <- Heq. apply Path_eqb_refl.
  - split; [discriminate|]. intros [c [Hc _]]. discriminate.
Qed.

Lemma can_reuse_false cur request :
  can_reuse cur request = false <-> ~ reuse_condition cur request.
Proof.
  rewrite <- can_reuse_spec. destruct (can_reuse cur request); split; congruence.
Qed.

(** Under the guard the slot is returned and nothing else happens. *)
Lemma load_reuse E request s c :
  current s = Some c -> can_reuse (current s) request = true ->
  load E request s = (Val c, s).
Proof.
  intros Hc Hr. unfold load, bind, get_current. rewrite Hr, Hc. reflexivity.
Qed.

(** Past the guard: what a returning load has built, and what a failing
    one has left. *)
Lemma load_fresh_inv E request s r s' :
  can_reuse (current s) request = false ->
  load E request s = (r, s') ->
  match r with
  | Val loaded =>
      exists model evs,
        from_pretrained E (LoadedModel.model_path loaded) = Ok model
        /\ transcribe_signature model = Ok (LoadedModel.transcribe_params loaded)
        /\ loaded = new_state request (LoadedModel.model_path loaded) model
                              (LoadedModel.transcribe_params loaded)
        /\ current s' = Some loaded
        /\ trace s' = (trace s ++ evs)%list
        /\ In (EvFromPretrained (LoadedModel.model_path loaded)) evs
  | Exc _ => current s' = current s
  | Exit _ => False
  end.
Proof.
  intros Hr H. unfold load in H. unfold bind at 1 in H. simpl in H.
  rewrite Hr in H. unfold bind at 1 in H.
  destruct (_resolve_model_path E request s) as [[p|e|k] s1] eqn:E1.
  2:{ inversion H; subst. eapply resolve_same_slot, E1. }
  2:{ exfalso. eapply resolve_no_exit; [exact E1|reflexivity]. }
  pose proof (resolve_same_slot _ _ _ _ _ E1) as C1.
  destruct (resolve_silent _ _ _ _ _ E1) as [ev1 [T1 _]].
  unfold bind at 1 in H. unfold call, bind, emit, lift in H.
  destruct (from_pretrained E p) as [model|e] eqn:E2.
  2:{ inversion H; subst. simpl. exact C1. }
  unfold _configure_precision in H.
  match type of H with
  | context [apply_first_method ?m ?ns ?st] =>
      destruct (apply_first_method m ns st) as [[[]|e|k] s2] eqn:E3
  end.
  2:{ inversion H; subst. rewrite (apply_first_method_same_slot _ _ _ _ _ E3). exact C1. }
  2:{ exfalso. eapply apply_first_method_no_exit; [exact E3|reflexivity]. }
  pose proof (apply_first_method_same_slot _ _ _ _ _ E3) as C3.
  destruct (apply_first_method_silent _ _ _ _ _ E3) as [ev3 [T3 _]].
  match type of H with
  | context [_configure_attention ?m ?a ?c ?st] =>
      destruct (attention_returns m a c st) as [s3 E4]; rewrite E4 in H
  end.
  destruct (attention_silent _ _ _ _ _ _ E4) as [ev4 [T4 _]].
  pose proof (attention_same_slot _ _ _ _ _ _ E4) as C4.
  destruct (transcribe_signature model) as [params|e] eqn:E5.
  2:{ inversion H; subst. rewrite C4, C3. exact C1. }
  unfold set_current, ret in H. inversion H; subst. simpl.
  exists model, (ev1 ++ [EvFromPretrained p] ++ ev3 ++ ev4)%list.
  repeat split; try assumption; try reflexivity.
  - rewrite T4, T3. simpl. rewrite T1, <- !app_assoc. reflexivity.
  - apply in_or_app. right. left. reflexivity.
Qed.

(** Past the guard a load returns as soon as the path resolves, the
    model is instantiated, configuring the precision returns and the
    signature of [transcribe] can be inspected. *)
Lemma load_fresh_returns E request s p s1 model params :
  can_reuse (current s) request = false ->
  _resolve_model_path E request s = (Val p, s1) ->
  from_pretrained E p = Ok model ->
  precision_outcome model (LoadModelRequest.precision request) = Ok tt ->
  transcribe_signature model = Ok params ->
  exists s', load E request s = (Val (new_state request p model params), s')
             /\ current s' = Some (new_state request p model params).
Proof.
  intros Hr E1 E2 Hm Hsig. unfold load. unfold bind at 1. simpl. rewrite Hr.
  unfold bind at 1. rewrite E1. unfold bind at 1. unfold call, bind, emit, lift.
  rewrite E2. unfold _configure_precision.
  match goal with
  | |- context [apply_first_method ?m ?ns ?st] =>
      destruct (apply_first_method_result m ns st) as [s2 [E3 _]]; rewrite E3
  end.
  unfold precision_outcome in Hm. rewrite Hm.
  match goal with
  | |- context [_configure_attention ?m ?a ?c ?st] =>
      destruct (attention_returns m a c st) as [s3 E4]; rewrite E4
  end.
  rewrite Hsig. unfold set_current, ret. eexists. split; reflexivity.
Qed.

(** Past the guard an exception of the inspection of [transcribe]
    leaves [load] as it is, after the model was instantiated and
    configured, and the slot as it was. *)
Lemma load_signature_raises E request s p s1 model e :
  can_reuse (current s) request = false ->
  _resolve_model_path E request s = (Val p, s1) ->
  from_pretrained E p = Ok model ->
  precision_outcome model (LoadModelRequest.precision request) = Ok tt ->
  transcribe_signature model = Raise e ->
  exists s', load E request s = (Exc e, s') /\ current s' = current s.
Proof.
  intros Hr E1 E2 Hm Hsig. unfold load. unfold bind at 1. simpl. rewrite Hr.
  unfold bind at 1. rewrite E1. unfold bind at 1. unfold call, bind, emit, lift.
  rewrite E2. unfold _configure_precision.
  match goal with
  | |- context [apply_first_method ?m ?ns ?st] =>
      destruct (apply_first_method_result m ns st) as [s2 [E3 C3]]; rewrite E3
  end.
  unfold precision_outcome in Hm. rewrite Hm.
  match goal with
  | |- context [_configure_attention ?m ?a ?c ?st] =>
      destruct (attention_returns m a c st) as [s3 E4]; rewrite E4
  end.
  rewrite Hsig. eexists. split; [reflexivity|].
  rewrite (attention_same_slot _ _ _ _ _ _ E4), C3. simpl.
  eapply resolve_same_slot, E1.
Qed.

(** Past the guard an exception of the precision method leaves [load]
    as it is, and the slot as it was. *)
Lemma load_precision_raises E request s p s1 model e :
  can_reuse (current s) request = false ->
  _resolve_model_path E request s = (Val p, s1) ->
  from_pretrained E p = Ok model ->
  precision_outcome model (LoadModelRequest.precision request) = Raise e ->
  exists s', load E request s = (Exc e, s') /\ current s' = current s.
Proof.
  intros Hr E1 E2 Hm. unfold load. unfold bind at 1. simpl. rewrite Hr.
  unfold bind at 1. rewrite E1. unfold bind at 1. unfold call, bind, emit, lift.
  rewrite E2. unfold _configure_precision.
  match goal with
  | |- context [apply_first_method ?m ?ns ?st] =>
      destruct (apply_first_method_result m ns st) as [s2 [E3 C3]]; rewrite E3
  end.
  unfold precision_outcome in Hm. rewrite Hm.
  eexists. split; [reflexivity|]. rewrite C3. simpl.
  eapply resolve_same_slot, E1.
Qed.

(** C1, as the specification words it, fails: with an empty slot and a
    [local_path] that does not exist the guard does not hold, yet no
    fresh state is built: [load] raises [FileNotFoundError] and the slot
    stays empty. *)
Lemma load_missing_path_builds_nothing :
  ~ reuse_condition (current initial) (Demo.request_with bf16 full (Some "/models/missing"))
  /\ load Demo.env (Demo.request_with bf16 full (Some "/models/missing")) initial
     = (Exc (exn FileNotFoundError "local_path does not exist: /models/missing"), initial).
Proof.
  split.
  - apply can_reuse_false. reflexivity.
  - vm_compute. reflexivity.
Qed.

(** C1 (amended).  If a model is loaded, [eager_unload] is false, the
    requested identifier is the loaded one and the [local_path] is absent,
    empty or denotes the loaded directory, [load] returns the state in the
    slot and touches nothing: no event, no change of the slot.  In every
    other case [load] goes on to resolve the path and instantiate the
    model: a load that returns has instantiated the model, inspected the
    signature of its [transcribe], built a fresh state from the request
    and stored it in the slot; a load that raises has left the slot as it
    was; the load returns whenever the path resolves, the model is
    instantiated, configuring the precision returns and the signature of
    [transcribe] can be inspected; and when that inspection raises, the
    exception leaves [load] and the slot keeps what it held. *)
Theorem load_reuses_or_builds_fresh (E : Env) (request : LoadModelRequest.t) (s : State) :
  (reuse_condition (current s) request ->
   exists c, current s = Some c /\ load E request s = (Val c, s))
  /\ (~ reuse_condition (current s) request ->
      (forall r s', load E request s = (r, s') ->
         match r with
         | Val loaded =>
             exists model evs,
               from_pretrained E (LoadedModel.model_path loaded) = Ok model
               /\ transcribe_signature model = Ok (LoadedModel.transcribe_params loaded)
               /\ loaded = new_state request (LoadedModel.model_path loaded) model
                                     (LoadedModel.transcribe_params loaded)
               /\ current s' = Some loaded
               /\ trace s' = (trace s ++ evs)%list
               /\ In (EvFromPretrained (LoadedModel.model_path loaded)) evs
         | Exc _ => current s' = current s
         | Exit _ => False
         end)
      /\ (forall p s1 model params,
            _resolve_model_path E request s = (Val p, s1) ->
            from_pretrained E p = Ok model ->
            precision_outcome model (LoadModelRequest.precision request) = Ok tt ->
            transcribe_signature model = Ok params ->
            exists s', load E request s = (Val (new_state request p model params), s')
                       /\ current s' = Some (new_state request p model params))
      /\ (forall p s1 model e,
            _resolve_model_path E request s = (Val p, s1) ->
            from_pretrained E p = Ok model ->
            precision_outcome model (LoadModelRequest.precision request) = Ok tt ->
            transcribe_signature model = Raise e ->
            exists s', load E request s = (Exc e, s') /\ current s' = current s)).
Proof.
  split.
  - intros Hre. pose proof Hre as [c [Hc _]]. exists c. split; [exact Hc|].
    apply load_reuse; [exact Hc|]. apply can_reuse_spec, Hre.
  - intros Hn. apply can_reuse_false in Hn. split; [|split].
    + intros r s' H. eapply load_fresh_inv; eassumption.
    + intros p s1 model params E1 E2 Hm Hsig. eapply load_fresh_returns; eassumption.
    + intros p s1 model e E1 E2 Hm Hsig. eapply load_signature_raises; eassumption.
Qed.

(** A second identical request is served from the slot; the first one,
    on an empty slot, downloads, instantiates and stores; a handle
    without [transcribe] is instantiated and configured, then dropped. *)
Lemma load_reuses_or_builds_fresh_witness :
  (exists c, current Demo.loaded = Some c
             /\ load Demo.env Demo.request Demo.loaded = (Val c, Demo.loaded))
  /\ (exists s', load Demo.env Demo.request initial = (Val Demo.loaded_model, s')
                 /\ current s' = Some Demo.loaded_model)
  /\ (exists s',
        load Demo.env (Demo.request_with bf16 full (Some "/models/mute")) Demo.loaded
        = (Exc (exn OtherException "'Model' object has no attribute 'transcribe'"), s')
        /\ current s' = current Demo.loaded).
Proof.
  split; [|split].
  - apply (proj1 (load_reuses_or_builds_fresh Demo.env Demo.request Demo.loaded)).
    apply can_reuse_spec. reflexivity.
  - apply (proj1 (proj2 (proj2 (load_reuses_or_builds_fresh Demo.env Demo.request initial)
                           ltac:(apply can_reuse_false; reflexivity)))
             (Path.of_string "/cache/parakeet")
             {| current := None;
                trace := [EvDownload "parakeet" None] |}
             Demo.sound Demo.signature).
    + reflexivity.
    + reflexivity.
    + reflexivity.
    + reflexivity.
  - apply (proj2 (proj2 (proj2 (load_reuses_or_builds_fresh Demo.env
                                  (Demo.request_with bf16 full (Some "/models/mute"))
                                  Demo.loaded)
                           ltac:(apply can_reuse_false; reflexivity)))
             (Path.of_string "/models/mute") Demo.loaded Demo.mute
             (exn OtherException "'Model' object has no attribute 'transcribe'")).
    + reflexivity.
    + reflexivity.
    + reflexivity.
    + reflexivity.
Defined.

(** ** Status after a load *)

(** C2, as the specification words it, fails: with "parakeet" loaded in
    [bf16] with full attention, a request for the same identifier in
    [fp32] with local attention is served from the slot, and the status
    that follows still reports [bf16] and [full]. *)
Lemma status_after_reuse_reports_loaded_precision :
  (load Demo.env (Demo.request_with fp32 local None) ;; status) Demo.loaded
  = (Val {| StatusDict.loaded_model := Some "parakeet";
            StatusDict.model_path := Some "/cache/parakeet";
            StatusDict.precision := Some "bf16";
            StatusDict.attention := Some "full" |},
     Demo.loaded).
Proof. vm_compute. reflexivity. Qed.

(** C2 (amended).  After a load that returns, [status] reports the
    requested identifier and the path of the returned state.  It reports
    the requested precision and attention whenever the load was not
    served from the slot; when it was (same identifier, no eager unload,
    no other path), it reports the precision and attention of the state
    that was already loaded. *)
Theorem status_after_load (E : Env) (request : LoadModelRequest.t) (s s1 : State)
    (loaded : LoadedModel.t) :
  load E request s = (Val loaded, s1) ->
  exists st,
    status s1 = (Val st, s1)
    /\ StatusDict.loaded_model st = Some (LoadModelRequest.model_id request)
    /\ StatusDict.model_path st = Some (Path.to_string (LoadedModel.model_path loaded))
    /\ (~ reuse_condition (current s) request ->
        StatusDict.precision st = Some (Precision_str (LoadModelRequest.precision request))
        /\ StatusDict.attention st = Some (Attention_str (LoadModelRequest.attention request)))
    /\ (reuse_condition (current s) request ->
        exists c, current s = Some c
                  /\ StatusDict.precision st = Some (Precision_str (LoadedModel.precision c))
                  /\ StatusDict.attention st = Some (Attention_str (LoadedModel.attention c))).
Proof.
  intros H. destruct (can_reuse (current s) request) eqn:Hr.
  - pose proof (proj1 (can_reuse_spec _ _) Hr) as [c [Hc [_ [Hid _]]]].
    rewrite (load_reuse E request s c Hc Hr) in H. inversion H; subst loaded s1. clear H.
    unfold status, bind, get_current, ret. rewrite Hc.
    eexists. split; [reflexivity|]. simpl.
    split; [|split; [|split]].
    + rewrite Hid. reflexivity.
    + reflexivity.
    + intros Hn. apply can_reuse_false in Hn. congruence.
    + intros _. exists c. split; [reflexivity|]. split; reflexivity.
  - pose proof (load_fresh_inv E request s _ _ Hr H) as [model [evs [_ [_ [Hl [Hc _]]]]]].
    unfold status, bind, get_current, ret. rewrite Hc.
    eexists. split; [reflexivity|]. simpl.
    split; [|split; [|split]].
    + rewrite Hl. reflexivity.
    + reflexivity.
    + intros _. rewrite Hl. split; reflexivity.
    + intros Hre. apply can_reuse_spec in Hre. congruence.
Qed.

(** The first load of "parakeet" on an empty slot, then its status. *)
Lemma status_after_load_witness :
  exists st,
    status Demo.after_load = (Val st, Demo.after_load)
    /\ StatusDict.loaded_model st = Some "parakeet"
    /\ StatusDict.model_path st = Some "/cache/parakeet"
    /\ (~ reuse_condition (current initial) Demo.request ->
        StatusDict.precision st = Some "bf16" /\ StatusDict.attention st = Some "full")
    /\ (reuse_condition (current initial) Demo.request ->
        exists c, current initial = Some c
                  /\ StatusDict.precision st = Some (Precision_str (LoadedModel.precision c))
                  /\ StatusDict.attention st = Some (Attention_str (LoadedModel.attention c))).
Proof.
  apply (status_after_load Demo.env Demo.request initial Demo.after_load Demo.loaded_model).
  reflexivity.
Defined.

(** ** The argument builder *)

Lemma put_declared_lookup (params : gset string) (m : gmap string PyVal) key v k :
  put_declared params m (key, v) !! k
  = match v with
    | Some x =>
        if bool_decide (key ∈ params)
        then (if decide (key = k) then Some x else m !! k)
        else m !! k
    | None => m !! k
    end.
Proof.
  unfold put_declared. destruct v as [x|]; [|reflexivity].
  destruct (bool_decide (key ∈ params)); [|reflexivity]. apply lookup_insert.
Qed.

Lemma put_declared_dom (params : gset string) (m : gmap string PyVal) entry :
  dom m ⊆ params -> dom (put_declared params m entry) ⊆ params.
Proof.
  intros Hm. destruct entry as [key [x|]]; simpl; [|exact Hm].
  case_bool_decide as Hk; [|exact Hm].
  rewrite dom_insert. intros y Hy. apply elem_of_union in Hy as [Hy|Hy].
  - apply elem_of_singleton in Hy. subst y. exact Hk.
  - apply Hm, Hy.
Qed.

Lemma fold_put_dom (params : gset string) (l : list (string * option PyVal))
    (m : gmap string PyVal) :
  dom m ⊆ params -> dom (fold_left (put_declared params) l m) ⊆ params.
Proof.
  revert m. induction l as [|entry rest IH]; intros m Hm; simpl; [exact Hm|].
  apply IH, put_declared_dom, Hm.
Qed.

(** After a run of [put_declared] a declared key holds the value it was
    last given, and any other key its old binding. *)
Lemma fold_put_lookup (params : gset string) (l : list (string * option PyVal))
    (m : gmap string PyVal) k :
  fold_left (put_declared params) l m !! k
  = match last_value l k with
    | Some x => if bool_decide (k ∈ params) then Some x else m !! k
    | None => m !! k
    end.
Proof.
  revert m. induction l as [|[key v] rest IH]; intros m; cbn [fold_left last_value];
    [reflexivity|].
  rewrite IH, put_declared_lookup.
  destruct (last_value rest k) as [x|].
  - destruct (bool_decide (k ∈ params)) eqn:Hk; [reflexivity|].
    destruct v as [y|]; [|reflexivity].
    destruct (bool_decide (key ∈ params)) eqn:Hkey; [|reflexivity].
    destruct (decide (key = k)) as [->|]; [congruence|reflexivity].
  - destruct (String.eqb_spec key k) as [->|Hne].
    + destruct v as [y|]; [|reflexivity].
      destruct (bool_decide (k ∈ params)); [|reflexivity].
      destruct (decide (k = k)); [reflexivity|congruence].
    + destruct v as [y|]; [|reflexivity].
      destruct (bool_decide (key ∈ params)); [|reflexivity].
      destruct (decide (key = k)); [congruence|reflexivity].
Qed.

(** All the entries [_build_kwargs] goes through, in order. *)
Lemma build_kwargs_entries cur request :
  _build_kwargs cur request
  = fold_left (put_declared (LoadedModel.transcribe_params cur))
      (defaults cur
       ++ [ ("attention", Some (PStr (Attention_str (attention_mode cur request))));
            ("local_attention_context", PInt <$> context_of request) ]
       ++ overrides request)%list
      ∅.
Proof. unfold _build_kwargs. rewrite !fold_left_app. reflexivity. Qed.

Lemma build_kwargs_dom cur request :
  dom (_build_kwargs cur request) ⊆ LoadedModel.transcribe_params cur.
Proof.
  rewrite build_kwargs_entries. apply fold_put_dom.
  rewrite dom_empty. apply empty_subseteq.
Qed.

(** The binding of [key] in the built arguments. *)
Lemma build_kwargs_lookup cur request key :
  _build_kwargs cur request !! key
  = if bool_decide (key ∈ LoadedModel.transcribe_params cur)
    then last_value
           (defaults cur
            ++ [ ("attention", Some (PStr (Attention_str (attention_mode cur request))));
                 ("local_attention_context", PInt <$> context_of request) ]
            ++ overrides request)%list key
    else None.
Proof.
  rewrite build_kwargs_entries, fold_put_lookup, lookup_empty.
  destruct (last_value _ key), (bool_decide _); reflexivity.
Qed.

(** C3, as the specification words it, fails: a transcribe request may
    carry a negative [local_attention_context] (its schema has no
    validator), and the builder passes it on to a model that declares the
    parameter. *)
Lemma build_kwargs_passes_negative_context :
  _build_kwargs Demo.loaded_model (Demo.transcribe_request_with None None (Some (-5)))
    !! "local_attention_context"
  = Some (PInt (-5)).
Proof. vm_compute. reflexivity. Qed.

(** C3 (amended).  The arguments built for the model hold no key outside
    the capability set recorded at load time.  A request-level value
    (language, translate flag, prompt, word-timestamp flag, chunk and
    overlap duration) that is not null and whose name is declared is the
    value passed, whatever the load-time default; a declared chunk or
    overlap duration the request leaves null is passed with its load-time
    default.  A declared [attention] is the request's value, else the
    loaded state's.  [local_attention_context] comes from the request
    alone, the loaded state recording none: it is passed exactly when the
    request gives a value other than zero and the name is declared. *)
Theorem build_kwargs_spec (cur : LoadedModel.t) (request : TranscribeRequest.t) :
  dom (_build_kwargs cur request) ⊆ LoadedModel.transcribe_params cur
  /\ (forall key value,
        In (key, Some value) (overrides request) ->
        key ∈ LoadedModel.transcribe_params cur ->
        _build_kwargs cur request !! key = Some value)
  /\ (forall key value,
        In (key, Some value) (defaults cur) ->
        In (key, None) (overrides request) ->
        key ∈ LoadedModel.transcribe_params cur ->
        _build_kwargs cur request !! key = Some value)
  /\ ("attention" ∈ LoadedModel.transcribe_params cur ->
      _build_kwargs cur request !! "attention"
      = Some (PStr (Attention_str
                      (match TranscribeRequest.attention request with
                       | Some a => a
                       | None => LoadedModel.attention cur
                       end))))
  /\ _build_kwargs cur request !! "local_attention_context"
     = match TranscribeRequest.local_attention_context request with
       | Some z =>
           if negb (Z.eqb z 0)
              && bool_decide ("local_attention_context" ∈ LoadedModel.transcribe_params cur)
           then Some (PInt z)
           else None
       | None => None
       end.
Proof.
  split; [apply build_kwargs_dom|].
  split; [|split; [|split]].
  - intros key value Hin Hk. rewrite build_kwargs_lookup, (bool_decide_true _ Hk).
    simpl in Hin.
    repeat (destruct Hin as [Hin|Hin];
            [ inversion Hin; subst; clear Hin; simpl;
              try match goal with
                  | H : _ = Some value |- _ => rewrite H
                  | H : Some value = _ |- _ => rewrite <- H
                  end;
              reflexivity | ]).
    contradiction.
  - intros key value Hd Ho Hk. rewrite build_kwargs_lookup, (bool_decide_true _ Hk).
    simpl in Hd.
    repeat (destruct Hd as [Hd|Hd];
            [ inversion Hd; subst; clear Hd; simpl in Ho;
              repeat (destruct Ho as [Ho|Ho];
                      [ inversion Ho; subst; clear Ho; simpl;
                        try match goal with
                            | H : _ = None |- _ => rewrite H
                            | H : None = _ |- _ => rewrite <- H
                            end;
                        reflexivity | ]);
              contradiction | ]).
    contradiction.
  - intros Hk. rewrite build_kwargs_lookup, (bool_decide_true _ Hk). reflexivity.
  - rewrite build_kwargs_lookup. unfold context_of. simpl.
    destruct (TranscribeRequest.local_attention_context request) as [z|]; simpl.
    + destruct (Z.eqb z 0); simpl;
        destruct (bool_decide ("local_attention_context" ∈ LoadedModel.transcribe_params cur));
        reflexivity.
    + destruct (bool_decide ("local_attention_context" ∈ LoadedModel.transcribe_params cur));
        reflexivity.
Qed.

(** A request in English with a chunk duration of 30 s on a model that
    declares durations and attention but no [language]. *)
Lemma build_kwargs_spec_witness :
  _build_kwargs Demo.loaded_model
      (Demo.transcribe_request_with (Some "en") (Some 30%float) (Some 64))
    !! "chunk_duration" = Some (PFloat 30%float)
  /\ _build_kwargs Demo.loaded_model
         (Demo.transcribe_request_with (Some "en") (Some 30%float) (Some 64))
       !! "overlap_duration" = Some (PFloat 15%float)
  /\ _build_kwargs Demo.loaded_model
         (Demo.transcribe_request_with (Some "en") (Some 30%float) (Some 64))
       !! "attention" = Some (PStr "full").
Proof.
  destruct (build_kwargs_spec Demo.loaded_model
              (Demo.transcribe_request_with (Some "en") (Some 30%float) (Some 64)))
    as (_ & Hover & Hdef & Hatt & _).
  split; [|split].
  - apply Hover.
    + simpl. tauto.
    + unfold Demo.loaded_model, Demo.signature. simpl. set_solver.
  - apply (Hdef "overlap_duration" (PFloat 15%float)).
    + simpl. tauto.
    + simpl. tauto.
    + unfold Demo.loaded_model, Demo.signature. simpl. set_solver.
  - apply Hatt. unfold Demo.loaded_model, Demo.signature. simpl. set_solver.
Defined.

(** ** Writing responses *)

Lemma count_newlines_app a b :
  count_newlines (a ++ b) = (count_newlines a + count_newlines b)%nat.
Proof.
  induction a as [|c a IH]; simpl; [reflexivity|]. rewrite IH. lia.
Qed.

(** Induction on values, the elements of a container included. *)
Lemma PyVal_nested_ind (P : PyVal -> Prop) :
  P PNone ->
  (forall b, P (PBool b)) ->
  (forall z, P (PInt z)) ->
  (forall f, P (PFloat f)) ->
  (forall s, P (PStr s)) ->
  (forall xs, Forall P xs -> P (PList xs)) ->
  (forall xs, Forall P xs -> P (PTuple xs)) ->
  (forall kvs, Forall (fun kv => P (snd kv)) kvs -> P (PDict kvs)) ->
  (forall has_dict attrs, Forall (fun kv => P (snd kv)) attrs -> P (PObj has_dict attrs)) ->
  forall v, P v.
Proof.
  intros HNone HBool HInt HFloat HStr HList HTuple HDict HObj.
  fix IH 1. intros v. destruct v as [|b|z|f|s|xs|xs|kvs|has_dict attrs].
  - exact HNone.
  - apply HBool.
  - apply HInt.
  - apply HFloat.
  - apply HStr.
  - apply HList. induction xs as [|x rest IHxs]; constructor; [apply IH | exact IHxs].
  - apply HTuple. induction xs as [|x rest IHxs]; constructor; [apply IH | exact IHxs].
  - apply HDict. induction kvs as [|[k x] rest IHkvs]; constructor; [apply IH | exact IHkvs].
  - apply HObj. induction attrs as [|[k x] rest IHkvs]; constructor; [apply IH | exact IHkvs].
Qed.

Lemma uint_no_newline u : count_newlines (NilEmpty.string_of_uint u) = 0%nat.
Proof. induction u; simpl; assumption || reflexivity. Qed.

Lemma decimal_no_newline z : count_newlines (Demo.decimal z) = 0%nat.
Proof.
  unfold Demo.decimal, NilZero.string_of_int, NilZero.string_of_uint.
  destruct (Z.to_int z) as [u|u]; destruct u; simpl; try reflexivity; apply uint_no_newline.
Qed.

Lemma escape_char_no_newline c : count_newlines (Demo.escape_char c) = 0%nat.
Proof. destruct c as [[] [] [] [] [] [] [] []]; reflexivity. Qed.

Lemma escape_no_newline s : count_newlines (Demo.escape s) = 0%nat.
Proof.
  induction s as [|c s IH]; simpl; [reflexivity|].
  rewrite count_newlines_app, escape_char_no_newline, IH. reflexivity.
Qed.

Lemma json_string_no_newline s : count_newlines (Demo.json_string s) = 0%nat.
Proof.
  unfold Demo.json_string. rewrite !count_newlines_app, escape_no_newline. reflexivity.
Qed.

Lemma zeros_no_newline k : count_newlines (Demo.zeros k) = 0%nat.
Proof. induction k; simpl; assumption || reflexivity. Qed.

Lemma json_float_no_newline f : count_newlines (Demo.json_float f) = 0%nat.
Proof.
  unfold Demo.json_float, Demo.decimals.
  destruct (Prim2SF f) as [[]|[]| |sign m e]; try reflexivity.
  destruct (0 <=? e)%Z, sign;
    rewrite ?count_newlines_app, ?decimal_no_newline, ?zeros_no_newline; reflexivity.
Qed.

Lemma join_comma_no_newline parts :
  Forall (fun part => forall t, part = Some t -> count_newlines t = 0%nat) parts ->
  forall t, Demo.join_comma parts = Some t -> count_newlines t = 0%nat.
Proof.
  induction 1 as [|part rest Hp Hrest IH]; intros t H.
  - inversion H. reflexivity.
  - destruct rest as [|next rest'].
    + simpl in H. apply Hp, H.
    + change (Demo.join_comma (part :: next :: rest'))
        with (match part, Demo.join_comma (next :: rest') with
              | Some a, Some b => Some (a ++ "," ++ b)
              | _, _ => None
              end) in H.
      destruct part as [a|]; [|discriminate].
      destruct (Demo.join_comma (next :: rest')) as [b|]; [|discriminate].
      inversion H. rewrite !count_newlines_app, (Hp a eq_refl), (IH b eq_refl).
      reflexivity.
Qed.

Lemma wrap_no_newline opening closing body t :
  count_newlines opening = 0%nat -> count_newlines closing = 0%nat ->
  (forall b, body = Some b -> count_newlines b = 0%nat) ->
  Demo.wrap opening closing body = Some t -> count_newlines t = 0%nat.
Proof.
  intros Ho Hc Hb H. destruct body as [b|]; [|discriminate].
  inversion H. rewrite !count_newlines_app, Ho, Hc, (Hb b eq_refl). reflexivity.
Qed.

(** The demo printer never writes a line end. *)
Lemma json_no_newline v : forall t, Demo.json v = Some t -> count_newlines t = 0%nat.
Proof.
  induction v as [|b|z|f|s|xs IH|xs IH|kvs IH|has_dict attrs IH] using PyVal_nested_ind;
    intros t H; simpl in H.
  - inversion H. reflexivity.
  - destruct b; inversion H; reflexivity.
  - inversion H. apply decimal_no_newline.
  - inversion H. apply json_float_no_newline.
  - inversion H. apply json_string_no_newline.
  - refine (wrap_no_newline "[" "]" _ t eq_refl eq_refl _ H).
    apply join_comma_no_newline. apply Forall_map. exact IH.
  - refine (wrap_no_newline "[" "]" _ t eq_refl eq_refl _ H).
    apply join_comma_no_newline. apply Forall_map. exact IH.
  - refine (wrap_no_newline "{" "}" _ t eq_refl eq_refl _ H).
    apply join_comma_no_newline. apply Forall_map.
    eapply Forall_impl; [exact IH|].
    intros [k x] Hx t' Ht. simpl in *. unfold Demo.member in Ht.
    destruct (Demo.json x) as [a|]; [|discriminate].
    inversion Ht. rewrite !count_newlines_app, json_string_no_newline, (Hx a eq_refl).
    reflexivity.
  - discriminate.
Qed.

Lemma demo_codec_ok : codec_ok Demo.env.
Proof.
  split.
  - eexists. vm_compute. reflexivity.
  - intros v payload H. simpl in H. unfold Demo.dumps_json in H.
    destruct (Demo.json v) as [t|] eqn:Hj; [|discriminate].
    inversion H; subst. eapply json_no_newline, Hj.
Qed.

Lemma write_response_eq E response s :
  write_response E response s
  = match payload_of E response with
    | Ok payload =>
        (Val tt, {| current := current s;
                    trace := (trace s ++ [EvStdout (payload ++ newline)])%list |})
    | Raise e => (Exc e, s)
    end.
Proof.
  unfold write_response, payload_of, bind, try_except, dumps, lift, emit.
  destruct (orjson_dumps E (model_dump response)) as [p|e]; [reflexivity|].
  destruct (orjson_dumps E (model_dump serialisation_error)) as [p|e']; reflexivity.
Qed.

Lemma write_response_same_slot E response : preserves same_slot (write_response E response).
Proof.
  intros s r s' H. rewrite write_response_eq in H.
  destruct (payload_of E response); inversion H; reflexivity.
Qed.

Lemma write_response_stdout E response :
  preserves (grows is_stdout) (write_response E response).
Proof.
  intros s r s' H. rewrite write_response_eq in H.
  destruct (payload_of E response) as [p|e]; inversion H; subst.
  - exists [EvStdout (p ++ newline)]. split; [reflexivity|].
    repeat constructor.
  - apply grows_refl.
Qed.

Lemma write_response_no_exit E response : no_exit (write_response E response).
Proof.
  intros s r s' H n ->. rewrite write_response_eq in H.
  destruct (payload_of E response); inversion H.
Qed.

(** With a sound codec a response always reaches standard output, as
    one line. *)
Lemma write_response_ok E response s :
  codec_ok E ->
  exists payload,
    payload_of E response = Ok payload
    /\ count_newlines (payload ++ newline) = 1%nat
    /\ write_response E response s
       = (Val tt, {| current := current s;
                     trace := (trace s ++ [EvStdout (payload ++ newline)])%list |}).
Proof.
  intros [[p0 Hf] Hsl]. rewrite write_response_eq. unfold payload_of.
  destruct (orjson_dumps E (model_dump response)) as [p|e] eqn:Hd.
  - exists p. split; [reflexivity|]. split; [|reflexivity].
    rewrite count_newlines_app, (Hsl _ _ Hd). reflexivity.
  - rewrite Hf. exists p0. split; [reflexivity|]. split; [|reflexivity].
    rewrite count_newlines_app, (Hsl _ _ Hf). reflexivity.
Qed.

(** ** Transcribing without a model or without the audio file *)



(** With a sound codec, what equals writing a response returns after
    writing one line, the serialisation [payload_of] gives, and touches
    nothing else. *)
Lemma answers_intro E response (m : M unit) s :
  codec_ok E ->
  m s = write_response E response s ->
  answers E response m s.
Proof.
  intros Hc H. destruct (write_response_ok E response s Hc) as (payload & Hp & _ & Hw).
  exists payload. split; [exact Hp|]. rewrite H. exact Hw.
Qed.



(** ** The result normaliser *)

Lemma mapM_as_dict_processed E ts :
  exists ds, mapM as_dict (List.map (process_token E) ts) = Some ds.
Proof.
  induction ts as [|token rest [ds IH]]; simpl.
  - eexists. reflexivity.
  - assert (Hd : exists d, process_token E token = PDict d).
    { unfold process_token. destruct token; try (eexists; reflexivity).
      simpl. destruct has_dict; eexists; reflexivity. }
    destruct Hd as [d ->]. simpl. rewrite IH. simpl. eexists. reflexivity.
Qed.

(** Whatever [tokens] is, what is made of it passes the schema. *)
Lemma processed_tokens_accepted E tokens :
  exists r, validate_optional (as_list_of as_dict) (process_tokens E tokens) = Some r.
Proof.
  unfold process_tokens. destruct (truthy tokens); [|eexists; reflexivity].
  destruct tokens; try (eexists; reflexivity).
  simpl. destruct (mapM_as_dict_processed E xs) as [ds ->]. eexists. reflexivity.
Qed.

Lemma normalise_segment_ok E segment :
  is_Ok (normalise_segment E segment) = segment_accepted E segment.
Proof.
  unfold normalise_segment, segment_accepted.
  destruct (segment_fields segment) as [[[seg_text start] end_] tokens].
  unfold SegmentPayload_validate, field, dict_get. simpl.
  destruct (processed_tokens_accepted E tokens) as [r ->].
  destruct (as_str E seg_text); simpl; [|reflexivity].
  destruct (validate_optional (as_float E) start); simpl; [|reflexivity].
  destruct (validate_optional (as_float E) end_); reflexivity.
Qed.

Lemma normalise_segments_ok E items :
  is_Ok (normalise_segments E items) = forallb (segment_accepted E) items.
Proof.
  induction items as [|seg rest IH]; simpl; [reflexivity|].
  rewrite <- normalise_segment_ok, <- IH.
  destruct (normalise_segment E seg); [|reflexivity].
  destruct (normalise_segments E rest); reflexivity.
Qed.

Lemma normalise_segments_length E items segs :
  normalise_segments E items = Ok segs -> length segs = length items.
Proof.
  revert segs. induction items as [|seg rest IH]; simpl; intros segs H.
  - inversion H. reflexivity.
  - destruct (normalise_segment E seg); [|discriminate].
    destruct (normalise_segments E rest) as [ss|]; [|discriminate].
    inversion H. simpl. f_equal. apply IH. reflexivity.
Qed.

(** The normaliser returns exactly when the collection of segments can
    be looped over and the schema accepts every segment. *)
Lemma normalise_result_ok E result :
  is_Ok (_normalise_result E result)
  = match py_iter (raw_segments result) with
    | Ok items => forallb (segment_accepted E) items
    | Raise _ => false
    end.
Proof.
  unfold _normalise_result, raw_segments.
  destruct (extract result) as [[[text language] duration] raw]. simpl.
  destruct (py_iter (py_or raw (PList []))) as [items|e]; [|reflexivity].
  rewrite <- normalise_segments_ok.
  destruct (normalise_segments E items); reflexivity.
Qed.

(** What a returning normaliser hands back. *)
Lemma normalise_result_inv E result n :
  _normalise_result E result = Ok n ->
  Normalised.text n = fst (fst (fst (extract result)))
  /\ Normalised.language n = snd (fst (fst (extract result)))
  /\ Normalised.duration n = snd (fst (extract result))
  /\ exists items, py_iter (raw_segments result) = Ok items
                   /\ normalise_segments E items = Ok (Normalised.segments n).
Proof.
  unfold _normalise_result, raw_segments.
  destruct (extract result) as [[[text language] duration] raw]. simpl.
  destruct (py_iter (py_or raw (PList []))) as [items|e]; [|discriminate].
  destruct (normalise_segments E items) as [segs|e] eqn:Hs; [|discriminate].
  intros H. inversion H. simpl. repeat split; try reflexivity.
  exists items. split; [reflexivity | exact Hs].
Qed.

Lemma assoc_missing {A : Type} name (kvs : list (string * A)) :
  is_some (assoc name kvs) = false -> assoc name kvs = None.
Proof. destruct (assoc name kvs); [discriminate | reflexivity]. Qed.

(** A field that is missing reads as the default handed to the lookup. *)
Lemma missing_field_default (v : PyVal) name dflt :
  has_field v name = false ->
  match v with
  | PDict d => dict_get d name dflt
  | _ => py_getattr v name dflt
  end = dflt.
Proof.
  destruct v; simpl; try reflexivity; intros H; unfold dict_get;
    rewrite (assoc_missing _ _ H); reflexivity.
Qed.

Lemma normalise_result_without_segments E result :
  has_field result "segments" = false ->
  has_field result "sentences" = false ->
  exists n, _normalise_result E result = Ok n /\ Normalised.segments n = [].
Proof.
  intros H1 H2. unfold _normalise_result, extract.
  destruct result; simpl in *;
    try (eexists; split; reflexivity);
    unfold dict_get;
    rewrite (assoc_missing _ _ H1), (assoc_missing _ _ H2); simpl;
    eexists; split; reflexivity.
Qed.

Lemma normalise_result_defaults E result n :
  _normalise_result E result = Ok n ->
  (has_field result "text" = false -> has_field result "transcription" = false ->
   Normalised.text n = PStr "")
  /\ (has_field result "language" = false -> Normalised.language n = PNone)
  /\ (has_field result "duration" = false -> Normalised.duration n = PNone).
Proof.
  intros H. destruct (normalise_result_inv E result n H) as (Ht & Hl & Hd & _).
  rewrite Ht, Hl, Hd. unfold extract.
  split; [|split].
  - intros H1 H2. destruct result; simpl in *; try reflexivity; unfold dict_get;
      rewrite (assoc_missing _ _ H1); try rewrite (assoc_missing _ _ H2); reflexivity.
  - intros H1. destruct result; simpl in *; try reflexivity; unfold dict_get;
      rewrite (assoc_missing _ _ H1); reflexivity.
  - intros H1. destruct result; simpl in *; try reflexivity; unfold dict_get;
      rewrite (assoc_missing _ _ H1); reflexivity.
Qed.

Lemma segment_fields_defaults segment :
  (has_field segment "text" = false -> fst (fst (fst (segment_fields segment))) = PStr "")
  /\ (has_field segment "start" = false -> snd (fst (fst (segment_fields segment))) = PNone)
  /\ (has_field segment "end" = false -> snd (fst (segment_fields segment)) = PNone)
  /\ (has_field segment "tokens" = false -> snd (segment_fields segment) = PNone).
Proof.
  unfold segment_fields.
  repeat split; intros H; destruct segment; simpl in *; try reflexivity;
    unfold dict_get; rewrite (assoc_missing _ _ H); reflexivity.
Qed.

Lemma normalise_empty_segment E segment :
  (forall name, has_field segment name = false) ->
  as_str E (PStr "") = Some "" ->
  normalise_segment E segment = Ok (SegmentPayload_model_dump empty_segment).
Proof.
  intros Hmiss Hstr.
  destruct (segment_fields_defaults segment) as (Ht & Hs & He & Hk).
  specialize (Ht (Hmiss _)). specialize (Hs (Hmiss _)).
  specialize (He (Hmiss _)). specialize (Hk (Hmiss _)).
  unfold normalise_segment.
  destruct (segment_fields segment) as [[[seg_text start] end_] tokens].
  simpl in *. subst.
  unfold SegmentPayload_validate, field, dict_get. simpl. rewrite Hstr. reflexivity.
Qed.

(** C5, as the specification words it, fails: a raw result with a
    segment whose [text] is null makes the normaliser raise the
    [ValidationError] of [SegmentPayload], whose [text] is a [str]. *)
Lemma normalise_result_raises_on_null_text :
  _normalise_result Demo.env
    (PDict [("text", PStr "hello"); ("segments", PList [PDict [("text", PNone)]])])
  = Raise (Demo.validation_error "SegmentPayload"
             (PDict [("text", PNone); ("start", PNone); ("end", PNone);
                     ("tokens", PNone)])).
Proof. vm_compute. reflexivity. Qed.

(** C5 (amended).  For every raw result, mapping or object, whose
    collection of segments can be looped over and whose segments offer a
    [text], [start] and [end] that the schema of [SegmentPayload]
    accepts, the normaliser returns a canonical result, with one segment
    per raw segment.  Missing fields never make it raise: with neither
    [segments] nor [sentences] it returns with no segment; a missing text
    degrades to the empty string, a missing language or duration to null;
    in a segment a missing text reads as the empty string and a missing
    start, end or tokens as null, and a segment with no field at all is
    normalised to the payload of defaults. *)
Theorem normalise_result_returns (E : Env) (result : PyVal) :
  (forall items,
     py_iter (raw_segments result) = Ok items ->
     forallb (segment_accepted E) items = true ->
     exists n, _normalise_result E result = Ok n
               /\ length (Normalised.segments n) = length items)
  /\ (has_field result "segments" = false ->
      has_field result "sentences" = false ->
      exists n, _normalise_result E result = Ok n /\ Normalised.segments n = [])
  /\ (forall n,
        _normalise_result E result = Ok n ->
        (has_field result "text" = false -> has_field result "transcription" = false ->
         Normalised.text n = PStr "")
        /\ (has_field result "language" = false -> Normalised.language n = PNone)
        /\ (has_field result "duration" = false -> Normalised.duration n = PNone))
  /\ (forall segment,
        (has_field segment "text" = false ->
         fst (fst (fst (segment_fields segment))) = PStr "")
        /\ (has_field segment "start" = false ->
            snd (fst (fst (segment_fields segment))) = PNone)
        /\ (has_field segment "end" = false -> snd (fst (segment_fields segment)) = PNone)
        /\ (has_field segment "tokens" = false -> snd (segment_fields segment) = PNone)
        /\ ((forall name, has_field segment name = false) ->
            as_str E (PStr "") = Some "" ->
            normalise_segment E segment = Ok (SegmentPayload_model_dump empty_segment))).
Proof.
  split; [|split; [|split]].
  - intros items Hi Ha.
    pose proof (normalise_result_ok E result) as Hok. rewrite Hi, Ha in Hok.
    destruct (_normalise_result E result) as [n|e] eqn:Hn; [|discriminate].
    exists n. split; [reflexivity|].
    destruct (normalise_result_inv E result n Hn) as (_ & _ & _ & items' & Hi' & Hs).
    rewrite Hi in Hi'. inversion Hi'; subst items'.
    eapply normalise_segments_length, Hs.
  - apply normalise_result_without_segments.
  - apply normalise_result_defaults.
  - intros segment.
    destruct (segment_fields_defaults segment) as (Ht & Hs & He & Hk).
    repeat (split; [assumption|]).
    apply normalise_empty_segment.
Qed.

(** The result of the sound model, an object with one sentence, and a
    mapping that has nothing but a text. *)
Lemma normalise_result_returns_witness :
  (exists n, _normalise_result Demo.env Demo.raw_result = Ok n
             /\ length (Normalised.segments n) = 1%nat)
  /\ (exists n, _normalise_result Demo.env (PDict [("text", PStr "hello")]) = Ok n
                /\ Normalised.segments n = [])
  /\ normalise_segment Demo.env (PObj true [])
     = Ok (SegmentPayload_model_dump empty_segment).
Proof.
  split; [|split].
  - apply (proj1 (normalise_result_returns Demo.env Demo.raw_result)
             [ PObj true
                 [ ("text", PStr "hello world");
                   ("start", PFloat 0%float);
                   ("end", PFloat 1.5%float);
                   ("tokens", PList [ PObj true [ ("text", PStr "hello");
                                                  ("start", PFloat 0%float);
                                                  ("end", PFloat 0.5%float);
                                                  ("duration", PFloat 0.5%float) ] ]) ] ]).
    + reflexivity.
    + reflexivity.
  - apply (proj1 (proj2 (normalise_result_returns Demo.env (PDict [("text", PStr "hello")])))).
    + reflexivity.
    + reflexivity.
  - apply (proj2 (proj2 (proj2 (normalise_result_returns Demo.env PNone))) (PObj true [])).
    + intros name. reflexivity.
    + reflexivity.
Defined.

(** ** Mappings and objects *)

(** The rule for segments is the same for both shapes: what a mapping
    yields under its keys, an object yields under the same attributes. *)
Lemma raw_segments_uniform (has_dict : bool) (fields : list (string * PyVal)) :
  raw_segments (PObj has_dict fields) = raw_segments (PDict fields).
Proof.
  unfold raw_segments, extract, py_getattr, dict_get, py_or. simpl.
  destruct (assoc "segments" fields) as [segs|];
    destruct (assoc "sentences" fields) as [sents|]; simpl;
    try destruct (truthy segs) eqn:Hs; try destruct (truthy sents) eqn:Hn; simpl;
    rewrite ?Hs, ?Hn; simpl; rewrite ?Hs, ?Hn; reflexivity.
Qed.

(** C6, the code at the failing input.  An object that has a
    [transcription] attribute and no [text] is normalised to the empty
    text: the branch for objects reads [text] alone.  The mapping with
    the same single field is normalised to the text of its
    [transcription], the fallback the claim describes.  The rule for
    segments does not depend on the shape. *)
Theorem normalise_object_ignores_transcription (E : Env) :
  _normalise_result E (PObj true [("transcription", PStr "hello")])
  = Ok {| Normalised.text := PStr ""; Normalised.segments := [];
          Normalised.language := PNone; Normalised.duration := PNone |}
  /\ _normalise_result E (PDict [("transcription", PStr "hello")])
     = Ok {| Normalised.text := PStr "hello"; Normalised.segments := [];
             Normalised.language := PNone; Normalised.duration := PNone |}
  /\ (forall has_dict fields,
        raw_segments (PObj has_dict fields) = raw_segments (PDict fields)).
Proof.
  split; [reflexivity|]. split; [reflexivity|].
  intros has_dict fields. apply raw_segments_uniform.
Qed.

(** ** Unloading and shutting down *)

Lemma unload_eq s :
  unload s
  = match current s with
    | None => (Val tt, s)
    | Some c =>
        match model_method (LoadedModel.instance c) "close" with
        | None => (Val tt, {| current := None; trace := trace s |})
        | Some (Ok _) =>
            (Val tt, {| current := None; trace := (trace s ++ [EvMethod "close"])%list |})
        | Some (Raise e) =>
            (Exc e, {| current := None; trace := (trace s ++ [EvMethod "close"])%list |})
        end
    end.
Proof.
  unfold unload, bind, get_current. destruct (current s) as [c|]; [|reflexivity].
  unfold try_finally, call, bind, emit, lift, set_current, ret.
  destruct (model_method (LoadedModel.instance c) "close") as [[[]|e]|]; reflexivity.
Qed.

(** Whatever happens, unloading leaves the slot empty. *)
Lemma unload_clears s : current (snd (unload s)) = None.
Proof.
  rewrite unload_eq. destruct (current s) as [c|] eqn:Hc; [|exact Hc].
  destruct (model_method (LoadedModel.instance c) "close") as [[[]|e]|]; reflexivity.
Qed.

(** The shutdown command: the unload comes first, and only when it
    returns are the final [ok] written and the process left. *)
Lemma handle_shutdown_unloads_first E s s1 :
  unload s = (Val tt, s1) ->
  handle_command E Shutdown s
  = match write_response E (OkResponse "shutdown" []) s1 with
    | (Val _, s2) => (Exit 0, s2)
    | (Exc e, s2) => write_response E (error_response_for e) s2
    | (Exit n, s2) => (Exit n, s2)
    end.
Proof.
  intros Hu. unfold handle_command, try_except. unfold bind at 1. rewrite Hu.
  unfold bind. destruct (write_response E (OkResponse "shutdown" []) s1) as [[[]|e|n] s2];
    try reflexivity.
  unfold error_response_for, command_handler. destruct (exn_class e); reflexivity.
Qed.

(** A signal ends the loop where it stands: nothing is unloaded. *)
Lemma event_loop_signal E signum rest s :
  event_loop E (Signal signum :: rest) s = (Exit 0, s).
Proof. reflexivity. Qed.

(** C7, the code at the failing input.  A termination signal that
    arrives after a model was loaded ends the loop with [SystemExit],
    which [run] passes over: the process ends with the model still in the
    slot and [close] never called.  The shutdown command sent in its
    place does call [close], before the final [ok] is written. *)
Theorem signal_exits_without_unload :
  run Demo.env [Line (Demo.line_of Demo.load_payload); Signal 15]
  = (Val tt,
     {| current := Some Demo.loaded_model;
        trace :=
          (trace Demo.after_load
           ++ [ EvStdout
                  (Demo.line_of
                     (model_dump
                        (OkResponse "load_model"
                           [ ("model_id", PStr "parakeet"); ("precision", PStr "bf16");
                             ("attention", PStr "full") ]))
                   ++ newline) ])%list |})
  /\ run Demo.env [Line (Demo.line_of Demo.load_payload);
                   Line (Demo.line_of Demo.shutdown_payload)]
     = (Val tt,
        {| current := None;
           trace :=
             (trace Demo.after_load
              ++ [ EvStdout
                     (Demo.line_of
                        (model_dump
                           (OkResponse "load_model"
                              [ ("model_id", PStr "parakeet"); ("precision", PStr "bf16");
                                ("attention", PStr "full") ]))
                      ++ newline);
                   EvMethod "close";
                   EvStdout
                     (Demo.line_of (model_dump (OkResponse "shutdown" [])) ++ newline) ])%list |})
  /\ (forall E signum rest s, event_loop E (Signal signum :: rest) s = (Exit 0, s)).
Proof.
  split; [vm_compute; reflexivity|].
  split; [vm_compute; reflexivity|].
  intros E signum rest s. apply event_loop_signal.
Qed.

(** ** Failures of the best-effort steps *)

Lemma error_response_is_error e : is_error (error_response_for e).
Proof. unfold error_response_for. destruct (exn_class e); exact I. Qed.

(** An exception of the unload reaches the handlers of the dispatcher. *)
Lemma handle_unload_failure E s s1 e :
  unload s = (Exc e, s1) ->
  handle_command E UnloadModel s = write_response E (error_response_for e) s1.
Proof.
  intros Hu. unfold handle_command, try_except. unfold bind at 1. rewrite Hu.
  unfold error_response_for, command_handler. destruct (exn_class e); reflexivity.
Qed.

Lemma handle_shutdown_failure E s s1 e :
  unload s = (Exc e, s1) ->
  handle_command E Shutdown s = write_response E (error_response_for e) s1.
Proof.
  intros Hu. unfold handle_command, try_except. unfold bind at 1. rewrite Hu.
  unfold error_response_for, command_handler. destruct (exn_class e); reflexivity.
Qed.

Lemma unload_release_raises s c e :
  current s = Some c ->
  model_method (LoadedModel.instance c) "close" = Some (Raise e) ->
  unload s = (Exc e, {| current := None; trace := (trace s ++ [EvMethod "close"])%list |}).
Proof. intros Hc Hm. rewrite unload_eq, Hc, Hm. reflexivity. Qed.

(** C8, as the specification words it, fails: when [close] raises, the
    slot is cleared but the exception leaves [unload], and the dispatcher
    answers the unload command with an error, not with [ok]. *)
Lemma unload_propagates_release_failure :
  unload (Demo.holding "/models/sticky" Demo.sticky)
  = (Exc (exn RuntimeError "device busy"),
     {| current := None; trace := [EvMethod "close"] |})
  /\ handle_command Demo.env UnloadModel (Demo.holding "/models/sticky" Demo.sticky)
     = (Val tt,
        {| current := None;
           trace := [ EvMethod "close";
                      EvStdout
                        (Demo.line_of
                           (model_dump (ErrorResponse "runtime_error" "device busy" None))
                         ++ newline) ] |}).
Proof. split; vm_compute; reflexivity. Qed.

(** C8 (amended).  Of the three steps only the configuration of
    attention absorbs an exception: it returns whatever the setter does,
    so a load whose path resolves, whose model is instantiated, whose
    precision method returns and whose [transcribe] can be inspected
    hands back a usable state stored in the slot.  An exception of the
    precision method leaves [load] and the slot keeps what it held.  An
    exception of [close] during unload does not keep the slot from being
    cleared, but it leaves [unload], and the dispatcher answers the
    unload command with an error response: with a sound codec the
    command returns after [close] was called and one line was written,
    the serialisation of the error response that goes with the
    exception. *)
Theorem best_effort_failures (E : Env) :
  (forall model mode context s,
     exists s', _configure_attention model mode context s = (Val tt, s')
                /\ current s' = current s)
  /\ (forall request s p s1 model params,
        ~ reuse_condition (current s) request ->
        _resolve_model_path E request s = (Val p, s1) ->
        from_pretrained E p = Ok model ->
        precision_outcome model (LoadModelRequest.precision request) = Ok tt ->
        transcribe_signature model = Ok params ->
        exists s', load E request s = (Val (new_state request p model params), s')
                   /\ current s' = Some (new_state request p model params))
  /\ (forall request s p s1 model e,
        ~ reuse_condition (current s) request ->
        _resolve_model_path E request s = (Val p, s1) ->
        from_pretrained E p = Ok model ->
        precision_outcome model (LoadModelRequest.precision request) = Raise e ->
        exists s', load E request s = (Exc e, s') /\ current s' = current s)
  /\ (forall s, current (snd (unload s)) = None)
  /\ (forall s c e,
        current s = Some c ->
        model_method (LoadedModel.instance c) "close" = Some (Raise e) ->
        unload s
        = (Exc e, {| current := None; trace := (trace s ++ [EvMethod "close"])%list |})
        /\ is_error (error_response_for e)
        /\ (codec_ok E ->
            exists payload,
              payload_of E (error_response_for e) = Ok payload
              /\ handle_command E UnloadModel s
                 = (Val tt,
                    {| current := None;
                       trace := (trace s
                                 ++ [EvMethod "close";
                                     EvStdout (payload ++ newline)])%list |}))).
Proof.
  split; [|split; [|split; [|split]]].
  - intros model mode context s.
    destruct (attention_returns model mode context s) as [s' Hs]. exists s'.
    split; [exact Hs|]. eapply attention_same_slot, Hs.
  - intros request s p s1 model params Hn. apply can_reuse_false in Hn.
    apply load_fresh_returns, Hn.
  - intros request s p s1 model e Hn. apply can_reuse_false in Hn.
    apply load_precision_raises, Hn.
  - apply unload_clears.
  - intros s c e Hc Hm. pose proof (unload_release_raises s c e Hc Hm) as Hu.
    split; [exact Hu|]. split; [apply error_response_is_error|].
    intros Hcodec.
    destruct (write_response_ok E (error_response_for e)
                {| current := None; trace := (trace s ++ [EvMethod "close"])%list |} Hcodec)
      as (payload & Hp & _ & Hw).
    exists payload. split; [exact Hp|].
    rewrite (handle_unload_failure E s _ e Hu), Hw. simpl.
    rewrite <- app_assoc. reflexivity.
Qed.

(** A model whose attention setter raises is loaded all the same; one
    whose precision method raises is not; one whose [close] raises is
    dropped from the slot while the exception goes up, and the unload
    command is answered with the error. *)
Lemma best_effort_failures_witness :
  (exists s',
     load Demo.env (Demo.request_with bf16 local (Some "/models/deaf")) initial
     = (Val (new_state (Demo.request_with bf16 local (Some "/models/deaf"))
                       (Path.of_string "/models/deaf") Demo.deaf Demo.signature), s')
     /\ current s'
        = Some (new_state (Demo.request_with bf16 local (Some "/models/deaf"))
                          (Path.of_string "/models/deaf") Demo.deaf Demo.signature))
  /\ (exists s',
        load Demo.env (Demo.request_with bf16 full (Some "/models/fragile")) initial
        = (Exc (exn RuntimeError "bfloat16 is not supported"), s')
        /\ current s' = current initial)
  /\ unload (Demo.holding "/models/sticky" Demo.sticky)
     = (Exc (exn RuntimeError "device busy"),
        {| current := None;
           trace := (trace (Demo.holding "/models/sticky" Demo.sticky)
                     ++ [EvMethod "close"])%list |})
  /\ (exists payload,
        payload_of Demo.env (error_response_for (exn RuntimeError "device busy"))
        = Ok payload
        /\ handle_command Demo.env UnloadModel (Demo.holding "/models/sticky" Demo.sticky)
           = (Val tt,
              {| current := None;
                 trace := (trace (Demo.holding "/models/sticky" Demo.sticky)
                           ++ [EvMethod "close"; EvStdout (payload ++ newline)])%list |})).
Proof.
  destruct (best_effort_failures Demo.env) as (_ & Hload & Hprec & _ & Hclose).
  split; [|split; [|split]].
  - apply (Hload (Demo.request_with bf16 local (Some "/models/deaf")) initial
                 (Path.of_string "/models/deaf") initial Demo.deaf Demo.signature).
    + apply can_reuse_false. reflexivity.
    + reflexivity.
    + reflexivity.
    + reflexivity.
    + reflexivity.
  - apply (Hprec (Demo.request_with bf16 full (Some "/models/fragile")) initial
                 (Path.of_string "/models/fragile") initial Demo.fragile).
    + apply can_reuse_false. reflexivity.
    + reflexivity.
    + reflexivity.
    + reflexivity.
  - apply (Hclose (Demo.holding "/models/sticky" Demo.sticky)
                  (new_state (Demo.request_with bf16 full (Some "/models/sticky"))
                             (Path.of_string "/models/sticky") Demo.sticky Demo.signature)
                  (exn RuntimeError "device busy")).
    + reflexivity.
    + reflexivity.
  - apply (Hclose (Demo.holding "/models/sticky" Demo.sticky)
                  (new_state (Demo.request_with bf16 full (Some "/models/sticky"))
                             (Path.of_string "/models/sticky") Demo.sticky Demo.signature)
                  (exn RuntimeError "device busy")).
    + reflexivity.
    + reflexivity.
    + exact demo_codec_ok.
Defined.

(** ** One line out for each line in *)

Lemma lines_written_app t1 t2 :
  lines_written (t1 ++ t2) = (lines_written t1 + lines_written t2)%nat.
Proof.
  induction t1 as [|ev t1 IH]; simpl; [reflexivity|].
  destruct ev; rewrite IH; lia.
Qed.

Lemma lines_written_silent evs : Forall silent evs -> lines_written evs = 0%nat.
Proof.
  induction 1 as [|ev evs Hev _ IH]; simpl; [reflexivity|].
  destruct ev; try exact IH. exfalso. apply Hev. exact I.
Qed.

Lemma grows_silent_lines s s' :
  grows silent s s' -> lines_written (trace s') = lines_written (trace s).
Proof.
  intros [evs [-> Hs]]. rewrite lines_written_app, (lines_written_silent _ Hs). lia.
Qed.

Lemma write_response_lines E response s :
  codec_ok E ->
  exists s', write_response E response s = (Val tt, s')
             /\ lines_written (trace s') = S (lines_written (trace s)).
Proof.
  intros Hc. destruct (write_response_ok E response s Hc) as (p & _ & Hn & Hw).
  eexists. split; [exact Hw|]. simpl.
  rewrite lines_written_app. simpl. rewrite Hn. lia.
Qed.

Lemma one_line_write E response : codec_ok E -> one_line (write_response E response).
Proof.
  intros Hc s r s' H. destruct (write_response_lines E response s Hc) as (s2 & Hw & Hl).
  rewrite Hw in H. inversion H; subst. split; [left; reflexivity | exact Hl].
Qed.

Lemma one_line_write_exit E response n :
  codec_ok E -> one_line (write_response E response ;; sys_exit n).
Proof.
  intros Hc s r s' H. destruct (write_response_lines E response s Hc) as (s2 & Hw & Hl).
  unfold bind in H. rewrite Hw in H. inversion H; subst.
  split; [right; eexists; reflexivity | exact Hl].
Qed.

Lemma command_handler_eq E e :
  command_handler E e = Some (write_response E (error_response_for e)).
Proof. unfold command_handler, error_response_for. destruct (exn_class e); reflexivity. Qed.

(** A silent operation followed by an answer, under the [except] clauses
    of the dispatcher: one line, however the operation ends. *)
Lemma one_line_dispatch E {A : Type} (op : M A) (answer : A -> M unit) :
  codec_ok E ->
  preserves (grows silent) op -> no_exit op ->
  (forall a, one_line (answer a)) ->
  one_line (try_except (bind op answer) (command_handler E)).
Proof.
  intros Hc Hs Hx Ha s r s' H. unfold try_except, bind in H.
  destruct (op s) as [[a|e|n] s1] eqn:Ho.
  - pose proof (grows_silent_lines _ _ (Hs _ _ _ Ho)) as Hl.
    destruct (answer a s1) as [ra s2] eqn:Hans.
    destruct (Ha a _ _ _ Hans) as [Hr Hl2].
    destruct Hr as [->|[n ->]]; inversion H; subst;
      (split; [tauto || (right; eexists; reflexivity) | congruence]).
  - rewrite command_handler_eq in H.
    pose proof (grows_silent_lines _ _ (Hs _ _ _ Ho)) as Hl.
    destruct (one_line_write E (error_response_for e) Hc _ _ _ H) as [Hr Hl2].
    split; [exact Hr | congruence].
  - exfalso. eapply Hx; [exact Ho | reflexivity].
Qed.

Lemma status_silent : preserves (grows silent) status.
Proof. unfold status. repeat respects_step. Qed.

Lemma status_no_exit : no_exit status.
Proof. unfold status. repeat no_exit_step. Qed.

(** Every command is answered with exactly one line. *)
Lemma handle_command_one_line E command : codec_ok E -> one_line (handle_command E command).
Proof.
  intros Hc. unfold handle_command. destruct command as [request| |request| |].
  - apply one_line_dispatch; [exact Hc | apply load_silent | apply load_no_exit |].
    intros _. apply one_line_write, Hc.
  - apply one_line_dispatch; [exact Hc | apply unload_silent | apply unload_no_exit |].
    intros _. apply one_line_write, Hc.
  - apply one_line_dispatch;
      [exact Hc | apply transcribe_silent | apply transcribe_no_exit |].
    intros result. apply one_line_write, Hc.
  - apply one_line_dispatch; [exact Hc | apply status_silent | apply status_no_exit |].
    intros st. apply one_line_write, Hc.
  - apply one_line_dispatch; [exact Hc | apply unload_silent | apply unload_no_exit |].
    intros _. apply one_line_write_exit, Hc.
Qed.

(** Decoding hands over a command and writes nothing, or writes one
    error line and hands over nothing. *)
Lemma decode_spec E line s :
  codec_ok E ->
  (exists command, decode E line s = (Val (Some command), s))
  \/ (exists s', decode E line s = (Val None, s')
                 /\ lines_written (trace s') = S (lines_written (trace s))).
Proof.
  intros Hc. unfold decode, try_except, bind, lift, ret.
  destruct (orjson_loads E line) as [payload|e].
  - destruct (parse_command E payload) as [command|e].
    + left. eexists. reflexivity.
    + right.
      destruct (exn_class e);
        match goal with
        | |- context [write_response E ?resp s] =>
            destruct (write_response_lines E resp s Hc) as (s2 & Hw & Hl); rewrite Hw
        end; eexists; (split; [reflexivity | exact Hl]).
  - right.
    destruct (exn_class e);
      match goal with
      | |- context [write_response E ?resp s] =>
          destruct (write_response_lines E resp s Hc) as (s2 & Hw & Hl); rewrite Hw
      end; eexists; (split; [reflexivity | exact Hl]).
Qed.

Lemma process_line_spec E raw_line s r s' :
  codec_ok E ->
  process_line E raw_line s = (r, s') ->
  (r = Val tt \/ exists n, r = Exit n)
  /\ lines_written (trace s')
     = ((if is_blank raw_line then 0 else 1) + lines_written (trace s))%nat.
Proof.
  intros Hc H. unfold process_line in H. unfold is_blank.
  destruct (String.eqb (strip raw_line) "").
  - inversion H; subst. split; [left; reflexivity | reflexivity].
  - unfold bind in H.
    destruct (decode_spec E (strip raw_line) s Hc) as [[command Hd]|(s1 & Hd & Hl)];
      rewrite Hd in H.
    + apply (handle_command_one_line E command Hc) in H. exact H.
    + inversion H; subst. split; [left; reflexivity | exact Hl].
Qed.

Lemma event_loop_lines E inputs :
  codec_ok E ->
  forall s r s',
    event_loop E inputs s = (r, s') ->
    (r = Val tt \/ exists n, r = Exit n)
    /\ exists consumed rest,
         inputs = (consumed ++ rest)%list
         /\ lines_written (trace s')
            = (nonblank_lines consumed + lines_written (trace s))%nat
         /\ (r = Val tt -> rest = []).
Proof.
  intros Hc. induction inputs as [|input inputs IH]; intros s r s' H; simpl in H.
  - inversion H; subst. split; [left; reflexivity|].
    exists [], []. repeat split; reflexivity.
  - destruct input as [raw_line|signum].
    + unfold bind in H.
      destruct (process_line E raw_line s) as [r1 s1] eqn:Hp.
      destruct (process_line_spec E raw_line s r1 s1 Hc Hp) as [Hr Hl].
      destruct Hr as [->|[n ->]].
      * destruct (IH _ _ _ H) as [Hr' (consumed & rest & -> & Hl' & Hrest)].
        split; [exact Hr'|].
        exists (Line raw_line :: consumed), rest.
        split; [reflexivity|]. split; [|exact Hrest].
        simpl. rewrite Hl', Hl. lia.
      * inversion H; subst. split; [right; eexists; reflexivity|].
        exists [Line raw_line], inputs.
        split; [reflexivity|]. split; [|discriminate].
        simpl. rewrite Hl. lia.
    + inversion H; subst. split; [right; eexists; reflexivity|].
      exists [], (Signal signum :: inputs).
      split; [reflexivity|]. split; [reflexivity | discriminate].
Qed.

(** C9.  With a codec whose fixed error response serialises and whose
    serialisations hold no line end, writing a response never fails and
    puts exactly one line on standard output: the serialisation of the
    response, or, when that raises, the serialisation of the fixed error
    response of code [serialisation_error].  Hence every line the loop
    reads adds exactly one line to the output if it is not blank, and
    none if it is, whether the command is decoded, rejected, served or
    failed; and the loop ends only by exhausting its input or by
    [SystemExit], never by an exception. *)
Theorem one_line_out_per_line_in (E : Env) :
  codec_ok E ->
  (forall response s,
     exists payload,
       payload_of E response = Ok payload
       /\ count_newlines (payload ++ newline) = 1%nat
       /\ write_response E response s
          = (Val tt, {| current := current s;
                        trace := (trace s ++ [EvStdout (payload ++ newline)])%list |}))
  /\ (forall response e,
        orjson_dumps E (model_dump response) = Raise e ->
        payload_of E response
        = orjson_dumps E
            (model_dump
               (ErrorResponse "serialisation_error" "Internal serialisation error" None)))
  /\ (forall raw_line s r s',
        process_line E raw_line s = (r, s') ->
        (r = Val tt \/ exists n, r = Exit n)
        /\ lines_written (trace s')
           = ((if is_blank raw_line then 0 else 1) + lines_written (trace s))%nat)
  /\ (forall inputs s r s',
        event_loop E inputs s = (r, s') ->
        (r = Val tt \/ exists n, r = Exit n)
        /\ exists consumed rest,
             inputs = (consumed ++ rest)%list
             /\ lines_written (trace s')
                = (nonblank_lines consumed + lines_written (trace s))%nat
             /\ (r = Val tt -> rest = [])).
Proof.
  intros Hc. split; [|split; [|split]].
  - intros response s. apply write_response_ok, Hc.
  - intros response e He. unfold payload_of. rewrite He. reflexivity.
  - intros raw_line s r s'. apply process_line_spec, Hc.
  - intros inputs. apply event_loop_lines, Hc.
Qed.

(** The short session on the concrete environment: four lines in, one
    of them blank, three lines out. *)
Lemma one_line_out_per_line_in_witness :
  lines_written (trace (snd (event_loop Demo.env Demo.session initial))) = 3%nat.
Proof.
  destruct (proj2 (proj2 (proj2 (one_line_out_per_line_in Demo.env demo_codec_ok)))
              Demo.session initial
              (fst (event_loop Demo.env Demo.session initial))
              (snd (event_loop Demo.env Demo.session initial)))
    as [_ (consumed & rest & Hsplit & Hlines & Hrest)].
  - destruct (event_loop Demo.env Demo.session initial). reflexivity.
  - rewrite Hlines.
    assert (Hr : rest = []) by (apply Hrest; vm_compute; reflexivity).
    subst rest. rewrite app_nil_r in Hsplit. subst consumed. vm_compute. reflexivity.
Defined.

(** ** A shutdown whose release fails *)

Lemma decode_command E line s payload command :
  orjson_loads E line = Ok payload ->
  parse_command E payload = Ok command ->
  decode E line s = (Val (Some command), s).
Proof.
  intros Hl Hp. unfold decode, try_except, bind, lift, ret. rewrite Hl, Hp. reflexivity.
Qed.

(** C10.  When a model is loaded and its [close] raises while a shutdown
    command is handled, the slot is cleared, the dispatcher writes the
    error response that goes with the exception and no [ok], the command
    returns instead of leaving the process, and the loop goes on with
    the lines that follow. *)
Theorem shutdown_with_failing_release (E : Env) (s : State) (c : LoadedModel.t) (e : Exn) :
  codec_ok E ->
  current s = Some c ->
  model_method (LoadedModel.instance c) "close" = Some (Raise e) ->
  exists payload,
    is_error (error_response_for e)
    /\ payload_of E (error_response_for e) = Ok payload
    /\ handle_command E Shutdown s
       = (Val tt,
          {| current := None;
             trace := (trace s ++ [EvMethod "close"; EvStdout (payload ++ newline)])%list |})
    /\ (forall raw_line rest request,
          is_blank raw_line = false ->
          orjson_loads E (strip raw_line) = Ok request ->
          parse_command E request = Ok Shutdown ->
          event_loop E (Line raw_line :: rest) s
          = event_loop E rest
              {| current := None;
                 trace := (trace s
                           ++ [EvMethod "close"; EvStdout (payload ++ newline)])%list |}).
Proof.
  intros Hc Hcur Hclose.
  pose proof (unload_release_raises s c e Hcur Hclose) as Hu.
  pose proof (handle_shutdown_failure E s _ e Hu) as Hh.
  destruct (write_response_ok E (error_response_for e)
              {| current := None; trace := (trace s ++ [EvMethod "close"])%list |} Hc)
    as (payload & Hp & _ & Hw).
  simpl in Hw. rewrite <- app_assoc in Hw. simpl in Hw.
  rewrite Hw in Hh.
  exists payload. split; [apply error_response_is_error|].
  split; [exact Hp|]. split; [exact Hh|].
  intros raw_line rest request Hb Hl Hparse.
  cbn [event_loop]. unfold bind at 1. unfold process_line.
  unfold is_blank in Hb. rewrite Hb.
  unfold bind at 1. rewrite (decode_command E _ s request Shutdown Hl Hparse).
  rewrite Hh. reflexivity.
Qed.

(** The model whose [close] raises, a shutdown command and a status
    query after it: the query is still read. *)
Lemma shutdown_with_failing_release_witness :
  exists payload,
    payload_of Demo.env (error_response_for (exn RuntimeError "device busy")) = Ok payload
    /\ handle_command Demo.env Shutdown (Demo.holding "/models/sticky" Demo.sticky)
       = (Val tt,
          {| current := None;
             trace := (trace (Demo.holding "/models/sticky" Demo.sticky)
                       ++ [EvMethod "close"; EvStdout (payload ++ newline)])%list |})
    /\ event_loop Demo.env
         [Line (Demo.line_of Demo.shutdown_payload); Line (Demo.line_of Demo.status_payload)]
         (Demo.holding "/models/sticky" Demo.sticky)
       = event_loop Demo.env [Line (Demo.line_of Demo.status_payload)]
           {| current := None;
              trace := (trace (Demo.holding "/models/sticky" Demo.sticky)
                        ++ [EvMethod "close"; EvStdout (payload ++ newline)])%list |}.
Proof.
  destruct (shutdown_with_failing_release Demo.env
              (Demo.holding "/models/sticky" Demo.sticky)
              (new_state (Demo.request_with bf16 full (Some "/models/sticky"))
                         (Path.of_string "/models/sticky") Demo.sticky Demo.signature)
              (exn RuntimeError "device busy")
              demo_codec_ok eq_refl eq_refl)
    as (payload & _ & Hp & Hh & Hloop).
  exists payload. split; [exact Hp|]. split; [exact Hh|].
  apply (Hloop (Demo.line_of Demo.shutdown_payload)
               [Line (Demo.line_of Demo.status_payload)]
               Demo.shutdown_payload).
  - vm_compute. reflexivity.
  - vm_compute. reflexivity.
  - vm_compute. reflexivity.
Defined.

(** * Further properties of the code *)

(** ** Decoding: the discriminant and the validators *)

Lemma preserves_snd (R : State -> State -> Prop) {A : Type} (m : M A) s :
  preserves R m -> R s (snd (m s)).
Proof. intros H. destruct (m s) as [r s'] eqn:Hm. simpl. eapply H, Hm. Qed.

Lemma model_validate_inv {A : Type} E cls (validate : list (string * PyVal) -> option A)
    payload request :
  model_validate E cls validate payload = Ok request ->
  exists fields, payload = PDict fields /\ validate fields = Some request.
Proof.
  unfold model_validate. destruct payload; simpl; try discriminate.
  destruct (validate kvs) as [r|] eqn:Hv; [|discriminate].
  intros H. inversion H; subst. eexists. split; [reflexivity | exact Hv].
Qed.

Lemma is_str_eq v s : is_str v s = true -> v = PStr s.
Proof.
  destruct v; simpl; try discriminate. intros H. apply String.eqb_eq in H. congruence.
Qed.

(** X1.  A command is only ever decoded from a mapping whose [type] is
    the discriminant of that very command: there is no default variant. *)
Theorem parse_command_discriminant (E : Env) (payload : PyVal) (command : CommandRequest) :
  parse_command E payload = Ok command ->
  exists fields,
    payload = PDict fields
    /\ assoc "type" fields = Some (PStr (command_name command)).
Proof.
  unfold parse_command. intros H.
  destruct (contains_type payload) as [[]|e] eqn:Hc; try discriminate.
  destruct (getitem_type payload) as [msg_type|e] eqn:Hg; [|discriminate].
  assert (Hd : exists fields, payload = PDict fields /\ assoc "type" fields = Some msg_type).
  { destruct payload; simpl in Hg; try discriminate.
    destruct (assoc "type" kvs) as [v|] eqn:Ha; [|discriminate].
    inversion Hg; subst. eexists. split; reflexivity || exact Ha. }
  destruct Hd as (fields & -> & Ht). exists fields. split; [reflexivity|].
  rewrite Ht. f_equal.
  destruct (is_str msg_type "load_model") eqn:H1.
  { apply is_str_eq in H1. subst.
    destruct (model_validate E "LoadModelRequest" _ _); inversion H. reflexivity. }
  destruct (is_str msg_type "unload_model") eqn:H2.
  { apply is_str_eq in H2. subst.
    apply model_validate_inv in H as (f & _ & Hf). inversion Hf. reflexivity. }
  destruct (is_str msg_type "transcribe") eqn:H3.
  { apply is_str_eq in H3. subst.
    destruct (model_validate E "TranscribeRequest" _ _); inversion H. reflexivity. }
  destruct (is_str msg_type "status") eqn:H4.
  { apply is_str_eq in H4. subst.
    apply model_validate_inv in H as (f & _ & Hf). inversion Hf. reflexivity. }
  destruct (is_str msg_type "shutdown") eqn:H5.
  { apply is_str_eq in H5. subst.
    apply model_validate_inv in H as (f & _ & Hf). inversion Hf. reflexivity. }
  discriminate.
Qed.

Lemma parse_command_discriminant_witness :
  exists fields,
    Demo.status_payload = PDict fields
    /\ assoc "type" fields = Some (PStr (command_name Status)).
Proof.
  apply (parse_command_discriminant Demo.env Demo.status_payload Status). reflexivity.
Defined.

Lemma lab_codec_ok : codec_ok Lab.env.
Proof.
  split.
  - eexists. vm_compute. reflexivity.
  - intros v payload H. simpl in H. unfold Demo.dumps_json in H.
    destruct (Demo.json v) as [t|] eqn:Hj; [|discriminate].
    inversion H; subst. eapply json_no_newline, Hj.
Qed.

(** A line whose payload [parse_command] rejects with a [ValueError] is
    answered with a parse error that carries the message. *)
Lemma process_line_value_error E raw_line payload message s :
  is_blank raw_line = false ->
  orjson_loads E (strip raw_line) = Ok payload ->
  parse_command E payload = Raise (exn ValueError message) ->
  process_line E raw_line s
  = write_response E (ErrorResponse "parse_error" message None) s.
Proof.
  intros Hb Hl Hp. unfold process_line. unfold is_blank in Hb. rewrite Hb.
  unfold decode, try_except. unfold bind at 2. unfold lift at 1. rewrite Hl.
  unfold bind at 2. unfold lift at 1. rewrite Hp.
  unfold bind. simpl.
  destruct (write_response E (ErrorResponse "parse_error" message None) s)
    as [[[]|e|n] s']; reflexivity.
Qed.

Lemma parse_command_missing_type E fields :
  assoc "type" fields = None ->
  parse_command E (PDict fields) = Raise (exn ValueError "Missing 'type' in message payload").
Proof. intros H. unfold parse_command, contains_type. rewrite H. reflexivity. Qed.

Lemma parse_command_unknown_type E fields msg_type :
  assoc "type" fields = Some msg_type ->
  known_type msg_type = false ->
  parse_command E (PDict fields)
  = Raise (exn ValueError ("Unknown message type: " ++ py_str E msg_type)).
Proof.
  intros H Hk. unfold parse_command, contains_type, getitem_type. rewrite H. simpl.
  unfold known_type in Hk.
  repeat (apply orb_false_iff in Hk as [Hk ?]).
  repeat match goal with H : is_str _ _ = false |- _ => rewrite H; clear H end.
  reflexivity.
Qed.

(** With a sound codec, a line whose processing equals writing a
    response is answered with it, and the loop goes on. *)
Lemma line_answered_intro E response raw_line s :
  codec_ok E ->
  process_line E raw_line s = write_response E response s ->
  line_answered E response raw_line s.
Proof.
  intros Hc H. destruct (write_response_ok E response s Hc) as (payload & Hp & _ & Hw).
  exists payload. split; [exact Hp|]. rewrite Hw in H. split; [exact H|].
  intros rest. simpl. unfold bind. rewrite H. reflexivity.
Qed.

(** X2.  With a sound codec, a line that decodes to a mapping without a
    [type], or with a [type] that is none of the five, is answered with
    a [parse_error] response that says so: processing the line returns
    after writing that one line to standard output, nothing else
    happens, and the loop reads on. *)
Theorem missing_or_unknown_type_is_parse_error (E : Env) (raw_line : string)
    (fields : list (string * PyVal)) (s : State) :
  codec_ok E ->
  is_blank raw_line = false ->
  orjson_loads E (strip raw_line) = Ok (PDict fields) ->
  (assoc "type" fields = None ->
   line_answered E (ErrorResponse "parse_error" "Missing 'type' in message payload" None)
     raw_line s)
  /\ (forall msg_type,
        assoc "type" fields = Some msg_type ->
        known_type msg_type = false ->
        line_answered E
          (ErrorResponse "parse_error" ("Unknown message type: " ++ py_str E msg_type) None)
          raw_line s).
Proof.
  intros Hc Hb Hl. split.
  - intros Ht. apply line_answered_intro; [exact Hc|].
    eapply process_line_value_error; [exact Hb | exact Hl |].
    apply parse_command_missing_type, Ht.
  - intros msg_type Ht Hk. apply line_answered_intro; [exact Hc|].
    eapply process_line_value_error; [exact Hb | exact Hl |].
    apply parse_command_unknown_type; assumption.
Qed.

Lemma missing_or_unknown_type_is_parse_error_witness :
  line_answered Lab.env
    (ErrorResponse "parse_error" "Missing 'type' in message payload" None)
    (Demo.line_of Lab.typeless_payload) initial
  /\ line_answered Lab.env
       (ErrorResponse "parse_error" "Unknown message type: reload" None)
       (Demo.line_of Lab.unknown_payload) Demo.loaded.
Proof.
  split.
  - apply (proj1 (missing_or_unknown_type_is_parse_error Lab.env
                    (Demo.line_of Lab.typeless_payload)
                    [("model_id", PStr "parakeet")] initial lab_codec_ok eq_refl eq_refl)).
    reflexivity.
  - apply (proj2 (missing_or_unknown_type_is_parse_error Lab.env
                    (Demo.line_of Lab.unknown_payload)
                    [("type", PStr "reload")] Demo.loaded lab_codec_ok eq_refl eq_refl)
             (PStr "reload")).
    + reflexivity.
    + reflexivity.
Defined.

(** What [parse_command] has checked when it returns: the payload is a
    mapping whose fields passed the schema of the command. *)
Lemma parse_command_inv E payload command :
  parse_command E payload = Ok command ->
  exists fields,
    payload = PDict fields
    /\ match command with
       | LoadModel request => LoadModelRequest_fields E fields = Some request
       | Transcribe request => TranscribeRequest_fields E fields = Some request
       | _ => True
       end.
Proof.
  unfold parse_command. intros H.
  destruct (contains_type payload) as [[]|e]; try discriminate.
  destruct (getitem_type payload) as [msg_type|e]; [|discriminate].
  destruct (is_str msg_type "load_model").
  { destruct (model_validate E "LoadModelRequest" _ _) as [r|] eqn:Hv; inversion H; subst.
    apply model_validate_inv in Hv. exact Hv. }
  destruct (is_str msg_type "unload_model").
  { apply model_validate_inv in H as (f & -> & Hf). inversion Hf. eexists. split; eauto. }
  destruct (is_str msg_type "transcribe").
  { destruct (model_validate E "TranscribeRequest" _ _) as [r|] eqn:Hv; inversion H; subst.
    apply model_validate_inv in Hv. exact Hv. }
  destruct (is_str msg_type "status").
  { apply model_validate_inv in H as (f & -> & Hf). inversion Hf. eexists. split; eauto. }
  destruct (is_str msg_type "shutdown").
  { apply model_validate_inv in H as (f & -> & Hf). inversion Hf. eexists. split; eauto. }
  discriminate.
Qed.

(** One step of a chain of field validations that returned. *)
Ltac bind_step H :=
  match type of H with
  | (?o ≫= _) = Some _ =>
      let x := fresh "x" in
      let Hx := fresh "Hx" in
      destruct o as [x|] eqn:Hx; [simpl in H | discriminate H]
  end.

Lemma parse_load_model E fields (validated : option LoadModelRequest.t) :
  assoc "type" fields = Some (PStr "load_model") ->
  LoadModelRequest_fields E fields = validated ->
  parse_command E (PDict fields)
  = match validated with
    | Some request => Ok (LoadModel request)
    | None => Raise (pydantic_error E "LoadModelRequest" (PDict fields))
    end.
Proof.
  intros Ht Hv. unfold parse_command, contains_type, getitem_type. rewrite Ht. simpl.
  unfold model_validate. simpl. rewrite Hv. destruct validated; reflexivity.
Qed.

Lemma parse_transcribe E fields (validated : option TranscribeRequest.t) :
  assoc "type" fields = Some (PStr "transcribe") ->
  TranscribeRequest_fields E fields = validated ->
  parse_command E (PDict fields)
  = match validated with
    | Some request => Ok (Transcribe request)
    | None => Raise (pydantic_error E "TranscribeRequest" (PDict fields))
    end.
Proof.
  intros Ht Hv. unfold parse_command, contains_type, getitem_type. rewrite Ht. simpl.
  unfold model_validate. simpl. rewrite Hv. destruct validated; reflexivity.
Qed.

(** X3.  Every load request that is decoded carries a positive
    [local_attention_context], and a payload that gives an integer that
    is not positive is rejected with the validation error of the schema,
    whatever its other fields. *)
Theorem load_request_context_is_positive (E : Env) :
  (forall payload request,
     parse_command E payload = Ok (LoadModel request) ->
     0 < LoadModelRequest.local_attention_context request)
  /\ (forall fields v z,
        assoc "type" fields = Some (PStr "load_model") ->
        assoc "local_attention_context" fields = Some v ->
        as_int E v = Some z ->
        z <= 0 ->
        parse_command E (PDict fields)
        = Raise (pydantic_error E "LoadModelRequest" (PDict fields))).
Proof.
  split.
  - intros payload request H.
    apply parse_command_inv in H as (fields & _ & H).
    unfold LoadModelRequest_fields in H.
    do 9 bind_step H. inversion H; subst; clear H. simpl.
    match goal with
    | Hc : field_or fields "local_attention_context" _ _ = Some ?c |- 0 < ?c =>
        unfold field_or in Hc;
        destruct (assoc "local_attention_context" fields) as [v|];
        [ destruct (as_int E v) as [z|]; simpl in Hc; [|discriminate];
          unfold _validate_context in Hc;
          destruct (Z.leb_spec z 0); inversion Hc; lia
        | inversion Hc; lia ]
    end.
  - intros fields v z Ht Hf Hi Hz.
    rewrite (parse_load_model E fields None Ht); [reflexivity|].
    unfold LoadModelRequest_fields.
    assert (Hc : field_or fields "local_attention_context"
                   (fun v => as_int E v ≫= _validate_context) 256 = None).
    { unfold field_or. rewrite Hf, Hi. simpl. unfold _validate_context.
      destruct (Z.leb_spec z 0); [reflexivity | lia]. }
    rewrite Hc.
    repeat match goal with
           | |- (?o ≫= _) = None => destruct o; simpl; [|reflexivity]
           end.
    reflexivity.
Qed.

Lemma load_request_context_is_positive_witness :
  0 < LoadModelRequest.local_attention_context Demo.request
  /\ parse_command Lab.env Lab.bad_context_payload
     = Raise (pydantic_error Lab.env "LoadModelRequest" Lab.bad_context_payload).
Proof.
  split.
  - apply (proj1 (load_request_context_is_positive Demo.env) Demo.load_payload).
    reflexivity.
  - apply (proj2 (load_request_context_is_positive Lab.env)
             [ ("type", PStr "load_model"); ("model_id", PStr "parakeet");
               ("local_attention_context", PInt 0) ]
             (PInt 0) 0).
    + reflexivity.
    + reflexivity.
    + reflexivity.
    + lia.
Defined.

(** X4.  Every transcribe request that is decoded names an audio path
    that is not empty; a payload without [audio_path], or with one that
    pydantic reads as the empty string, is rejected with the validation
    error of the schema. *)
Theorem transcribe_request_audio_path_not_empty (E : Env) :
  (forall payload request,
     parse_command E payload = Ok (Transcribe request) ->
     TranscribeRequest.audio_path request <> "")
  /\ (forall fields,
        assoc "type" fields = Some (PStr "transcribe") ->
        (assoc "audio_path" fields = None
         \/ exists v, assoc "audio_path" fields = Some v /\ as_str E v = Some "") ->
        parse_command E (PDict fields)
        = Raise (pydantic_error E "TranscribeRequest" (PDict fields))).
Proof.
  split.
  - intros payload request H.
    apply parse_command_inv in H as (fields & _ & H).
    unfold TranscribeRequest_fields in H.
    do 9 bind_step H. inversion H; subst; clear H. simpl.
    match goal with
    | Ha : assoc "audio_path" fields ≫= _ = Some ?a |- ?a <> "" =>
        destruct (assoc "audio_path" fields) as [v|]; simpl in Ha; [|discriminate];
        destruct (as_str E v) as [text|]; simpl in Ha; [|discriminate];
        unfold _check_audio_path in Ha;
        destruct (String.eqb_spec text ""); inversion Ha; subst; assumption
    end.
  - intros fields Ht Ha.
    rewrite (parse_transcribe E fields None Ht); [reflexivity|].
    unfold TranscribeRequest_fields.
    destruct Ha as [Ha | (v & Ha & Hs)]; rewrite Ha; simpl; [reflexivity|].
    rewrite Hs. reflexivity.
Qed.

Lemma transcribe_request_audio_path_not_empty_witness :
  TranscribeRequest.audio_path (default_transcribe_request "/audio/hello.wav") <> ""
  /\ parse_command Lab.env Lab.empty_audio_payload
     = Raise (pydantic_error Lab.env "TranscribeRequest" Lab.empty_audio_payload).
Proof.
  split.
  - apply (proj1 (transcribe_request_audio_path_not_empty Lab.env) Lab.transcribe_payload).
    reflexivity.
  - apply (proj2 (transcribe_request_audio_path_not_empty Lab.env)
             [ ("type", PStr "transcribe"); ("audio_path", PStr "") ]).
    + reflexivity.
    + right. exists (PStr ""). split; reflexivity.
Defined.

Lemma field_or_absent {A : Type} fields name (validate : PyVal -> option A) dflt :
  assoc name fields = None -> field_or fields name validate dflt = Some dflt.
Proof. intros H. unfold field_or. rewrite H. reflexivity. Qed.

(** X5.  A payload that gives only the required field is completed with
    the defaults of the schema: a load request gets [bf16], [full], a
    context of 256, chunks of 120 s with 15 s overlap and no eager
    unload; a transcribe request gets word timestamps on, translation
    off and nothing else. *)
Theorem omitted_fields_take_defaults (E : Env) :
  (forall fields v model_id,
     assoc "type" fields = Some (PStr "load_model") ->
     assoc "model_id" fields = Some v ->
     as_str E v = Some model_id ->
     all_absent fields
       [ "local_path"; "cache_dir"; "precision"; "attention"; "local_attention_context";
         "chunk_duration"; "overlap_duration"; "eager_unload" ] ->
     parse_command E (PDict fields) = Ok (LoadModel (default_load_request model_id)))
  /\ (forall fields v audio_path,
        assoc "type" fields = Some (PStr "transcribe") ->
        assoc "audio_path" fields = Some v ->
        as_str E v = Some audio_path ->
        audio_path <> "" ->
        all_absent fields
          [ "language"; "translate_to_english"; "prompt"; "use_word_timestamps";
            "chunk_duration"; "overlap_duration"; "attention"; "local_attention_context" ] ->
        parse_command E (PDict fields)
        = Ok (Transcribe (default_transcribe_request audio_path))).
Proof.
  split.
  - intros fields v text Ht Hm Hs Habs.
    rewrite (parse_load_model E fields (Some (default_load_request text)) Ht); [reflexivity|].
    unfold all_absent in Habs. rewrite !Forall_cons in Habs.
    destruct Habs as (H1 & H2 & H3 & H4 & H5 & H6 & H7 & H8 & _).
    unfold LoadModelRequest_fields. rewrite Hm. simpl. rewrite Hs. simpl.
    rewrite !field_or_absent by assumption. reflexivity.
  - intros fields v text Ht Ha Hs Hne Habs.
    rewrite (parse_transcribe E fields (Some (default_transcribe_request text)) Ht);
      [reflexivity|].
    unfold all_absent in Habs. rewrite !Forall_cons in Habs.
    destruct Habs as (H1 & H2 & H3 & H4 & H5 & H6 & H7 & H8 & _).
    unfold TranscribeRequest_fields. rewrite Ha. simpl. rewrite Hs. simpl.
    unfold _check_audio_path. destruct (String.eqb_spec text ""); [contradiction|]. simpl.
    rewrite !field_or_absent by assumption. reflexivity.
Qed.

Lemma omitted_fields_take_defaults_witness :
  parse_command Lab.env Demo.load_payload = Ok (LoadModel (default_load_request "parakeet"))
  /\ parse_command Lab.env Lab.transcribe_payload
     = Ok (Transcribe (default_transcribe_request "/audio/hello.wav")).
Proof.
  split.
  - apply (proj1 (omitted_fields_take_defaults Lab.env)
             [ ("type", PStr "load_model"); ("model_id", PStr "parakeet") ]
             (PStr "parakeet") "parakeet").
    + reflexivity.
    + reflexivity.
    + reflexivity.
    + repeat constructor.
  - apply (proj2 (omitted_fields_take_defaults Lab.env)
             [ ("type", PStr "transcribe"); ("audio_path", PStr "/audio/hello.wav") ]
             (PStr "/audio/hello.wav") "/audio/hello.wav").
    + reflexivity.
    + reflexivity.
    + reflexivity.
    + discriminate.
    + repeat constructor.
Defined.

(** ** The manager: unloading and the status that follows *)

(** X6.  Unloading twice is unloading once: whatever the first unload
    did, and even when [close] raised, a second one returns at once and
    changes nothing.  On an empty slot an unload is such a step.  An
    unload calls [close] at most once and nothing else. *)
Theorem unload_is_idempotent (s : State) :
  unload (snd (unload s)) = (Val tt, snd (unload s))
  /\ (current s = None -> unload s = (Val tt, s))
  /\ (trace (snd (unload s)) = trace s
      \/ trace (snd (unload s)) = (trace s ++ [EvMethod "close"])%list).
Proof.
  split; [|split].
  - rewrite (unload_eq (snd (unload s))), unload_clears. reflexivity.
  - intros Hc. rewrite unload_eq, Hc. reflexivity.
  - rewrite unload_eq. destruct (current s) as [c|]; [|left; reflexivity].
    destruct (model_method (LoadedModel.instance c) "close") as [[[]|e]|]; simpl; auto.
Qed.

(** A command whose operation returns is answered by its answer, one
    whose operation raises by the error response of the exception. *)
Lemma dispatch_Val E {A : Type} (op : M A) (answer : A -> M unit) s a s1 :
  op s = (Val a, s1) ->
  (forall e s2, answer a s1 <> (Exc e, s2)) ->
  try_except (bind op answer) (command_handler E) s = answer a s1.
Proof.
  intros Ho Ha. unfold try_except, bind. rewrite Ho.
  destruct (answer a s1) as [[u|e|n] s2] eqn:Hans; try reflexivity.
  exfalso. eapply Ha. reflexivity.
Qed.


Lemma write_response_returns E response s :
  codec_ok E -> forall e s2, write_response E response s <> (Exc e, s2).
Proof.
  intros Hc e s2. destruct (write_response_ok E response s Hc) as (p & _ & _ & Hw).
  rewrite Hw. discriminate.
Qed.

Lemma handle_unload_slot E s : current (snd (handle_command E UnloadModel s)) = None.
Proof.
  pose proof (unload_clears s) as Hu.
  unfold handle_command, try_except, bind.
  destruct (unload s) as [[[]|e|n] s1]; simpl in Hu.
  - destruct (write_response E (OkResponse "unload_model" []) s1) as [[u|e|n] s2] eqn:Hw.
    + simpl. rewrite (write_response_same_slot _ _ _ _ _ Hw). exact Hu.
    + rewrite command_handler_eq.
      destruct (write_response E (error_response_for e) s2) as [r s3] eqn:Hw2. simpl.
      rewrite (write_response_same_slot _ _ _ _ _ Hw2),
              (write_response_same_slot _ _ _ _ _ Hw).
      exact Hu.
    + simpl. rewrite (write_response_same_slot _ _ _ _ _ Hw). exact Hu.
  - rewrite command_handler_eq.
    destruct (write_response E (error_response_for e) s1) as [r s3] eqn:Hw2. simpl.
    rewrite (write_response_same_slot _ _ _ _ _ Hw2). exact Hu.
  - exact Hu.
Qed.

(** X7.  With a sound codec, after an unload command a status command
    is answered with no model, path, precision or attention, also when
    closing the model failed and the unload command was answered with an
    error: the status command returns after writing that one line to
    standard output, and does nothing else. *)
Theorem status_after_unload_command (E : Env) (s : State) :
  codec_ok E ->
  current (snd (handle_command E UnloadModel s)) = None
  /\ answers E (StatusResponse None None None None)
       (handle_command E Status) (snd (handle_command E UnloadModel s)).
Proof.
  intros Hc. pose proof (handle_unload_slot E s) as Hs. split; [exact Hs|].
  apply answers_intro; [exact Hc|].
  set (s1 := snd (handle_command E UnloadModel s)) in *.
  unfold handle_command.
  rewrite (dispatch_Val E status _ s1
             {| StatusDict.loaded_model := None; StatusDict.model_path := None;
                StatusDict.precision := None; StatusDict.attention := None |} s1).
  - reflexivity.
  - unfold status, bind, get_current. rewrite Hs. reflexivity.
  - apply write_response_returns, Hc.
Qed.

Lemma status_after_unload_command_witness :
  current (snd (handle_command Demo.env UnloadModel
                  (Demo.holding "/models/sticky" Demo.sticky))) = None
  /\ answers Demo.env (StatusResponse None None None None)
       (handle_command Demo.env Status)
       (snd (handle_command Demo.env UnloadModel
               (Demo.holding "/models/sticky" Demo.sticky))).
Proof.
  apply (status_after_unload_command Demo.env (Demo.holding "/models/sticky" Demo.sticky)).
  exact demo_codec_ok.
Defined.

(** ** The manager: what a load does to the outside *)

Lemma preserves_bind_val (R : State -> State -> Prop) {A B : Type}
    (m : M A) (k : A -> M B) :
  (forall s, R s s) ->
  (forall s1 s2 s3, R s1 s2 -> R s2 s3 -> R s1 s3) ->
  preserves R m ->
  (forall a s s1, m s = (Val a, s1) -> preserves R (k a)) ->
  preserves R (bind m k).
Proof.
  intros R_refl R_trans Hm Hk s r s' H. unfold bind in H.
  destruct (m s) as [[a|e|n] s1] eqn:Em.
  - eapply R_trans; [eapply Hm, Em | eapply Hk; [exact Em | exact H]].
  - inversion H; subst. eapply Hm, Em.
  - inversion H; subst. eapply Hm, Em.
Qed.

Lemma resolve_events E request :
  preserves (grows (load_event request)) (_resolve_model_path E request).
Proof.
  unfold _resolve_model_path.
  destruct (opt_str_truthy (LoadModelRequest.local_path request)) eqn:Hl.
  - repeat respects_step.
  - apply preserves_bind; [apply grows_trans | |].
    + apply grows_call. simpl. rewrite Hl. unfold download_dir. repeat split.
    + intros path_str. apply preserves_ret, grows_refl.
Qed.

Lemma resolve_local_path E request s p s1 :
  _resolve_model_path E request s = (Val p, s1) ->
  opt_str_truthy (LoadModelRequest.local_path request) = true ->
  p = Path.of_string (default "" (LoadModelRequest.local_path request)).
Proof.
  intros H Hl. unfold _resolve_model_path in H. rewrite Hl in H.
  destruct (negb (path_exists E _)); inversion H. reflexivity.
Qed.

Lemma apply_first_method_events request model names :
  (forall name, In name names -> In name (method_map (LoadModelRequest.precision request))) ->
  preserves (grows (load_event request)) (apply_first_method model names).
Proof.
  induction names as [|name rest IH]; intros Hn; simpl.
  - apply preserves_ret, grows_refl.
  - destruct (model_method model name) as [outcome|].
    + apply grows_call. simpl. apply Hn. left. reflexivity.
    + apply IH. intros n Hin. apply Hn. right. exact Hin.
Qed.

Lemma attention_events request model :
  preserves (grows (load_event request))
    (_configure_attention model (LoadModelRequest.attention request)
                          (LoadModelRequest.local_attention_context request)).
Proof.
  unfold _configure_attention.
  apply preserves_try_except; [apply grows_trans | |].
  - destruct (LoadModelRequest.attention request) eqn:Ha,
             (set_attention_model model) as [setter|];
      try (apply preserves_ret, grows_refl);
      apply grows_call; simpl; rewrite Ha; split; reflexivity.
  - intros e h Hh. inversion Hh. apply preserves_ret, grows_refl.
Qed.

Lemma load_events E request : preserves (grows (load_event request)) (load E request).
Proof.
  unfold load.
  apply preserves_bind; [apply grows_trans | apply preserves_get_current, grows_refl |].
  intros cur. destruct (if can_reuse cur request then cur else None) as [c|].
  { apply preserves_ret, grows_refl. }
  apply preserves_bind_val; [apply grows_refl | apply grows_trans | apply resolve_events |].
  intros p s0 s1 Hp.
  apply preserves_bind; [apply grows_trans | |].
  { apply grows_call. simpl. intros Hl. eapply resolve_local_path; eassumption. }
  intros model.
  apply preserves_bind; [apply grows_trans | |].
  { apply apply_first_method_events. auto. }
  intros _.
  apply preserves_bind; [apply grows_trans | apply attention_events |].
  intros _.
  apply preserves_bind; [apply grows_trans | apply preserves_lift, grows_refl |].
  intros params.
  apply preserves_bind; [apply grows_trans | apply grows_set_current |].
  intros _. apply preserves_ret, grows_refl.
Qed.

(** X8.  All a load does to the outside, however it ends, is among:
    downloading the requested repository into the requested cache
    directory, and only when the request has no local path; instantiating
    the model, from the local path when there is one; calling a precision
    method of the requested precision; setting the requested attention,
    with the requested context on both sides when it is local.  Hence a
    load never calls [close] on the model it replaces, never invokes a
    model, writes nothing to standard output, and with a local path
    downloads nothing. *)
Theorem load_touches_only_loading_collaborators (E : Env) (request : LoadModelRequest.t)
    (s : State) :
  exists evs,
    trace (snd (load E request s)) = (trace s ++ evs)%list
    /\ Forall (load_event request) evs
    /\ ~ In (EvMethod "close") evs
    /\ Forall silent evs
    /\ Forall (fun ev => ~ is_invocation ev) evs
    /\ (opt_str_truthy (LoadModelRequest.local_path request) = true ->
        Forall (fun ev => ~ is_download ev) evs).
Proof.
  destruct (preserves_snd _ _ s (load_events E request)) as (evs & Ht & Hev).
  exists evs. split; [exact Ht|]. split; [exact Hev|].
  rewrite Forall_forall in Hev.
  split; [|split; [|split]].
  - intros Hin. apply list_elem_of_In, Hev in Hin. simpl in Hin.
    destruct (LoadModelRequest.precision request); simpl in Hin;
      repeat destruct Hin as [Hin|Hin]; try discriminate; exact Hin.
  - apply Forall_forall. intros ev Hin Hs. apply Hev in Hin. destruct ev; exact Hs || exact Hin.
  - apply Forall_forall. intros ev Hin Hs. apply Hev in Hin. destruct ev; exact Hs || exact Hin.
  - intros Hl. apply Forall_forall. intros ev Hin Hs. apply Hev in Hin.
    destruct ev; try exact Hs. simpl in Hin. destruct Hin as [Hin _]. congruence.
Qed.

Lemma after_nil s : after s [] = s.
Proof. destruct s as [c t]. unfold after. simpl. rewrite app_nil_r. reflexivity. Qed.

Lemma apply_first_method_eq model names s :
  apply_first_method model names s
  = (match first_method_outcome model names with
     | Ok _ => Val tt
     | Raise e => Exc e
     end,
     after s match first_available model names with
             | Some name => [EvMethod name]
             | None => []
             end).
Proof.
  induction names as [|name rest IH]; simpl.
  - rewrite after_nil. reflexivity.
  - destruct (model_method model name) as [[[]|e]|]; [reflexivity | reflexivity | exact IH].
Qed.

Lemma first_available_spec model names :
  match first_available model names with
  | Some name =>
      exists before rest,
        names = (before ++ name :: rest)%list
        /\ (forall n, In n before -> model_method model n = None)
        /\ model_method model name <> None
  | None => forall n, In n names -> model_method model n = None
  end.
Proof.
  induction names as [|name rest IH]; simpl.
  - intros n [].
  - destruct (model_method model name) as [outcome|] eqn:Hm.
    + exists [], rest. split; [reflexivity|]. split; [intros n []|]. congruence.
    + destruct (first_available model rest) as [found|].
      * destruct IH as (before & rest' & -> & Hb & Hf).
        exists (name :: before), rest'. split; [reflexivity|]. split; [|exact Hf].
        intros n [<-|Hin]; [exact Hm | apply Hb, Hin].
      * intros n [<-|Hin]; [exact Hm | apply IH, Hin].
Qed.

(** X9.  Configuring the precision calls one method at most: the first
    of [to_bf16], [to_bfloat16] (or of [to_float32], [to_fp32]) that the
    model has, the methods after it being left alone; it ends as that
    call ends.  With none of them it does nothing and returns. *)
Theorem precision_calls_first_available_method (model : Model) (precision : Precision)
    (s : State) :
  match first_available model (method_map precision) with
  | Some name =>
      exists before rest outcome,
        method_map precision = (before ++ name :: rest)%list
        /\ (forall n, In n before -> model_method model n = None)
        /\ model_method model name = Some outcome
        /\ _configure_precision model precision s
           = (match outcome with Ok _ => Val tt | Raise e => Exc e end,
              after s [EvMethod name])
  | None =>
      (forall n, In n (method_map precision) -> model_method model n = None)
      /\ _configure_precision model precision s = (Val tt, s)
  end.
Proof.
  unfold _configure_precision. rewrite apply_first_method_eq.
  pose proof (first_available_spec model (method_map precision)) as Hspec.
  destruct (first_available model (method_map precision)) as [name|] eqn:Hf.
  - destruct Hspec as (before & rest & Hm & Hb & Hn).
    destruct (model_method model name) as [outcome|] eqn:Ho; [|congruence].
    exists before, rest, outcome. repeat split; try assumption.
    f_equal. rewrite Hm. clear Hm Hf.
    induction before as [|b before IH]; simpl.
    + rewrite Ho. reflexivity.
    + rewrite (Hb b (or_introl eq_refl)). apply IH. intros n Hin. apply Hb. right. exact Hin.
  - split; [exact Hspec|]. rewrite after_nil. f_equal.
    clear Hf. induction (method_map precision) as [|n names IH]; simpl; [reflexivity|].
    rewrite (Hspec n (or_introl eq_refl)). apply IH. intros m Hin. apply Hspec. right. exact Hin.
Qed.

(** ** The manager: a transcription on a loaded model *)




(** ** The dispatcher: the answers to transcribe and load commands *)



(** X12.  With a sound codec, a load command that is served from the
    slot returns after writing one line and nothing else: the [ok] that
    echoes the identifier, precision and attention of the request.  The
    status command that follows reports the precision and attention of
    the model in the slot, which the load did not touch: when the request
    asked for another precision or attention, the acknowledgement and
    the status disagree. *)
Theorem reused_load_acknowledges_request (E : Env) (request : LoadModelRequest.t)
    (s : State) (c : LoadedModel.t) :
  codec_ok E ->
  current s = Some c ->
  reuse_condition (current s) request ->
  exists ack report,
    payload_of E
      (OkResponse "load_model"
         [ ("model_id", PStr (LoadModelRequest.model_id request));
           ("precision", PStr (Precision_str (LoadModelRequest.precision request)));
           ("attention", PStr (Attention_str (LoadModelRequest.attention request))) ])
    = Ok ack
    /\ payload_of E
         (StatusResponse (Some (LoadedModel.model_id c))
                         (Some (Path.to_string (LoadedModel.model_path c)))
                         (Some (Precision_str (LoadedModel.precision c)))
                         (Some (Attention_str (LoadedModel.attention c))))
       = Ok report
    /\ handle_command E (LoadModel request) s = (Val tt, written s ack)
    /\ handle_command E Status (written s ack) = (Val tt, written (written s ack) report).
Proof.
  intros Hcodec Hc Hr. apply can_reuse_spec in Hr.
  match goal with
  | |- exists ack report, payload_of E ?r1 = _ /\ payload_of E ?r2 = _ /\ _ =>
      destruct (write_response_ok E r1 s Hcodec) as (ack & Hack & _ & Hw1);
      destruct (write_response_ok E r2 (written s ack) Hcodec) as (report & Hrep & _ & Hw2)
  end.
  exists ack, report. split; [exact Hack|]. split; [exact Hrep|]. split.
  - unfold handle_command.
    rewrite (dispatch_Val E _ _ s c s (load_reuse E request s c Hc Hr)).
    + exact Hw1.
    + apply write_response_returns, Hcodec.
  - unfold handle_command.
    rewrite (dispatch_Val E status _ (written s ack)
               {| StatusDict.loaded_model := Some (LoadedModel.model_id c);
                  StatusDict.model_path := Some (Path.to_string (LoadedModel.model_path c));
                  StatusDict.precision := Some (Precision_str (LoadedModel.precision c));
                  StatusDict.attention := Some (Attention_str (LoadedModel.attention c)) |}
               (written s ack)).
    + exact Hw2.
    + unfold status, bind, get_current, ret, written. simpl. rewrite Hc. reflexivity.
    + apply write_response_returns, Hcodec.
Qed.

(** The slot holds "parakeet" in [bf16] with full attention; a request
    for [fp32] with local attention is acknowledged as such, and the
    status still says [bf16] and [full]. *)
Lemma reused_load_acknowledges_request_witness :
  exists ack report,
    payload_of Demo.env
      (OkResponse "load_model"
         [ ("model_id", PStr "parakeet"); ("precision", PStr "fp32");
           ("attention", PStr "local") ])
    = Ok ack
    /\ payload_of Demo.env
         (StatusResponse (Some "parakeet") (Some "/cache/parakeet")
                         (Some "bf16") (Some "full"))
       = Ok report
    /\ handle_command Demo.env (LoadModel (Demo.request_with fp32 local None)) Demo.loaded
       = (Val tt, written Demo.loaded ack)
    /\ handle_command Demo.env Status (written Demo.loaded ack)
       = (Val tt, written (written Demo.loaded ack) report).
Proof.
  apply (reused_load_acknowledges_request Demo.env (Demo.request_with fp32 local None)
           Demo.loaded Demo.loaded_model).
  - exact demo_codec_ok.
  - reflexivity.
  - apply can_reuse_spec. reflexivity.
Defined.



(** ** The loop: lines that are not commands, shutdown, and the end *)

Lemma process_line_decode_error E raw_line e s :
  is_blank raw_line = false ->
  decoded E (strip raw_line) = Raise e ->
  process_line E raw_line s = write_response E (decode_error_response e) s.
Proof.
  intros Hb Hd. unfold process_line. unfold is_blank in Hb. rewrite Hb.
  unfold decoded in Hd. unfold decode, try_except, bind, lift, ret.
  destruct (orjson_loads E (strip raw_line)) as [payload|e0].
  - rewrite Hd. unfold decode_error_response.
    destruct (exn_class e);
      match goal with
      | |- context [write_response E ?r s] =>
          destruct (write_response E r s) as [[[]|e1|n] s1]; reflexivity
      end.
  - inversion Hd; subst e0. unfold decode_error_response.
    destruct (exn_class e);
      match goal with
      | |- context [write_response E ?r s] =>
          destruct (write_response E r s) as [[[]|e1|n] s1]; reflexivity
      end.
Qed.

Lemma process_line_decoded E raw_line command s :
  is_blank raw_line = false ->
  decoded E (strip raw_line) = Ok command ->
  process_line E raw_line s = handle_command E command s.
Proof.
  intros Hb Hd. unfold process_line. unfold is_blank in Hb. rewrite Hb.
  unfold decoded in Hd. unfold decode, try_except, bind, lift, ret.
  destruct (orjson_loads E (strip raw_line)) as [payload|e0]; [|discriminate].
  rewrite Hd. reflexivity.
Qed.

(** A value that is not a mapping is never a command: [parse_command]
    raises a [TypeError] or a [ValueError]. *)
Lemma parse_command_not_mapping E payload :
  (forall fields, payload <> PDict fields) ->
  exists e, parse_command E payload = Raise e
            /\ (exn_class e = TypeError \/ exn_class e = ValueError).
Proof.
  intros Hn. unfold parse_command.
  destruct payload as [|b|z|f|t|xs|xs|kvs|has_dict attrs]; simpl;
    try (eexists; split; [reflexivity | left; reflexivity]).
  - destruct (contains_sub "type" t); eexists; (split; [reflexivity|]);
      [left | right]; reflexivity.
  - destruct (existsb _ xs); eexists; (split; [reflexivity|]); [left | right]; reflexivity.
  - destruct (existsb _ xs); eexists; (split; [reflexivity|]); [left | right]; reflexivity.
  - exfalso. eapply Hn. reflexivity.
Qed.

(** X14.  With a sound codec, a line that is not blank and is not a
    command is answered with one error response and never reaches the
    manager; processing it returns after writing that one line, and the
    loop reads on.  A line the JSON decoder rejects is answered with
    [parse_error] and the decoder's message; a JSON value that is not an
    object (an array, a string, a number, a boolean, null) with
    [parse_error]; an object that the schema of its command rejects with
    [validation_error], the message "Invalid payload" and pydantic's
    list of errors as details.  When that list cannot be serialised (a
    failing validator leaves its [ValueError] in it), the line written
    is the one of the fixed [serialisation_error] response. *)
Theorem line_that_is_no_command_is_answered (E : Env) (raw_line : string) (s : State) :
  codec_ok E ->
  is_blank raw_line = false ->
  (forall e,
     orjson_loads E (strip raw_line) = Raise e ->
     exn_class e <> ValidationError ->
     line_answered E (ErrorResponse "parse_error" (exn_msg e) None) raw_line s)
  /\ (forall payload,
        orjson_loads E (strip raw_line) = Ok payload ->
        (forall fields, payload <> PDict fields) ->
        exists message,
          line_answered E (ErrorResponse "parse_error" message None) raw_line s)
  /\ (forall payload e,
        orjson_loads E (strip raw_line) = Ok payload ->
        parse_command E payload = Raise e ->
        exn_class e = ValidationError ->
        line_answered E
          (ErrorResponse "validation_error" "Invalid payload"
             (Some [("errors", PList (exn_errors e))]))
          raw_line s
        /\ (forall e',
              orjson_dumps E
                (model_dump
                   (ErrorResponse "validation_error" "Invalid payload"
                      (Some [("errors", PList (exn_errors e))])))
              = Raise e' ->
              exists bytes,
                orjson_dumps E (model_dump serialisation_error) = Ok bytes
                /\ process_line E raw_line s = (Val tt, written s bytes))).
Proof.
  intros Hcodec Hb. split; [|split].
  - intros e Hl Hc. apply line_answered_intro; [exact Hcodec|].
    rewrite (process_line_decode_error E raw_line e s Hb).
    + unfold decode_error_response. destruct (exn_class e); try reflexivity. congruence.
    + unfold decoded. rewrite Hl. reflexivity.
  - intros payload Hl Hn.
    destruct (parse_command_not_mapping E payload Hn) as (e & Hp & Hc).
    exists (exn_msg e). apply line_answered_intro; [exact Hcodec|].
    rewrite (process_line_decode_error E raw_line e s Hb).
    + unfold decode_error_response. destruct Hc as [-> | ->]; reflexivity.
    + unfold decoded. rewrite Hl. exact Hp.
  - intros payload e Hl Hp Hc.
    assert (Ha : line_answered E
                   (ErrorResponse "validation_error" "Invalid payload"
                      (Some [("errors", PList (exn_errors e))])) raw_line s).
    { apply line_answered_intro; [exact Hcodec|].
      rewrite (process_line_decode_error E raw_line e s Hb).
      - unfold decode_error_response. rewrite Hc. reflexivity.
      - unfold decoded. rewrite Hl. exact Hp. }
    split; [exact Ha|].
    intros e' Hd. destruct Ha as (bytes & Hpay & Hproc & _).
    exists bytes. split; [|exact Hproc].
    unfold payload_of in Hpay. rewrite Hd in Hpay. exact Hpay.
Qed.

(** A line that is not JSON; an array; and a load command whose context
    is 0: the validator's [ValueError] sits in the list of errors, which
    does not serialise, so the loop writes the fixed error response. *)
Lemma line_that_is_no_command_is_answered_witness :
  line_answered Lab.env
    (ErrorResponse "parse_error" "unexpected character: line 1 column 1 (char 0)" None)
    "load the model" Demo.loaded
  /\ (exists message,
        line_answered Lab.env (ErrorResponse "parse_error" message None)
          (Demo.line_of Lab.array_payload) Demo.loaded)
  /\ (exists bytes,
        orjson_dumps Lab.env (model_dump serialisation_error) = Ok bytes
        /\ process_line Lab.env (Demo.line_of Lab.bad_context_payload) Demo.loaded
           = (Val tt, written Demo.loaded bytes)).
Proof.
  split; [|split].
  - apply (proj1 (line_that_is_no_command_is_answered Lab.env "load the model"
                    Demo.loaded lab_codec_ok eq_refl)
             (exn ValueError "unexpected character: line 1 column 1 (char 0)")).
    + reflexivity.
    + discriminate.
  - apply (proj1 (proj2 (line_that_is_no_command_is_answered Lab.env
                           (Demo.line_of Lab.array_payload) Demo.loaded
                           lab_codec_ok eq_refl))
             Lab.array_payload).
    + reflexivity.
    + discriminate.
  - apply (proj2 (proj2 (proj2 (line_that_is_no_command_is_answered Lab.env
                                  (Demo.line_of Lab.bad_context_payload) Demo.loaded
                                  lab_codec_ok eq_refl))
                    Lab.bad_context_payload
                    (Lab.validation_error "LoadModelRequest" Lab.bad_context_payload)
                    eq_refl eq_refl eq_refl)
             (exn TypeError "Type is not JSON serializable")).
    reflexivity.
Defined.

(** X15.  A shutdown command whose unload returns (the slot is empty,
    or the model has no [close], or [close] returns) is acknowledged
    with [ok] after the unload and ends the loop with [SystemExit(0)]:
    the slot is empty, and the lines that follow are never read. *)
Theorem shutdown_ends_the_loop (E : Env) (raw_line : string) (rest : list Input)
    (payload : PyVal) (s : State) :
  codec_ok E ->
  is_blank raw_line = false ->
  orjson_loads E (strip raw_line) = Ok payload ->
  parse_command E payload = Ok Shutdown ->
  fst (unload s) = Val tt ->
  exists bytes,
    payload_of E (OkResponse "shutdown" []) = Ok bytes
    /\ event_loop E (Line raw_line :: rest) s
       = (Exit 0, after (snd (unload s)) [EvStdout (bytes ++ newline)])
    /\ current (after (snd (unload s)) [EvStdout (bytes ++ newline)]) = None.
Proof.
  intros Hc Hb Hl Hp Hu.
  destruct (unload s) as [r s1] eqn:Hus. simpl in Hu. subst r.
  destruct (write_response_ok E (OkResponse "shutdown" []) s1 Hc) as (bytes & Hpay & _ & Hw).
  exists bytes. split; [exact Hpay|]. split.
  - simpl. unfold bind at 1.
    rewrite (process_line_decoded E raw_line Shutdown s Hb)
      by (unfold decoded; rewrite Hl; exact Hp).
    rewrite (handle_shutdown_unloads_first E s s1 Hus), Hw. reflexivity.
  - simpl. pose proof (unload_clears s) as Hcl. rewrite Hus in Hcl. exact Hcl.
Qed.

Lemma shutdown_ends_the_loop_witness :
  exists bytes,
    payload_of Demo.env (OkResponse "shutdown" []) = Ok bytes
    /\ event_loop Demo.env
         [ Line (Demo.line_of Demo.shutdown_payload);
           Line (Demo.line_of Demo.status_payload) ] Demo.loaded
       = (Exit 0, after (snd (unload Demo.loaded)) [EvStdout (bytes ++ newline)])
    /\ current (after (snd (unload Demo.loaded)) [EvStdout (bytes ++ newline)]) = None.
Proof.
  apply (shutdown_ends_the_loop Demo.env (Demo.line_of Demo.shutdown_payload)
           [Line (Demo.line_of Demo.status_payload)] Demo.shutdown_payload Demo.loaded).
  - exact demo_codec_ok.
  - reflexivity.
  - reflexivity.
  - reflexivity.
  - reflexivity.
Defined.

(** ** The normaliser and the response schema *)

Lemma mapM_as_dict_dicts (ts : list (list (string * PyVal))) :
  mapM as_dict (List.map PDict ts) = Some ts.
Proof.
  induction ts as [|t ts IH]; simpl; [reflexivity|]. rewrite IH. reflexivity.
Qed.

(** Validating the dump of a segment payload gives the payload back. *)
Lemma segment_dump_validates E (seg : SegmentPayload.t) fields :
  typed_values_pass E ->
  SegmentPayload_model_dump seg = PDict fields ->
  SegmentPayload_validate E fields = Ok seg.
Proof.
  intros [Hstr Hfloat] Hd. destruct seg as [text start end_ tokens].
  unfold SegmentPayload_model_dump in Hd. simpl in Hd. inversion Hd; subst fields. clear Hd.
  unfold SegmentPayload_validate, field, dict_get. simpl. rewrite Hstr. simpl.
  destruct start as [f1|], end_ as [f2|], tokens as [ts|]; simpl;
    rewrite ?Hfloat, ?mapM_as_dict_dicts; reflexivity.
Qed.

Lemma normalise_segments_validate E items dumps :
  typed_values_pass E ->
  normalise_segments E items = Ok dumps ->
  exists segs,
    validate_segments E dumps = Some segs
    /\ List.map SegmentPayload_model_dump segs = dumps.
Proof.
  intros Ht. revert dumps. induction items as [|item items IH]; simpl; intros dumps H.
  - inversion H. exists []. split; reflexivity.
  - unfold normalise_segment in H.
    destruct (segment_fields item) as [[[seg_text start] end_] tokens].
    destruct (SegmentPayload_validate E _) as [seg|e]; [|discriminate].
    destruct (normalise_segments E items) as [rest|e]; [|discriminate].
    inversion H; subst dumps. clear H.
    destruct (IH rest eq_refl) as (segs & Hv & Hm).
    exists (seg :: segs). split; [|simpl; rewrite Hm; reflexivity].
    simpl. rewrite (segment_dump_validates E seg _ Ht eq_refl), Hv. reflexivity.
Qed.

(** X17.  The segments of a normalised result always pass the schema of
    the response: validating the mappings the normaliser dumped gives
    back the payloads they were dumped from.  Hence, once the normaliser
    has returned, building the response can only fail on the text, the
    language or the duration of the raw result, and the response carries
    the segments of the normalised result unchanged. *)
Theorem normalised_segments_pass_the_response_schema (E : Env) (result : PyVal)
    (n : Normalised.t) :
  typed_values_pass E ->
  _normalise_result E result = Ok n ->
  exists segs,
    validate_segments E (Normalised.segments n) = Some segs
    /\ List.map SegmentPayload_model_dump segs = Normalised.segments n
    /\ (forall text language duration,
          as_str E (Normalised.text n) = Some text ->
          validate_optional (as_str E) (Normalised.language n) = Some language ->
          validate_optional (as_float E) (Normalised.duration n) = Some duration ->
          TranscriptionResponse_validate E n
          = Ok (TranscriptionResponse text segs language duration)).
Proof.
  intros Ht Hn.
  destruct (normalise_result_inv E result n Hn) as (_ & _ & _ & items & _ & Hs).
  destruct (normalise_segments_validate E items _ Ht Hs) as (segs & Hv & Hm).
  exists segs. split; [exact Hv|]. split; [exact Hm|].
  intros text language duration H1 H2 H3.
  unfold TranscriptionResponse_validate. rewrite H1, Hv, H2, H3. reflexivity.
Qed.

Lemma normalised_segments_pass_the_response_schema_witness :
  exists segs,
    validate_segments Demo.env (Normalised.segments demo_normalised) = Some segs
    /\ List.map SegmentPayload_model_dump segs = Normalised.segments demo_normalised
    /\ (forall text language duration,
          as_str Demo.env (Normalised.text demo_normalised) = Some text ->
          validate_optional (as_str Demo.env) (Normalised.language demo_normalised)
          = Some language ->
          validate_optional (as_float Demo.env) (Normalised.duration demo_normalised)
          = Some duration ->
          TranscriptionResponse_validate Demo.env demo_normalised
          = Ok (TranscriptionResponse text segs language duration)).
Proof.
  apply (normalised_segments_pass_the_response_schema Demo.env Demo.raw_result
           demo_normalised).
  - split; intros; reflexivity.
  - reflexivity.
Defined.

(** ** The slot across the loop *)

(** The answer and the [except] clauses leave the slot as the operation
    left it. *)
Lemma dispatch_slot E {A : Type} (op : M A) (answer : A -> M unit) s :
  (forall a, preserves same_slot (answer a)) ->
  current (snd (try_except (bind op answer) (command_handler E) s)) = current (snd (op s)).
Proof.
  intros Ha. unfold try_except, bind.
  destruct (op s) as [[a|e|n] s1]; simpl.
  - destruct (answer a s1) as [[u|e|n] s2] eqn:Hans; simpl;
      try exact (Ha a _ _ _ Hans).
    rewrite command_handler_eq.
    destruct (write_response E (error_response_for e) s2) as [r s3] eqn:Hw. simpl.
    rewrite (write_response_same_slot _ _ _ _ _ Hw). exact (Ha a _ _ _ Hans).
  - rewrite command_handler_eq.
    destruct (write_response E (error_response_for e) s1) as [r s3] eqn:Hw. simpl.
    exact (write_response_same_slot _ _ _ _ _ Hw).
  - reflexivity.
Qed.

Lemma write_then_exit_same_slot E response n :
  preserves same_slot (write_response E response ;; @sys_exit unit n).
Proof.
  apply preserves_bind; [apply same_slot_trans | apply write_response_same_slot |].
  intros _. apply preserves_sys_exit, same_slot_refl.
Qed.

(** What a command can do to the slot. *)
Lemma command_slot E command s :
  current (snd (handle_command E command s)) = current s
  \/ (current (snd (handle_command E command s)) = None
      /\ (command = UnloadModel \/ command = Shutdown))
  \/ exists request p model params,
       command = LoadModel request
       /\ ~ reuse_condition (current s) request
       /\ from_pretrained E p = Ok model
       /\ transcribe_signature model = Ok params
       /\ current (snd (handle_command E command s))
          = Some (new_state request p model params).
Proof.
  unfold handle_command. destruct command as [request| |request| |].
  - rewrite dispatch_slot by (intros _; apply write_response_same_slot).
    destruct (can_reuse (current s) request) eqn:Hr.
    + left. pose proof (proj1 (can_reuse_spec _ _) Hr) as (c & Hc & _).
      rewrite (load_reuse E request s c Hc Hr). reflexivity.
    + destruct (load E request s) as [r s1] eqn:Hl.
      pose proof (load_fresh_inv E request s r s1 Hr Hl) as Hinv.
      destruct r as [loaded|e|n]; simpl.
      * right. right. destruct Hinv as (model & evs & Hm & Hsig & Hn & Hc & _).
        exists request, (LoadedModel.model_path loaded), model,
               (LoadedModel.transcribe_params loaded).
        split; [reflexivity|]. split; [apply can_reuse_false, Hr|].
        split; [exact Hm|]. split; [exact Hsig|]. rewrite Hc, <- Hn. reflexivity.
      * left. exact Hinv.
      * contradiction.
  - rewrite dispatch_slot by (intros _; apply write_response_same_slot).
    right. left. split; [apply unload_clears | left; reflexivity].
  - rewrite dispatch_slot by (intros a; apply write_response_same_slot).
    left. destruct (transcribe E request s) as [r s1] eqn:Ht.
    exact (transcribe_same_slot E request _ _ _ Ht).
  - rewrite dispatch_slot by (intros a; apply write_response_same_slot).
    left. destruct (status_pure s) as [st ->]. reflexivity.
  - rewrite dispatch_slot by (intros _; apply write_then_exit_same_slot).
    right. left. split; [apply unload_clears | right; reflexivity].
Qed.

(** What a line can do to the slot. *)
Lemma process_line_cases E raw_line s :
  current (snd (process_line E raw_line s)) = current s
  \/ exists command,
       decoded E (strip raw_line) = Ok command
       /\ process_line E raw_line s = handle_command E command s.
Proof.
  destruct (is_blank raw_line) eqn:Hb.
  - left. unfold process_line. unfold is_blank in Hb. rewrite Hb. reflexivity.
  - destruct (decoded E (strip raw_line)) as [command|e] eqn:Hd.
    + right. exists command. split; [reflexivity|].
      apply process_line_decoded; assumption.
    + left. rewrite (process_line_decode_error E raw_line e s Hb Hd).
      destruct (write_response E (decode_error_response e) s) as [r s1] eqn:Hw.
      exact (write_response_same_slot _ _ _ _ _ Hw).
Qed.

(** X18.  A line changes the slot in two ways only: an unload or
    shutdown command empties it, and a load command that is not served
    from the slot and succeeds puts there the state built from the
    request, the instantiated model and the parameter names of its
    [transcribe].  Every other line (blank, not a
    command, a status or transcribe command, a load that is served from
    the slot or fails) leaves in the slot what was there, whatever goes
    wrong while it is handled. *)
Theorem slot_changes_only_by_load_and_unload (E : Env) (raw_line : string) (s : State) :
  current (snd (process_line E raw_line s)) = current s
  \/ (current (snd (process_line E raw_line s)) = None
      /\ (decoded E (strip raw_line) = Ok UnloadModel
          \/ decoded E (strip raw_line) = Ok Shutdown))
  \/ exists request p model params,
       decoded E (strip raw_line) = Ok (LoadModel request)
       /\ ~ reuse_condition (current s) request
       /\ from_pretrained E p = Ok model
       /\ transcribe_signature model = Ok params
       /\ current (snd (process_line E raw_line s))
          = Some (new_state request p model params).
Proof.
  destruct (process_line_cases E raw_line s) as [Hs | (command & Hd & ->)];
    [left; exact Hs|].
  destruct (command_slot E command s)
    as [Hs | [[Hs Hc] | (request & p & model & params & -> & Hr & Hm & Hsig & Hs)]].
  - left. exact Hs.
  - right. left. split; [exact Hs|].
    destruct Hc as [-> | ->]; [left | right]; exact Hd.
  - right. right. exists request, p, model, params. repeat split; assumption.
Qed.

Lemma new_state_consistent request p model params s :
  transcribe_signature model = Ok params ->
  current s = Some (new_state request p model params) -> slot_consistent s.
Proof.
  intros Hsig Hc. unfold slot_consistent. rewrite Hc. simpl. split; [exact Hsig|].
  unfold float_or. split.
  - destruct (LoadModelRequest.chunk_duration request) as [f|]; [|reflexivity].
    destruct (float_truthy f) eqn:Hf; [exact Hf | reflexivity].
  - destruct (LoadModelRequest.overlap_duration request) as [f|]; [|reflexivity].
    destruct (float_truthy f) eqn:Hf; [exact Hf | reflexivity].
Qed.

Lemma process_line_consistent E raw_line s :
  slot_consistent s -> slot_consistent (snd (process_line E raw_line s)).
Proof.
  intros Hs.
  destruct (process_line_cases E raw_line s) as [Hc | (command & _ & ->)].
  - unfold slot_consistent in *. rewrite Hc. exact Hs.
  - destruct (command_slot E command s)
      as [Hc | [[Hc _] | (request & p & model & params & _ & _ & _ & Hsig & Hc)]].
    + unfold slot_consistent in *. rewrite Hc. exact Hs.
    + unfold slot_consistent. rewrite Hc. exact I.
    + eapply new_state_consistent; [exact Hsig | exact Hc].
Qed.

Lemma event_loop_consistent E inputs :
  forall s, slot_consistent s -> slot_consistent (snd (event_loop E inputs s)).
Proof.
  induction inputs as [|input inputs IH]; intros s Hs; simpl.
  - exact Hs.
  - destruct input as [raw_line|signum]; [|exact Hs].
    pose proof (process_line_consistent E raw_line s Hs) as H1.
    unfold bind. destruct (process_line E raw_line s) as [[[]|e|n] s1]; simpl in *.
    + apply IH, H1.
    + exact H1.
    + exact H1.
Qed.

(** X19.  In every state the process can reach, whatever the input, a
    model in the slot comes with the capability set read off its own
    [transcribe] signature and with default chunk and overlap durations
    that are not zero: a request that gives 0 or null for them is loaded
    with 120 and 15 seconds.  So the arguments built for any transcribe
    request hold no keyword the signature of that model does not
    declare. *)
Theorem run_keeps_the_slot_consistent (E : Env) (inputs : list Input) :
  slot_consistent (snd (run E inputs))
  /\ forall c,
       current (snd (run E inputs)) = Some c ->
       exists params,
         transcribe_signature (LoadedModel.instance c) = Ok params
         /\ forall request, dom (_build_kwargs c request) ⊆ params.
Proof.
  assert (H : slot_consistent (snd (run E inputs))).
  { pose proof (event_loop_consistent E inputs initial I) as H.
    unfold run. destruct (event_loop E inputs initial) as [[[]|e|n] s1]; exact H. }
  split; [exact H|].
  intros c Hc. unfold slot_consistent in H. rewrite Hc in H.
  destruct H as (Hp & _). exists (LoadedModel.transcribe_params c).
  split; [exact Hp|]. intros request. apply build_kwargs_dom.
Qed.

(** ** Paths: the text of a path denotes the path *)

Lemma root_of_cons c rest :
  Path.root_of (String c rest)
  = if Ascii.eqb c "/" then
      match rest with
      | String c2 rest2 =>
          if Ascii.eqb c2 "/" then
            match rest2 with
            | String c3 _ => if Ascii.eqb c3 "/" then "/" else "//"
            | EmptyString => "//"
            end
          else "/"
      | EmptyString => "/"
      end
    else "".
Proof.
  destruct c as [[] [] [] [] [] [] [] []]; try reflexivity.
  destruct rest as [|c2 rest2]; [reflexivity|].
  destruct c2 as [[] [] [] [] [] [] [] []]; try reflexivity.
  destruct rest2 as [|c3 rest3]; [reflexivity|].
  destruct c3 as [[] [] [] [] [] [] [] []]; reflexivity.
Qed.

Lemma root_of_cases s :
  Path.root_of s = "" \/ Path.root_of s = "/" \/ Path.root_of s = "//".
Proof.
  destruct s as [|c rest]; [left; reflexivity|]. rewrite root_of_cons.
  destruct (Ascii.eqb c "/"); [|auto].
  destruct rest as [|c2 rest2]; [auto|].
  destruct (Ascii.eqb c2 "/"); [|auto].
  destruct rest2 as [|c3 rest3]; [auto|].
  destruct (Ascii.eqb c3 "/"); auto.
Qed.

Lemma split_slash_cons c rest :
  Path.split_slash (String c rest)
  = if Ascii.eqb c "/" then "" :: Path.split_slash rest
    else match Path.split_slash rest with
         | [] => [String c ""]
         | hd :: tl => String c hd :: tl
         end.
Proof. reflexivity. Qed.

Lemma split_slash_no_slash s :
  Forall (fun p => no_slash p = true) (Path.split_slash s).
Proof.
  induction s as [|c rest IH]; [repeat constructor|].
  rewrite split_slash_cons. destruct (Ascii.eqb c "/") eqn:Hc.
  - constructor; [reflexivity | exact IH].
  - destruct (Path.split_slash rest) as [|hd tl].
    + constructor; [simpl; rewrite Hc; reflexivity | constructor].
    + inversion IH; subst. constructor; [simpl; rewrite Hc; assumption | assumption].
Qed.

Lemma split_slash_whole s : no_slash s = true -> Path.split_slash s = [s].
Proof.
  induction s as [|c rest IH]; [reflexivity|]. simpl no_slash.
  rewrite andb_true_iff, negb_true_iff. intros [Hc Hr].
  rewrite split_slash_cons, Hc, (IH Hr). reflexivity.
Qed.

Lemma split_slash_app a b :
  no_slash a = true ->
  Path.split_slash (a ++ "/" ++ b) = a :: Path.split_slash b.
Proof.
  induction a as [|c a IH]; [reflexivity|]. simpl no_slash.
  rewrite andb_true_iff, negb_true_iff. intros [Hc Ha].
  change (String c a ++ "/" ++ b) with (String c (a ++ "/" ++ b)).
  rewrite split_slash_cons, Hc, (IH Ha). reflexivity.
Qed.

Lemma split_slash_join ps :
  ps <> [] ->
  Forall (fun p => is_part p = true) ps ->
  Path.split_slash (Path.join ps) = ps.
Proof.
  induction ps as [|p ps IH]; [congruence|]. intros _ Hps.
  inversion Hps as [|? ? Hp Hrest]; subst.
  unfold is_part in Hp. apply andb_true_iff in Hp as [_ Hp].
  destruct ps as [|q ps].
  - apply split_slash_whole, Hp.
  - change (Path.join (p :: q :: ps)) with (p ++ "/" ++ Path.join (q :: ps)).
    rewrite (split_slash_app _ _ Hp), IH; [reflexivity | discriminate | exact Hrest].
Qed.

Lemma filter_parts ps :
  Forall (fun p => is_part p = true) ps -> List.filter Path.keep_part ps = ps.
Proof.
  induction 1 as [|p ps Hp _ IH]; [reflexivity|]. simpl.
  unfold is_part in Hp. apply andb_true_iff in Hp as [-> _]. rewrite IH. reflexivity.
Qed.

Lemma parts_are_parts s :
  Forall (fun p => is_part p = true) (List.filter Path.keep_part (Path.split_slash s)).
Proof.
  pose proof (split_slash_no_slash s) as H.
  induction H as [|p ps Hp _ IH]; [constructor|]. simpl.
  destruct (Path.keep_part p) eqn:Hk; [|exact IH].
  constructor; [|exact IH]. unfold is_part. rewrite Hk, Hp. reflexivity.
Qed.

(** The text of a first component starts with a character that is not
    a slash. *)
Lemma join_head p ps :
  is_part p = true ->
  exists c rest, Path.join (p :: ps) = String c rest /\ Ascii.eqb c "/" = false.
Proof.
  unfold is_part, Path.keep_part. rewrite !andb_true_iff, !negb_true_iff.
  intros [[Hne _] Hs]. destruct p as [|c p']; [discriminate|].
  simpl in Hs. apply andb_true_iff in Hs as [Hc _]. apply negb_true_iff in Hc.
  destruct ps as [|q ps]; eexists c, _; (split; [reflexivity | exact Hc]).
Qed.

Lemma path_text_denotes root parts :
  root = "" \/ root = "/" \/ root = "//" ->
  Forall (fun p => is_part p = true) parts ->
  Path.of_string (Path.to_string {| Path.root := root; Path.parts := parts |})
  = {| Path.root := root; Path.parts := parts |}.
Proof.
  intros Hroot Hparts. unfold Path.to_string. cbn [Path.root Path.parts].
  destruct parts as [|p ps].
  - destruct Hroot as [-> | [-> | ->]]; reflexivity.
  - destruct (join_head p ps) as (c & rest & Hj & Hc).
    { inversion Hparts; assumption. }
    pose proof (split_slash_join (p :: ps) ltac:(discriminate) Hparts) as Hsplit.
    pose proof (filter_parts _ Hparts) as Hfilter.
    rewrite Hj in Hsplit |- *. clear Hj.
    unfold Path.of_string.
    destruct Hroot as [-> | [-> | ->]].
    + change ("" ++ String c rest) with (String c rest).
      change (String.eqb (String c rest) "") with false. cbv iota.
      rewrite root_of_cons, Hc, Hsplit, Hfilter. reflexivity.
    + change ("/" ++ String c rest) with (String "/" (String c rest)).
      change (String.eqb (String "/" (String c rest)) "") with false. cbv iota.
      rewrite root_of_cons, split_slash_cons.
      change (Ascii.eqb "/" "/") with true. cbv iota.
      rewrite Hc, Hsplit.
      change (List.filter Path.keep_part ("" :: p :: ps))
        with (List.filter Path.keep_part (p :: ps)).
      rewrite Hfilter. reflexivity.
    + change ("//" ++ String c rest) with (String "/" (String "/" (String c rest))).
      change (String.eqb (String "/" (String "/" (String c rest))) "") with false. cbv iota.
      rewrite root_of_cons, split_slash_cons.
      change (Ascii.eqb "/" "/") with true. cbv iota.
      rewrite split_slash_cons.
      change (Ascii.eqb "/" "/") with true. cbv iota.
      rewrite Hc, Hsplit.
      change (List.filter Path.keep_part ("" :: "" :: p :: ps))
        with (List.filter Path.keep_part (p :: ps)).
      rewrite Hfilter. reflexivity.
Qed.

Lemma path_round_trip text :
  Path.of_string (Path.to_string (Path.of_string text)) = Path.of_string text.
Proof.
  unfold Path.of_string at 2 3. apply path_text_denotes.
  - apply root_of_cases.
  - apply parts_are_parts.
Qed.

Lemma resolve_normal E request s p s1 :
  _resolve_model_path E request s = (Val p, s1) -> exists text, p = Path.of_string text.
Proof.
  unfold _resolve_model_path. intros H.
  destruct (opt_str_truthy (LoadModelRequest.local_path request)).
  - destruct (negb (path_exists E _)); inversion H. eexists. reflexivity.
  - unfold call, bind, emit, lift, ret in H.
    destruct (snapshot_download E _ _) as [path_str|e]; inversion H. eexists. reflexivity.
Qed.

(** The path of a state that a load has built is the path of a text. *)
Lemma load_fresh_path E request s loaded s1 :
  can_reuse (current s) request = false ->
  load E request s = (Val loaded, s1) ->
  exists text, LoadedModel.model_path loaded = Path.of_string text.
Proof.
  intros Hr H. unfold load in H. unfold bind at 1 in H. simpl in H.
  rewrite Hr in H. unfold bind at 1 in H.
  destruct (_resolve_model_path E request s) as [[p|e|k] s0] eqn:E1; try discriminate.
  destruct (resolve_normal _ _ _ _ _ E1) as [text ->].
  unfold bind at 1 in H. unfold call, bind, emit, lift in H.
  destruct (from_pretrained E (Path.of_string text)) as [model|e]; [|discriminate].
  unfold _configure_precision in H.
  match type of H with
  | context [apply_first_method ?m ?ns ?st] =>
      destruct (apply_first_method m ns st) as [[[]|e|k] s2]
  end; try discriminate.
  match type of H with
  | context [_configure_attention ?m ?a ?c ?st] =>
      destruct (attention_returns m a c st) as [s3 E4]; rewrite E4 in H
  end.
  destruct (transcribe_signature model) as [params|e]; [|discriminate].
  unfold set_current, ret in H. inversion H. exists text. reflexivity.
Qed.

(** X20.  The text of a path denotes the path it was taken from, so the
    path that [status] reports can be handed back: after a load that
    built a fresh state, a request for the same identifier without eager
    unload that names as [local_path] the [model_path] of the status is
    served from the slot, whatever else it asks for, and nothing is
    resolved, downloaded or instantiated again. *)
Theorem reported_path_reuses_the_model (E : Env) (request request' : LoadModelRequest.t)
    (s s1 : State) (loaded : LoadedModel.t) (st : StatusDict.t) :
  ~ reuse_condition (current s) request ->
  load E request s = (Val loaded, s1) ->
  status s1 = (Val st, s1) ->
  LoadModelRequest.model_id request' = LoadModelRequest.model_id request ->
  LoadModelRequest.eager_unload request' = false ->
  LoadModelRequest.local_path request' = StatusDict.model_path st ->
  load E request' s1 = (Val loaded, s1).
Proof.
  intros Hn Hl Hst Hid He Hp. apply can_reuse_false in Hn.
  destruct (load_fresh_path E request s loaded s1 Hn Hl) as [text Htext].
  pose proof (load_fresh_inv E request s _ _ Hn Hl) as (model & evs & _ & _ & Hnew & Hc & _).
  unfold status, bind, get_current, ret in Hst. rewrite Hc in Hst.
  inversion Hst; subst st. clear Hst. simpl in Hp.
  apply load_reuse; [exact Hc|]. rewrite Hc. unfold can_reuse.
  rewrite He, Hp, Hid. simpl.
  assert (Hm : LoadedModel.model_id loaded = LoadModelRequest.model_id request).
  { rewrite Hnew. reflexivity. }
  rewrite Hm, String.eqb_refl, Htext, path_round_trip, Path_eqb_refl.
  apply orb_true_r.
Qed.

Lemma reported_path_reuses_the_model_witness :
  load Demo.env (Demo.request_with fp32 local (Some "/cache/parakeet")) Demo.after_load
  = (Val Demo.loaded_model, Demo.after_load).
Proof.
  apply (reported_path_reuses_the_model Demo.env Demo.request
           (Demo.request_with fp32 local (Some "/cache/parakeet"))
           initial Demo.after_load Demo.loaded_model
           {| StatusDict.loaded_model := Some "parakeet";
              StatusDict.model_path := Some "/cache/parakeet";
              StatusDict.precision := Some "bf16";
              StatusDict.attention := Some "full" |}).
  - apply can_reuse_false. reflexivity.
  - reflexivity.
  - reflexivity.
  - reflexivity.
  - reflexivity.
  - reflexivity.
Defined.

(** ** Eager reloads *)

(** X21.  With [eager_unload] set, a load never reuses the model in the
    slot: it resolves and instantiates again, and when it returns the
    slot holds the state built from the request.  The model it replaces
    is dropped, not unloaded: its [close] is never called.  When the
    load raises, the model that was in the slot is still there. *)
Theorem eager_load_replaces_without_closing (E : Env) (request : LoadModelRequest.t)
    (s : State) (c : LoadedModel.t) :
  LoadModelRequest.eager_unload request = true ->
  current s = Some c ->
  exists evs,
    trace (snd (load E request s)) = (trace s ++ evs)%list
    /\ ~ In (EvMethod "close") evs
    /\ match fst (load E request s) with
       | Val loaded =>
           exists model,
             from_pretrained E (LoadedModel.model_path loaded) = Ok model
             /\ transcribe_signature model = Ok (LoadedModel.transcribe_params loaded)
             /\ loaded = new_state request (LoadedModel.model_path loaded) model
                                   (LoadedModel.transcribe_params loaded)
             /\ current (snd (load E request s)) = Some loaded
             /\ In (EvFromPretrained (LoadedModel.model_path loaded)) evs
       | Exc _ => current (snd (load E request s)) = Some c
       | Exit _ => False
       end.
Proof.
  intros He Hc.
  assert (Hr : can_reuse (current s) request = false).
  { unfold can_reuse. rewrite Hc, He. reflexivity. }
  destruct (preserves_snd _ _ s (load_events E request)) as (evs & Ht & Hev).
  exists evs. split; [exact Ht|]. split.
  - intros Hin. rewrite Forall_forall in Hev. apply list_elem_of_In, Hev in Hin.
    simpl in Hin.
    destruct (LoadModelRequest.precision request); simpl in Hin;
      repeat destruct Hin as [Hin|Hin]; try discriminate; exact Hin.
  - destruct (load E request s) as [r s1] eqn:Hl. simpl in *.
    pose proof (load_fresh_inv E request s r s1 Hr Hl) as Hinv.
    destruct r as [loaded|e|n].
    + destruct Hinv as (model & evs' & Hm & Hsig & Hn & Hs & Ht' & Hin).
      exists model. repeat split; try assumption.
      rewrite Ht in Ht'. apply app_inv_head in Ht'. subst evs'. exact Hin.
    + rewrite Hinv. exact Hc.
    + exact Hinv.
Qed.

Lemma eager_load_replaces_without_closing_witness :
  exists evs,
    trace (snd (load Demo.env eager_request Demo.loaded))
    = (trace Demo.loaded ++ evs)%list
    /\ ~ In (EvMethod "close") evs
    /\ match fst (load Demo.env eager_request Demo.loaded) with
       | Val loaded =>
           exists model,
             from_pretrained Demo.env (LoadedModel.model_path loaded) = Ok model
             /\ transcribe_signature model = Ok (LoadedModel.transcribe_params loaded)
             /\ loaded = new_state eager_request (LoadedModel.model_path loaded) model
                                   (LoadedModel.transcribe_params loaded)
             /\ current (snd (load Demo.env eager_request Demo.loaded)) = Some loaded
             /\ In (EvFromPretrained (LoadedModel.model_path loaded)) evs
       | Exc _ => current (snd (load Demo.env eager_request Demo.loaded))
                  = Some Demo.loaded_model
       | Exit _ => False
       end.
Proof.
  apply (eager_load_replaces_without_closing Demo.env eager_request Demo.loaded
           Demo.loaded_model).
  - reflexivity.
  - reflexivity.
Defined.
